(** * HTML Element Inspector: attribute normalisation, canonical element
      selection, inference and report formatting

    A shallow embedding of [globalPlugins/htmlElementInspector.py].

    Conventions of the embedding.
    - Python [str] is [string]; case conversion and whitespace follow
      Python on the ASCII range (other code points are left alone by
      [lower]/[upper] and are not whitespace).
    - A Python [dict] from [str] to [str] is an association list in
      insertion order ([Dict.t]); a Python dictionary has no repeated key,
      which is [Dict.wf].
    - Host objects live in a store indexed by handles ([node]); reading a
      property of a host object either yields a value or raises ([exc]).
    - Loops of the source that are bounded by a counter recurse on that
      counter. *)

From Stdlib Require Import String Ascii List Bool Arith Lia ZArith.
From Stdlib Require Import Permutation Sorted DecimalString.
Import ListNotations.
Open Scope string_scope.
Open Scope list_scope.

Set Implicit Arguments.

(** ** Python string primitives *)

Module PyStr.

Definition is_space (c : ascii) : bool :=
  let n := nat_of_ascii c in
  (((9 <=? n) && (n <=? 13)) || ((28 <=? n) && (n <=? 32)))%nat.

Definition lower_char (c : ascii) : ascii :=
  let n := nat_of_ascii c in
  if ((65 <=? n) && (n <=? 90))%nat then ascii_of_nat (n + 32) else c.

Definition upper_char (c : ascii) : ascii :=
  let n := nat_of_ascii c in
  if ((97 <=? n) && (n <=? 122))%nat then ascii_of_nat (n - 32) else c.

Fixpoint smap (f : ascii -> ascii) (s : string) : string :=
  match s with
  | EmptyString => EmptyString
  | String c r => String (f c) (smap f r)
  end.

(** [s.lower()] and [s.upper()] *)
Definition lower : string -> string := smap lower_char.
Definition upper : string -> string := smap upper_char.

(** [bool(s)]: a string is truthy when it is not empty *)
Definition nonempty (s : string) : bool :=
  match s with EmptyString => false | String _ _ => true end.

(** [s.lstrip()], [s.rstrip()], [s.strip()] *)
Fixpoint lstrip (s : string) : string :=
  match s with
  | EmptyString => EmptyString
  | String c r => if is_space c then lstrip r else s
  end.

Fixpoint rstrip (s : string) : string :=
  match s with
  | EmptyString => EmptyString
  | String c r =>
      let r' := rstrip r in
      if is_space c && negb (nonempty r') then EmptyString else String c r'
  end.

Definition strip (s : string) : string := rstrip (lstrip s).

(** [s.startswith(p)] *)
Definition startswith (s p : string) : bool := String.prefix p s.

(** [needle in s] *)
Fixpoint contains (s needle : string) : bool :=
  String.prefix needle s ||
  match s with
  | EmptyString => false
  | String _ r => contains r needle
  end.

(** [c in s] for a one-character [c] *)
Fixpoint has_char (c : ascii) (s : string) : bool :=
  match s with
  | EmptyString => false
  | String d r => Ascii.eqb c d || has_char c r
  end.

(** [s.split(sep)] for a one-character separator *)
Fixpoint split_char (sep : ascii) (s : string) : list string :=
  match s with
  | EmptyString => [EmptyString]
  | String c r =>
      if Ascii.eqb c sep then EmptyString :: split_char sep r
      else match split_char sep r with
           | [] => [String c EmptyString]
           | h :: t => String c h :: t
           end
  end.

(** [s.split(sep, 1)] when [sep in s]: the text before the first
    separator and the text after it *)
Fixpoint split_once (sep : ascii) (s : string) : string * string :=
  match s with
  | EmptyString => (EmptyString, EmptyString)
  | String c r =>
      if Ascii.eqb c sep then (EmptyString, r)
      else let '(a, b) := split_once sep r in (String c a, b)
  end.

(** [sep.join(l)] *)
Fixpoint join (sep : string) (l : list string) : string :=
  match l with
  | [] => EmptyString
  | [x] => x
  | x :: r => (x ++ sep ++ join sep r)%string
  end.

(** [s in (a, b, ...)] *)
Definition str_in (s : string) (l : list string) : bool :=
  existsb (String.eqb s) l.

(** [str(n)] for integers *)
Definition str_of_nat (n : nat) : string :=
  NilEmpty.string_of_uint (Nat.to_uint n).
Definition str_of_Z (z : Z) : string :=
  NilEmpty.string_of_int (Z.to_int z).

(** The line feed *)
Definition nl : ascii := ascii_of_nat 10.
Definition newline : string := String nl EmptyString.

End PyStr.
Import PyStr.

(** ** Python dictionaries with string keys, in insertion order *)

Module Dict.

Definition t := list (string * string).

Definition empty : t := [].

(** [d.get(k)], [None] when the key is absent *)
Fixpoint get (d : t) (k : string) : option string :=
  match d with
  | [] => None
  | (k', v) :: r => if String.eqb k k' then Some v else get r k
  end.

(** [k in d] *)
Definition mem (d : t) (k : string) : bool :=
  match get d k with Some _ => true | None => false end.

(** [d.get(k, dflt)] *)
Definition get_or (d : t) (k dflt : string) : string :=
  match get d k with Some v => v | None => dflt end.

(** [d[k] = v]: an existing key keeps its place, a new key goes last *)
Fixpoint set (d : t) (k v : string) : t :=
  match d with
  | [] => [(k, v)]
  | (k', v') :: r =>
      if String.eqb k k' then (k, v) :: r else (k', v') :: set r k v
  end.

(** [d.pop(k, None)] *)
Definition pop (d : t) (k : string) : t :=
  filter (fun kv => negb (String.eqb k (fst kv))) d.

(** [list(d.keys())] *)
Definition keys (d : t) : list string := map fst d.

(** A Python dictionary holds each key once. *)
Definition wf (d : t) : Prop := NoDup (keys d).

End Dict.

(** ** Exceptions

    A host call either yields a value or raises; [except Exception] is a
    match on the outcome. *)

Inductive exc (A : Type) : Type :=
| Ok (a : A)
| Raise.
Arguments Raise {A}.

Definition bind {A B : Type} (m : exc A) (k : A -> exc B) : exc B :=
  match m with
  | Ok a => k a
  | Raise => Raise
  end.

Notation "x <- m ;; k" := (bind m (fun x => k))
  (at level 61, m at next level, right associativity).

(** [try: return body  except Exception: pass] followed by [return dflt];
    a body that ends without returning yields [None]. *)
Definition try_return {A : Type} (body : exc (option A)) (dflt : A) : exc A :=
  match body with
  | Ok (Some a) => Ok a
  | Ok None => Ok dflt
  | Raise => Ok dflt
  end.

(** [try: x = m  except Exception: x = dflt] *)
Definition try_or {A : Type} (m : exc A) (dflt : A) : A :=
  match m with
  | Ok a => a
  | Raise => dflt
  end.

(** ** The host object model (NVDA), as far as the inspector reads it *)

(** Handles of host objects; [is] on host objects is equality of handles. *)
Definition node := nat.

(** Values the host hands back where the code applies [_safe]. *)
Inductive pyval : Type :=
| PyNone
| PyStr (s : string)
| PyInt (z : Z)
| PyObj (str_ : exc string).   (* any other object, with the outcome of [str] *)

Definition truthy (v : pyval) : bool :=
  match v with
  | PyNone => false
  | PyStr s => nonempty s
  | PyInt z => negb (Z.eqb z 0)
  | PyObj _ => true
  end.

(** [controlTypes.State]: the members the code names, and the others. *)
Inductive State : Type :=
| REQUIRED | COLLAPSED | EXPANDED | SELECTED | CHECKED | PRESSED
| FOCUSABLE | FOCUSED
| OtherState (code : nat).

Definition State_eqb (a b : State) : bool :=
  match a, b with
  | REQUIRED, REQUIRED | COLLAPSED, COLLAPSED | EXPANDED, EXPANDED
  | SELECTED, SELECTED | CHECKED, CHECKED | PRESSED, PRESSED
  | FOCUSABLE, FOCUSABLE | FOCUSED, FOCUSED => true
  | OtherState m, OtherState n => Nat.eqb m n
  | _, _ => false
  end.

(** [controlTypes.Role] members are told apart by their code. *)
Definition Role := nat.

Definition opt_role_eqb (a b : option Role) : bool :=
  match a, b with
  | Some x, Some y => Nat.eqb x y
  | None, None => true
  | _, _ => false
  end.

(** The raw attribute source of an object: [obj.IA2Attributes]. *)
Inductive ia2_source : Type :=
| IA2Absent                              (* [None], or no such attribute *)
| IA2Dict (d : list (string * string))   (* a [dict] *)
| IA2Str (s : string).                   (* a [str] of [key:value;...] *)

(** [obj.IAccessibleObject], read through [accValue(0)]. *)
Record IAccessible : Type := { accValue : exc pyval }.

(** [obj.treeInterceptor]. *)
Record TreeInterceptor : Type := {
  ti_isBrowseMode : exc bool;   (* isinstance(ti, browseMode.BrowseModeTreeInterceptor) *)
  ti_has_passThrough : exc bool;                 (* hasattr(ti, "passThrough") *)
  ti_has_script_quickNav_nextHeading : exc bool;
  ti_documentURL : exc pyval;
  ti_URL : exc pyval;
  ti_url : exc pyval;
  ti_documentConstantIdentifier : exc pyval;
  ti_NVDAObjectAtStart : exc (option node)
    (* ti.makeTextInfo(textInfos.POSITION_CARET).NVDAObjectAtStart *)
}.

(** A helper of [obj.appModule] looked up by name. *)
Inductive accessor : Type :=
| NoAccessor                     (* missing, or not callable *)
| AccessorLookupRaises           (* [getattr] itself raises *)
| Accessor (call : exc pyval).   (* callable, with the outcome of the call *)

Record AppModule : Type := {
  getBrowserURL : accessor;
  getCurrentURL : accessor;
  getCurrentDocumentURL : accessor;
  getDocumentURL : accessor
}.

(** What the inspector reads of one host object. *)
Record NVDAObject : Type := {
  IA2Attributes : exc ia2_source;
  name : exc pyval;
  description : exc pyval;
  value : exc pyval;
  states : exc (list State);
  role : exc (option Role);
  parent : exc (option node);
  firstChild : exc (option node);
  next : exc (option node);
  colSpan : exc pyval;
  colspan : exc pyval;
  rowSpan : exc pyval;
  rowspan : exc pyval;
  IAccessibleObject : exc (option IAccessible);
  treeInterceptor : exc (option TreeInterceptor);
  appModule : exc (option AppModule)
}.

(** The host at the moment of one inspection. *)
Record Host : Type := {
  obj : node -> NVDAObject;                (* the object store *)
  getFocusObject : exc (option node);      (* api.getFocusObject() *)
  getNavigatorObject : exc (option node);  (* api.getNavigatorObject() *)
  translate : string -> string;            (* the gettext function [_] *)
  state_str : State -> string;             (* [str(s)] of a state *)
  State_ON : option State;                 (* controlTypes.State.ON *)
  has_Role : bool;                         (* controlTypes.Role exists *)
  Role_BUTTON : option Role;
  Role_TOGGLEBUTTON : option Role
}.

(** [_safe] *)
Definition _safe (v : pyval) : string :=
  match v with
  | PyNone => EmptyString
  | PyStr s => s
  | PyInt z => str_of_Z z
  | PyObj (Ok s) => s
  | PyObj Raise => EmptyString
  end.

Definition is_http_url (v : string) : bool :=
  startswith v "http://" || startswith v "https://".

(** ** The Attribute Extractor *)

Definition describedby_aliases : list string :=
  ["aria-describedby"; "describedby"].
Definition checked_aliases : list string :=
  ["aria-checked"; "checked"; "ariachecked"].

(** The loop over [ia2.items()] of a structured source.  [ksl] is the
    Python local of that name: it is assigned only when the stripped key
    is not empty, so it is unbound ([None]) until then and keeps the value
    of an earlier entry afterwards.  Reading it unbound raises
    [NameError], which the enclosing [try] swallows: the loop ends and the
    entries stored so far stay. *)
Fixpoint ia2_dict_loop (items : list (string * string))
    (ksl : option string) (out : Dict.t) : Dict.t :=
  match items with
  | [] => out
  | (k, v) :: rest =>
      let ks := strip k in
      let ksl := if nonempty ks then Some (lower ks) else ksl in
      match ksl with
      | None => out
      | Some l =>
          let ks :=
            if str_in l describedby_aliases then "describedby"
            else if str_in l checked_aliases then "checked"
            else ks in
          ia2_dict_loop rest ksl (Dict.set out ks (strip v))
      end
  end.

(** [[p.strip() for p in ia2.split(";") if p.strip()]] *)
Definition ia2_parts (ia2 : string) : list string :=
  map strip (filter (fun p => nonempty (strip p)) (split_char ";" ia2)).

(** The loop over the parts of a string source. *)
Fixpoint ia2_str_loop (parts : list string) (out : Dict.t) : Dict.t :=
  match parts with
  | [] => out
  | p :: rest =>
      if has_char ":" p then
        let '(k, v) := split_once ":" p in
        let ks := strip k in
        let ksl := lower ks in
        let ks := if str_in ksl describedby_aliases then "describedby" else ks in
        ia2_str_loop rest (Dict.set out ks (strip v))
      else ia2_str_loop rest out
  end.

(** The first [try] block of [_ia2_attrs]. *)
Definition ia2_collect (o : NVDAObject) : Dict.t :=
  match IA2Attributes o with
  | Ok (IA2Dict d) => ia2_dict_loop d None Dict.empty
  | Ok (IA2Str s) =>
      if nonempty (strip s) then ia2_str_loop (ia2_parts s) Dict.empty
      else Dict.empty
  | Ok IA2Absent => Dict.empty
  | Raise => Dict.empty
  end.

(** [for k in list(out.keys()): if k.lower() == "formcontrolname" and
    k != "formcontrolname": out["formcontrolname"] = out.pop(k)] *)
Definition move_formcontrolname (out : Dict.t) (k : string) : Dict.t :=
  if String.eqb (lower k) "formcontrolname"
     && negb (String.eqb k "formcontrolname")
  then match Dict.get out k with
       | Some v => Dict.set (Dict.pop out k) "formcontrolname" v
       | None => out   (* not reached: [k] is a key of [out] *)
       end
  else out.

Definition normalize_formcontrolname (out : Dict.t) : Dict.t :=
  fold_left move_formcontrolname (Dict.keys out) out.

(** The link refinement of [_ia2_attrs]: an [a] without href whose value
    is an absolute HTTP(S) URL reports it as href. *)
Definition refine_link_href (out : Dict.t) : Dict.t :=
  if String.eqb (lower (strip (Dict.get_or out "tag" EmptyString))) "a" then
    let href := strip (Dict.get_or out "href" EmptyString) in
    let v := strip (Dict.get_or out "value" EmptyString) in
    if negb (nonempty href) && is_http_url v
    then Dict.pop (Dict.set out "href" v) "value"
    else out
  else out.

(** [if target not in out and source in out:
    out[target] = out.get(source, "").strip()] *)
Definition enrich_alias (out : Dict.t) (target source : string) : Dict.t :=
  if negb (Dict.mem out target) && Dict.mem out source
  then Dict.set out target (strip (Dict.get_or out source EmptyString))
  else out.

(** The value field: ARIA numeric value, then ARIA value text, then the
    object's own value.  Reading [obj.value] may raise; the outer [except]
    then skips the link refinement. *)
Definition enrich_value (o : NVDAObject) (out : Dict.t) : Dict.t :=
  if Dict.mem out "value" then refine_link_href out
  else if nonempty (strip (Dict.get_or out "aria-valuenow" EmptyString)) then
    refine_link_href
      (Dict.set out "value" (strip (Dict.get_or out "aria-valuenow" EmptyString)))
  else if nonempty (strip (Dict.get_or out "aria-valuetext" EmptyString)) then
    refine_link_href
      (Dict.set out "value" (strip (Dict.get_or out "aria-valuetext" EmptyString)))
  else
    match value o with
    | Raise => out
    | Ok v =>
        let vs := strip (_safe v) in
        refine_link_href (if nonempty vs then Dict.set out "value" vs else out)
    end.

(** The second [try] block of [_ia2_attrs]. *)
Definition ia2_enrich (o : NVDAObject) (out : Dict.t) : Dict.t :=
  let out := enrich_alias out "orientation" "aria-orientation" in
  let out := enrich_alias out "valuetext" "aria-valuetext" in
  let out := normalize_formcontrolname out in
  enrich_value o out.

Section Inspector.

Variable host : Host.

(** [_ia2_attrs] *)
Definition _ia2_attrs (o : node) : Dict.t :=
  ia2_enrich (obj host o) (ia2_collect (obj host o)).

(** [_tag] *)
Definition _tag (o : node) : string :=
  lower (strip (Dict.get_or (_ia2_attrs o) "tag" EmptyString)).

(** [_states_set], [_state_in], [_has_state_name] *)
Definition _states_set (o : node) : list State :=
  try_or (states (obj host o)) [].

Definition _state_in (o : node) (st : State) : bool :=
  match states (obj host o) with
  | Ok s => existsb (State_eqb st) s
  | Raise => false
  end.

Definition _has_state_name (o : node) (needle : string) : bool :=
  existsb (fun s => contains (lower (state_str host s)) (lower needle))
          (_states_set o).

(** [_dom_chain_with_tags]: [depth] counts the remaining iterations of
    [for _ in range(max_depth)]. *)
Fixpoint dom_chain_from (depth : nat) (cur : option node) : list node :=
  match depth, cur with
  | S d, Some c =>
      let attrs := _ia2_attrs c in
      let up := try_or (parent (obj host c)) None in
      if nonempty (Dict.get_or attrs "tag" EmptyString) then
        if String.eqb
             (lower (strip (Dict.get_or attrs "tag" EmptyString)))
             "#document"
        then [c]
        else c :: dom_chain_from d up
      else dom_chain_from d up
  | _, _ => []
  end.

Definition _dom_chain_with_tags (o : option node) (max_depth : nat)
  : list node :=
  dom_chain_from max_depth o.

(** The default [max_depth=40]. *)
Definition default_max_depth : nat := 40.

(** [_find_nearest_tag] *)
Definition _find_nearest_tag (chain : list node) (tag_name : string)
  : option node :=
  find (fun o => String.eqb (_tag o) (lower tag_name)) chain.

(** [_is_contenteditable_host] *)
Definition _is_contenteditable_host (o : node) : bool :=
  let a := _ia2_attrs o in
  if str_in (lower (Dict.get_or a "contenteditable" EmptyString)) ["true"; "1"]
  then true
  else if Dict.mem a "multiline" || Dict.mem a "tabindex"
          || String.eqb (Dict.get_or a "id" EmptyString) "prompt-textarea"
  then str_in (_tag o) ["div"; "textarea"; "section"]
  else false.

(** The host role test of [_prefer_interactive_container]:
    [Role and getattr(cur, "role", None) == getattr(Role, "BUTTON", None)],
    inside its own [try]. *)
Definition role_is_button (c : node) : bool :=
  has_Role host &&
  match role (obj host c) with
  | Ok r => opt_role_eqb r (Role_BUTTON host)
  | Raise => false
  end.

(** The [while cur and steps < 7] loop; [Some c] when it returns [c],
    [None] when it runs out or a parent read raises (both end in
    [return obj]). *)
Fixpoint prefer_loop (steps : nat) (cur : option node) : option node :=
  match steps, cur with
  | S n, Some c =>
      let a := _ia2_attrs c in
      let t := lower (strip (Dict.get_or a "tag" EmptyString)) in
      let roleLower := lower (strip (Dict.get_or a "role" EmptyString)) in
      let xmlRoleLower := lower (strip (Dict.get_or a "xml-roles" EmptyString)) in
      let haspopup := lower (strip (Dict.get_or a "haspopup" EmptyString)) in
      let tabindex := strip (Dict.get_or a "tabindex" EmptyString) in
      let fsff := lower (strip (Dict.get_or a "fsFormField" EmptyString)) in
      if String.eqb t "button" then Some c
      else if (String.eqb roleLower "button" || String.eqb xmlRoleLower "button")
              && String.eqb tabindex "0" then Some c
      else if str_in haspopup ["menu"; "listbox"; "dialog"; "tree"; "grid"]
      then Some c
      else if String.eqb fsff "true"
              && (nonempty roleLower || nonempty xmlRoleLower) then Some c
      else if role_is_button c then Some c
      else match parent (obj host c) with
           | Ok up => prefer_loop n up
           | Raise => None
           end
  | _, _ => None
  end.

(** [_prefer_interactive_container] *)
Definition _prefer_interactive_container (o : option node) : option node :=
  match prefer_loop 7 o with
  | Some c => Some c
  | None => o
  end.

(** [_get_candidate_object] *)
Definition caret_object : exc (option node) :=
  focus <- getFocusObject host ;;
  match focus with
  | None => Ok None
  | Some f =>
      ti <- treeInterceptor (obj host f) ;;
      match ti with
      | None => Ok None
      | Some ti =>
          bm <- ti_isBrowseMode ti ;;
          if bm then Ok (try_or (ti_NVDAObjectAtStart ti) None) else Ok None
      end
  end.

Definition _get_candidate_object : option node :=
  match try_or caret_object None with
  | Some o => Some o
  | None =>
      match try_or (getNavigatorObject host) None with
      | Some nav => Some nav
      | None => try_or (getFocusObject host) None
      end
  end.

(** *** URL accessors *)

(** [_try_acc_value_url] *)
Definition _try_acc_value_url (o : node) : exc string :=
  try_return
    (ia <- IAccessibleObject (obj host o) ;;
     match ia with
     | Some ia =>
         v <- accValue ia ;;
         let v := strip (_safe v) in
         if is_http_url v then Ok (Some v) else Ok None
     | None => Ok None
     end)
    EmptyString.

(** The loop of [_try_tree_interceptor_url] over the attribute names. *)
Fixpoint first_http_value (reads : list (exc pyval)) : exc (option string) :=
  match reads with
  | [] => Ok None
  | r :: rest =>
      v <- r ;;
      let v := strip (_safe v) in
      if is_http_url v then Ok (Some v) else first_http_value rest
  end.

(** [_try_tree_interceptor_url] *)
Definition _try_tree_interceptor_url (o : node) : exc string :=
  try_return
    (ti <- treeInterceptor (obj host o) ;;
     match ti with
     | Some ti =>
         first_http_value
           [ti_documentURL ti; ti_URL ti; ti_url ti;
            ti_documentConstantIdentifier ti]
     | None => Ok None
     end)
    EmptyString.

(** The loop of [_try_appmodule_url] over the helper names. *)
Fixpoint first_http_call (fns : list accessor) : exc (option string) :=
  match fns with
  | [] => Ok None
  | fn :: rest =>
      match fn with
      | AccessorLookupRaises => Raise
      | NoAccessor => first_http_call rest
      | Accessor call =>
          v <- call ;;
          let v := strip (_safe v) in
          if is_http_url v then Ok (Some v) else first_http_call rest
      end
  end.

(** [_try_appmodule_url] *)
Definition _try_appmodule_url (o : node) : exc string :=
  try_return
    (am <- appModule (obj host o) ;;
     match am with
     | None => Ok (Some EmptyString)
     | Some am =>
         first_http_call
           [getBrowserURL am; getCurrentURL am;
            getCurrentDocumentURL am; getDocumentURL am]
     end)
    EmptyString.

(** [for getter in (...): v = getter(o); if v: return v] *)
Fixpoint first_nonempty (getters : list (node -> exc string)) (o : node)
  : exc (option string) :=
  match getters with
  | [] => Ok None
  | g :: rest =>
      v <- g o ;;
      if nonempty v then Ok (Some v) else first_nonempty rest o
  end.

Definition url_getters : list (node -> exc string) :=
  [_try_tree_interceptor_url; _try_appmodule_url; _try_acc_value_url].

(** [_document_url] *)
Definition _document_url (base_obj : node) (chain : list node) : exc string :=
  from_doc <-
    match _find_nearest_tag chain "#document" with
    | Some doc =>
        let href := strip (Dict.get_or (_ia2_attrs doc) "href" EmptyString) in
        if nonempty href then Ok (Some href)
        else v <- _try_acc_value_url doc ;;
             if nonempty v then Ok (Some v) else Ok None
    | None => Ok None
    end ;;
  match from_doc with
  | Some u => Ok u
  | None =>
      from_base <- first_nonempty url_getters base_obj ;;
      match from_base with
      | Some u => Ok u
      | None =>
          match try_or (getFocusObject host) None with
          | Some focus =>
              from_focus <- first_nonempty url_getters focus ;;
              match from_focus with
              | Some u => Ok u
              | None => Ok EmptyString
              end
          | None => Ok EmptyString
          end
      end
  end.

(** [_effective_href] *)
Definition _effective_href (o : node) (chain : list node) (base_obj : node)
  : exc string :=
  let t := _tag o in
  let href := strip (Dict.get_or (_ia2_attrs o) "href" EmptyString) in
  if String.eqb t "#document" then
    if nonempty href then Ok href else _document_url base_obj chain
  else if nonempty href then Ok href
  else if String.eqb t "a" then _try_acc_value_url o
  else if str_in t ["img"; "svg"] then
    match _find_nearest_tag chain "a" with
    | Some link =>
        let href2 := strip (Dict.get_or (_ia2_attrs link) "href" EmptyString) in
        if nonempty href2 then Ok href2 else _try_acc_value_url link
    | None => Ok EmptyString
    end
  else Ok EmptyString.

(** ** The Canonicalizer: [_promote_canonical] *)
Definition _promote_canonical (o : option node) (chain : list node)
  : option node * option node :=
  match o, chain with
  | Some n, _ :: _ =>
      let cur_tag := _tag n in
      match (if str_in cur_tag ["img"; "svg"]
             then _find_nearest_tag chain "a" else None) with
      | Some link => (Some link, Some n)
      | None =>
          match (if str_in cur_tag ["p"; "span"; "br"]
                 then find _is_contenteditable_host chain else None) with
          | Some h => (_prefer_interactive_container (Some h), Some n)
          | None => (_prefer_interactive_container o, None)
          end
      end
  | _, _ => (_prefer_interactive_container o, None)
  end.

(** ** The Report Formatter: key order *)

Definition preferred : list string :=
  ["tag"; "id"; "class";
   "role"; "xml-roles";
   "orientation";
   "MSAA Role";
   "IA2 Role";
   "href"; "src";
   "type"; "text-input-type";
   "name"; "html-input-name";
   "accessible-name"; "accessible-name-from";
   "formcontrolname";
   "value"; "valuetext";
   "required"; "multiline";
   "contenteditable"; "tabindex";
   "maxlength"; "autocomplete";
   "haspopup"; "expanded";
   "selected";
   "checkable"; "checked";
   "pressed";
   "label"; "title";
   "describedby"; "description";
   "description-from"; "labelledby";
   "name-from"; "explicit-name"; "explicit-name-from";
   "level"; "posinset"; "setsize";
   "colspan"; "rowspan"; "table-cell-index";
   "readonly"; "fsFormField";
   "display"; "layout-guess"; "text-align"; "text-model"].

(** The sort key [lambda s: s.lower()] and its order on [str]. *)
Definition key_le (a b : string) : bool := String.leb (lower a) (lower b).

(** [sorted(l, key=...)] is stable: of two entries with equal keys the
    one met first stays first. *)
Fixpoint insert_by_key (x : string) (l : list string) : list string :=
  match l with
  | [] => [x]
  | y :: r => if key_le x y then x :: l else y :: insert_by_key x r
  end.

Fixpoint sorted_by_key (l : list string) : list string :=
  match l with
  | [] => []
  | x :: r => insert_by_key x (sorted_by_key r)
  end.

(** [if k not in seen: keys.append(k); seen.add(k)]: [seen] holds
    exactly the members of [keys]. *)
Definition add_unseen (keys : list string) (k : string) : list string :=
  if str_in k keys then keys else keys ++ [k].

(** [_ordered_params] *)
Definition _ordered_params (tag_name : string) (attrs : Dict.t)
  : list string :=
  let keys :=
    fold_left (fun keys k => if Dict.mem attrs k then add_unseen keys k else keys)
              preferred [] in
  fold_left add_unseen (sorted_by_key (Dict.keys attrs)) keys.

(** [_format_tag_block]: the entries of [out_lines], then their join. *)
Definition block_pairs (tag_name : string) (attrs : Dict.t)
  : list (string * string) :=
  flat_map
    (fun k =>
       let v := strip (Dict.get_or attrs k EmptyString) in
       if nonempty v then [(k, v)] else [])
    (_ordered_params tag_name attrs).

Definition block_header (tag_name : string) (n : nat) : string :=
  ("Tag " ++ upper tag_name ++ " has " ++ str_of_nat n ++ " parameters:")%string.

Definition pair_line (kv : string * string) : string :=
  (fst kv ++ "=" ++ snd kv)%string.

Definition block_lines (tag_name : string) (attrs : Dict.t) : list string :=
  let pairs := block_pairs tag_name attrs in
  [EmptyString; block_header tag_name (List.length pairs)]
    ++ map pair_line pairs ++ [EmptyString].

Definition _format_tag_block (tag_name : string) (attrs : Dict.t) : string :=
  join newline (block_lines tag_name attrs).

(** ** The Inference Engine *)

(** [a or b] on strings *)
Definition or_else (a b : string) : string := if nonempty a then a else b.

Definition interactive_tags : list string :=
  ["input"; "textarea"; "select"; "button"].
Definition interactive_roles : list string :=
  ["button"; "checkbox"; "radio"; "combobox"; "listbox"; "textbox";
   "searchbox"; "slider"; "spinbutton"; "menuitem"; "option"; "switch";
   "tab"; "treeitem"].

(** [_safe(getattr(obj, "name", "")).strip()] inside [try] *)
Definition name_of (o : node) : string :=
  try_or (v <- name (obj host o) ;; Ok (strip (_safe v))) EmptyString.
Definition description_of (o : node) : string :=
  try_or (v <- description (obj host o) ;; Ok (strip (_safe v))) EmptyString.

(** The steps of [_infer_form_attrs], in source order. *)
Definition form_checked (out : Dict.t) : Dict.t :=
  if Dict.mem out "checked" then
    let v := lower (strip (Dict.get_or out "checked" EmptyString)) in
    if str_in v ["1"; "true"; "yes"; "on"; "mixed"] then Dict.set out "checked" "true"
    else if str_in v ["0"; "false"; "no"; "off"] then Dict.set out "checked" "false"
    else out
  else out.

Definition form_tooltip (out : Dict.t) : Dict.t :=
  let src := lower (strip (Dict.get_or out "description-from" EmptyString)) in
  if String.eqb src "tooltip" && Dict.mem out "label"
     && negb (Dict.mem out "title")
  then Dict.set (Dict.pop out "label") "title"
         (Dict.get_or out "label" EmptyString)
  else out.

Definition form_field (t : string) (out : Dict.t) : Dict.t :=
  let out :=
    if str_in t ["#document"; "body"; "html"] then Dict.pop out "fsFormField"
    else out in
  if Dict.mem out "fsFormField" then out
  else
    let xmlr := lower (Dict.get_or out "xml-roles" EmptyString) in
    let r := lower (Dict.get_or out "role" EmptyString) in
    if str_in t interactive_tags || str_in r interactive_roles
       || str_in xmlr interactive_roles
    then Dict.set out "fsFormField" "true"
    else out.

Definition form_type (t : string) (out : Dict.t) : Dict.t :=
  if str_in t ["input"; "textarea"] && negb (Dict.mem out "type")
     && nonempty (Dict.get_or out "text-input-type" EmptyString)
  then Dict.set out "type" (Dict.get_or out "text-input-type" EmptyString)
  else out.

Definition form_name (t : string) (out : Dict.t) : Dict.t :=
  if str_in t ["input"; "textarea"; "select"] && negb (Dict.mem out "name")
  then
    let hin := strip (Dict.get_or out "html-input-name" EmptyString) in
    if nonempty hin then Dict.set out "name" hin else out
  else out.

Definition form_multiline (t : string) (out : Dict.t) : Dict.t :=
  if Dict.mem out "multiline" then out
  else if String.eqb t "textarea" then Dict.set out "multiline" "true"
  else if String.eqb t "input" then Dict.set out "multiline" "false"
  else out.

Definition form_required (o : node) (out : Dict.t) : Dict.t :=
  if Dict.mem out "required" then out
  else if _state_in o REQUIRED || _has_state_name o "required"
  then Dict.set out "required" "true"
  else out.

Definition form_label (o : node) (out : Dict.t) : Dict.t :=
  if Dict.mem out "label" then out
  else
    let nm := name_of o in
    if nonempty nm
       && String.eqb (lower (Dict.get_or out "name-from" EmptyString)) "attribute"
    then Dict.set out "label" nm
    else
      let desc := description_of o in
      if nonempty desc then
        let df := lower (Dict.get_or out "description-from" EmptyString) in
        if String.eqb df "aria-describedby" then Dict.set out "description" desc
        else if String.eqb df "tooltip" then Dict.set out "title" desc
        else Dict.set out "label" desc
      else out.

(** [_infer_form_attrs] *)
Definition _infer_form_attrs (o : node) (attrs : Dict.t) : Dict.t :=
  let out := form_tooltip (form_checked attrs) in
  let t := lower (or_else (Dict.get_or out "tag" EmptyString) (_tag o)) in
  form_label o
    (form_required o
       (form_multiline t (form_name t (form_type t (form_field t out))))).

(** [_iter_children]: the inner loop [while child and steps < 50] that
    queues a node's children. *)
Fixpoint sibling_run (steps : nat) (child : option node) : list node :=
  match steps, child with
  | S n, Some c => c :: sibling_run n (try_or (next (obj host c)) None)
  | _, _ => []
  end.

(** The outer loop [while queue and yielded < max_nodes] and the nodes
    it yields.  [seen] holds [id(cur)] of the nodes met.  Each pass
    takes one node off the queue and adds at most fifty, and only when
    it yields; [fuel] bounds the passes (see [iter_children_fuel]). *)
Fixpoint iter_children_loop (fuel : nat) (max_nodes : nat)
    (queue seen : list node) (yielded : nat) : list node :=
  match fuel, queue with
  | S f, cur :: queue =>
      if Nat.ltb yielded max_nodes then
        if existsb (Nat.eqb cur) seen
        then iter_children_loop f max_nodes queue seen yielded
        else
          cur :: iter_children_loop f max_nodes
                   (queue ++ sibling_run 50
                               (try_or (firstChild (obj host cur)) None))
                   (cur :: seen) (S yielded)
      else []
  | _, _ => []
  end.

Definition iter_children_fuel (max_nodes : nat) : nat := 1 + 51 * max_nodes.

Definition _iter_children (root : option node) (max_nodes : nat) : list node :=
  match root with
  | None => []
  | Some r =>
      iter_children_loop (iter_children_fuel max_nodes) max_nodes [r] [] 0
  end.

(** [_infer_expanded_for_combobox] *)
Definition combobox_search_start (o : node) (chain : list node) : node :=
  match find (fun c =>
                String.eqb (_tag c) "div"
                && contains (lower (Dict.get_or (_ia2_attrs c) "class" EmptyString))
                            "a8sbwf") chain with
  | Some s => s
  | None =>
      match find (fun c => String.eqb (_tag c) "div") chain with
      | Some s => s
      | None => o
      end
  end.

Definition exposes_listbox (n : node) : bool :=
  let a := _ia2_attrs n in
  String.eqb (lower (Dict.get_or a "xml-roles" EmptyString)) "listbox"
  || String.eqb (lower (Dict.get_or a "role" EmptyString)) "listbox".

Definition _infer_expanded_for_combobox (o : node) (chain : list node)
    (attrs : Dict.t) : Dict.t :=
  let out := attrs in
  let xml_roles := lower (Dict.get_or out "xml-roles" EmptyString) in
  let role_ := lower (Dict.get_or out "role" EmptyString) in
  let haspopup := lower (Dict.get_or out "haspopup" EmptyString) in
  let is_combo := contains xml_roles "combobox" || String.eqb role_ "combobox"
                  || String.eqb haspopup "listbox" in
  if negb is_combo then out
  else if Dict.mem out "expanded" then out
  else if existsb (fun c =>
                     let cls := lower (Dict.get_or (_ia2_attrs c) "class" EmptyString) in
                     contains cls "a8sbwf" && contains cls "emcav") chain
  then Dict.set out "expanded" "true"
  else
    let start := combobox_search_start o chain in
    let found_listbox := existsb exposes_listbox (_iter_children (Some start) 260) in
    Dict.set out "expanded" (if found_listbox then "true" else "false").

(** [_is_control_tag] *)
Definition _is_control_tag (tagLower : string) : bool :=
  if negb (nonempty tagLower) then false
  else str_in tagLower
         ["input"; "textarea"; "select"; "button"; "option"; "meter"; "progress"].

(** *** The steps of [_augment_attrs_for_readability], in source order *)

Definition aug_tag (o : node) (out : Dict.t) : Dict.t :=
  let t := _tag o in
  if nonempty t && negb (Dict.mem out "tag") then Dict.set out "tag" t else out.

Definition aug_accessible_name (o : node) (out : Dict.t) : Dict.t :=
  if Dict.mem out "accessible-name" then out
  else Dict.set out "accessible-name" (name_of o).

(** [ia2n = getattr(obj, "IA2Attributes", None) or {}] followed by
    [ia2n.get(...)]: a non-empty [str] has no [get], and that
    [AttributeError] is raised outside any [try]. *)
Definition raw_ia2n (o : node) : exc Dict.t :=
  match IA2Attributes (obj host o) with
  | Ok (IA2Dict d) => Ok d
  | Ok (IA2Str s) => if nonempty s then Raise else Ok Dict.empty
  | Ok IA2Absent => Ok Dict.empty
  | Raise => Ok Dict.empty
  end.

(** [ia2n.get(k) or out.get(k) or ""] *)
Definition either_get (ia2n out : Dict.t) (k : string) : string :=
  or_else (Dict.get_or ia2n k EmptyString) (Dict.get_or out k EmptyString).

Definition computed_from (ia2n out : Dict.t) : string :=
  let computedFrom := strip (either_get ia2n out "name-from") in
  if String.eqb computedFrom "related-element" then
    if nonempty (either_get ia2n out "labelledby")
       || nonempty (either_get ia2n out "aria-labelledby")
    then "aria-labelledby" else computedFrom
  else if String.eqb computedFrom "attribute" then
    if nonempty (either_get ia2n out "aria-label")
       || nonempty (either_get ia2n out "aria_label")
    then "aria-label" else "attribute"
  else if str_in computedFrom ["contents"; "content"] then "content"
  else if str_in computedFrom ["label"; "label-for"; "labelfor"] then "label"
  else computedFrom.

Definition aug_name_from (computedFrom : string) (out : Dict.t) : Dict.t :=
  let existingFrom := Dict.get_or out "accessible-name-from" EmptyString in
  if nonempty computedFrom
     && (negb (nonempty existingFrom)
         || (String.eqb existingFrom "attribute"
             && startswith computedFrom "aria-"))
  then Dict.set out "accessible-name-from" computedFrom
  else out.

Definition aug_explicit_name (computedFrom : string) (out : Dict.t) : Dict.t :=
  let exp := lower (strip (Dict.get_or out "explicit-name" EmptyString)) in
  if str_in exp ["true"; "1"; "yes"; "on"]
     && (negb (Dict.mem out "explicit-name-from")
         || negb (nonempty (strip (Dict.get_or out "explicit-name-from" EmptyString))))
  then Dict.set out "explicit-name-from" computedFrom
  else out.

Definition aug_expanded (o : node) (out : Dict.t) : Dict.t :=
  if _state_in o COLLAPSED || _has_state_name o "collapsed"
  then Dict.set out "expanded" "false"
  else if _state_in o EXPANDED || _has_state_name o "expanded"
  then Dict.set out "expanded" "true"
  else out.

Definition aug_selected (o : node) (out : Dict.t) : Dict.t :=
  if Dict.mem out "selected" then out
  else if _state_in o SELECTED || _has_state_name o "selected"
  then Dict.set out "selected" "true"
  else
    let roleLower := lower (Dict.get_or out "role" EmptyString) in
    let xmlRoleLower := lower (Dict.get_or out "xml-roles" EmptyString) in
    if str_in roleLower ["tab"; "option"; "treeitem"]
       || str_in xmlRoleLower ["tab"; "option"; "treeitem"]
    then Dict.set out "selected" "false"
    else out.

(** The value of [stChecked] when "checkable" is present and "checked"
    is not. *)
Definition checked_signal (o : node) (out : Dict.t) : bool :=
  let roleLower := lower (Dict.get_or out "role" EmptyString) in
  let xmlRoleLower := lower (Dict.get_or out "xml-roles" EmptyString) in
  let is_switch := String.eqb roleLower "switch" || String.eqb xmlRoleLower "switch" in
  let stChecked :=
    if is_switch then
      let by_name :=
        if _has_state_name o "on" then true
        else if _has_state_name o "off" then false
        else false in
      if by_name then true
      else match State_ON host with
           | Some stOn => _state_in o stOn
           | None => false
           end
    else false in
  let stChecked :=
    if stChecked then true
    else _state_in o CHECKED || _has_state_name o "checked" in
  if negb stChecked && is_switch
  then _state_in o PRESSED || _has_state_name o "pressed"
  else stChecked.

Definition aug_checked (o : node) (out : Dict.t) : Dict.t :=
  if Dict.mem out "checkable" && negb (Dict.mem out "checked")
  then Dict.set out "checked" (if checked_signal o out then "true" else "false")
  else out.

(** [pressedFromAria]: [None], [False] or [True]. *)
Definition pressed_from_aria (out : Dict.t) : option bool :=
  let ap := lower (strip (Dict.get_or out "aria-pressed" EmptyString)) in
  if nonempty ap then
    if str_in ap ["0"; "false"; "no"] then Some false
    else if str_in ap ["1"; "true"; "yes"] then Some true
    else None
  else None.

Definition bool_str (b : bool) : string := if b then "true" else "false".

(** The hint is taken out of the report whenever it is not blank. *)
Definition aug_pop_aria_pressed (out : Dict.t) : Dict.t :=
  if nonempty (lower (strip (Dict.get_or out "aria-pressed" EmptyString)))
  then Dict.pop out "aria-pressed" else out.

Definition is_toggle (o : node) (out : Dict.t) : bool :=
  let roleLower := lower (Dict.get_or out "role" EmptyString) in
  let xmlRoleLower := lower (Dict.get_or out "xml-roles" EmptyString) in
  let by_attr := String.eqb roleLower "togglebutton"
                 || String.eqb xmlRoleLower "togglebutton" in
  if by_attr then true
  else if has_Role host then
    match Role_TOGGLEBUTTON host with
    | Some tb =>
        match role (obj host o) with
        | Ok r => opt_role_eqb r (Some tb)
        | Raise => false
        end
    | None => false
    end
  else false.

Definition aug_pressed_toggle (o : node) (pressedFromAria : option bool)
    (out : Dict.t) : Dict.t :=
  if Dict.mem out "pressed" then out
  else
    let tagLower := lower (Dict.get_or out "tag" EmptyString) in
    if is_toggle o out
       && (str_in tagLower ["button"; "a"; "div"; "span"]
           || String.eqb tagLower EmptyString)
    then
      if _state_in o PRESSED || _state_in o CHECKED
         || _has_state_name o "pressed" || _has_state_name o "checked"
      then Dict.set out "pressed" "true"
      else match pressedFromAria with
           | Some b => Dict.set out "pressed" (bool_str b)
           | None => Dict.set out "pressed" "false"
           end
    else out.

Definition aug_pressed_tab (out : Dict.t) : Dict.t :=
  if Dict.mem out "pressed" then out
  else
    let roleLower := lower (Dict.get_or out "role" EmptyString) in
    let xmlRoleLower := lower (Dict.get_or out "xml-roles" EmptyString) in
    if (String.eqb roleLower "tab" || String.eqb xmlRoleLower "tab")
       && match Dict.get out "selected" with
          | Some v => String.eqb v "true"
          | None => false
          end
    then Dict.set out "pressed" "true"
    else out.

Definition aug_pressed_keep_aria (pressedFromAria : option bool)
    (out : Dict.t) : Dict.t :=
  if Dict.mem out "pressed" then out
  else match pressedFromAria with
       | Some b => Dict.set out "pressed" (bool_str b)
       | None => out
       end.

Definition aug_pressed_normalize (out : Dict.t) : Dict.t :=
  if Dict.mem out "pressed" then
    let pv := lower (strip (Dict.get_or out "pressed" EmptyString)) in
    if str_in pv ["0"; "false"; "no"] then Dict.set out "pressed" "false"
    else if str_in pv ["1"; "true"; "yes"] then Dict.set out "pressed" "true"
    else out
  else out.

Definition aug_pressed (o : node) (out : Dict.t) : Dict.t :=
  let pressedFromAria := pressed_from_aria out in
  aug_pressed_normalize
    (aug_pressed_keep_aria pressedFromAria
       (aug_pressed_tab
          (aug_pressed_toggle o pressedFromAria (aug_pop_aria_pressed out)))).

(** [getattr(obj, "colSpan", None) or getattr(obj, "colspan", None)],
    then [_safe(v) if v else "1"], all inside one [try]. *)
Definition span_text (a b : exc pyval) : string :=
  try_or
    (va <- a ;;
     if truthy va then Ok (_safe va)
     else vb <- b ;; Ok (if truthy vb then _safe vb else "1"))
    "1".

Definition aug_table_cell (o : node) (out : Dict.t) : Dict.t :=
  if str_in (_tag o) ["td"; "th"] then
    let out :=
      if Dict.mem out "colspan" then out
      else Dict.set out "colspan"
             (span_text (colSpan (obj host o)) (colspan (obj host o))) in
    if Dict.mem out "rowspan" then out
    else Dict.set out "rowspan"
           (span_text (rowSpan (obj host o)) (rowspan (obj host o)))
  else out.

Definition aug_layout_guess (o : node) (out : Dict.t) : Dict.t :=
  if String.eqb (_tag o) "table" && negb (Dict.mem out "layout-guess")
  then Dict.set out "layout-guess" "false"
  else out.

Definition aug_tabindex (o : node) (out : Dict.t) : Dict.t :=
  if Dict.mem out "tabindex" then out
  else
    let tagLower :=
      lower (or_else (Dict.get_or out "tag" EmptyString) (_tag o)) in
    if str_in tagLower ["#document"; "body"; "html"] then out
    else
      let roleLower := lower (Dict.get_or out "role" EmptyString) in
      let xmlRoleLower := lower (Dict.get_or out "xml-roles" EmptyString) in
      if String.eqb roleLower "tab" || String.eqb xmlRoleLower "tab" then
        let is_focusable := _state_in o FOCUSABLE || _has_state_name o "focusable" in
        let is_focused := _state_in o FOCUSED || _has_state_name o "focused" in
        if is_focusable || is_focused then Dict.set out "tabindex" "0" else out
      else out.

Definition aug_strip_msaa_role (out : Dict.t) : Dict.t :=
  let _tL := lower (strip (Dict.get_or out "tag" EmptyString)) in
  if Dict.mem out "MSAA Role" && negb (_is_control_tag _tL)
  then Dict.pop out "MSAA Role" else out.

Definition aug_strip_readonly (out : Dict.t) : Dict.t :=
  if String.eqb (lower (strip (Dict.get_or out "tag" EmptyString))) "#document"
  then Dict.pop out "readonly" else out.

Definition aug_describedby_text (out : Dict.t) : Dict.t :=
  let df := lower (strip (Dict.get_or out "description-from" EmptyString)) in
  let desc := strip (Dict.get_or out "description" EmptyString) in
  if String.eqb df "aria-describedby" && nonempty desc
     && negb (Dict.mem out "describedby-text")
  then Dict.set out "describedby-text" desc
  else out.

(** The statements of [_augment_attrs_for_readability] up to the call
    of [_infer_form_attrs]. *)
Definition augment_states (o : node) (ia2n : Dict.t) (attrs : Dict.t) : Dict.t :=
  let out := aug_accessible_name o (aug_tag o attrs) in
  let computedFrom := computed_from ia2n out in
  let out := aug_explicit_name computedFrom (aug_name_from computedFrom out) in
  aug_tabindex o
    (aug_layout_guess o
       (aug_table_cell o
          (aug_pressed o (aug_checked o (aug_selected o (aug_expanded o out)))))).

(** The statements after it. *)
Definition augment_finish (o : node) (chain : list node) (out : Dict.t) : Dict.t :=
  aug_describedby_text
    (aug_strip_readonly
       (aug_strip_msaa_role
          (_infer_expanded_for_combobox o chain (_infer_form_attrs o out)))).

(** [_augment_attrs_for_readability] (with [DEBUG_MODE = False]) *)
Definition _augment_attrs_for_readability (o : node) (chain : list node)
    (attrs : Dict.t) (base_obj : node) : exc Dict.t :=
  ia2n <- raw_ia2n o ;;
  Ok (augment_finish o chain (augment_states o ia2n attrs)).

(** ** The web-context gate: [_is_web_context] *)

Definition _is_browse_mode_obj (o : node) : bool :=
  match try_or (treeInterceptor (obj host o)) None with
  | None => false
  | Some ti =>
      if try_or (ti_isBrowseMode ti) false then true
      else try_or (p <- ti_has_passThrough ti ;;
                   if p then ti_has_script_quickNav_nextHeading ti else Ok false)
                  false
  end.

(** [for o in chain: if _tag(o) == "#document": return True] *)
Definition chain_has_document (chain : list node) : bool :=
  existsb (fun o => String.eqb (_tag o) "#document") chain.

(** The tag chain and document URL tests of one object. *)
Definition document_reachable (o : node) : bool :=
  let chain := _dom_chain_with_tags (Some o) default_max_depth in
  chain_has_document chain
  || nonempty (try_or (_document_url o chain) EmptyString).

Definition _is_web_context (base_obj : option node) : bool :=
  match base_obj with
  | None => false
  | Some base =>
      if _is_browse_mode_obj base then true
      else
        let focus := try_or (getFocusObject host) None in
        let other_focus :=
          match focus with
          | Some f => if Nat.eqb f base then None else Some f
          | None => None
          end in
        if match other_focus with
           | Some f => _is_browse_mode_obj f
           | None => false
           end
        then true
        else if document_reachable base then true
        else match other_focus with
             | Some f => document_reachable f
             | None => false
             end
  end.

(** ** The report: [_build_report] *)

Definition msg_no_element : string := "No element found.".
Definition msg_not_applicable : string :=
  "HTML Element Inspector works only when Browse Mode (virtual buffer) is available.".

(** [len(base_chain) == 1 and _tag(base_chain[0]) == "#document"] *)
Definition only_document (chain : list node) : bool :=
  match chain with
  | [d] => String.eqb (_tag d) "#document"
  | _ => false
  end.

(** [if alt and alt is not base: ... if len(alt_chain) > len(base_chain):
    base = alt; base_chain = alt_chain] *)
Definition retarget (alt : option node) (cur : node * list node)
  : node * list node :=
  match alt with
  | Some a =>
      if Nat.eqb a (fst cur) then cur
      else
        let alt_chain := _dom_chain_with_tags (Some a) default_max_depth in
        if Nat.ltb (List.length (snd cur)) (List.length alt_chain)
        then (a, alt_chain) else cur
  | None => cur
  end.

Definition report_start (base : node) : node * list node :=
  let cur := (base, _dom_chain_with_tags (Some base) default_max_depth) in
  if only_document (snd cur) then
    let cur := retarget (try_or (getNavigatorObject host) None) cur in
    if only_document (snd cur)
    then retarget (try_or (getFocusObject host) None) cur
    else cur
  else cur.

(** The attributes and the block of one reported object. *)
Definition node_attrs (n base : node) : exc Dict.t :=
  _augment_attrs_for_readability n
    (_dom_chain_with_tags (Some n) default_max_depth) (_ia2_attrs n) base.

Definition node_tag (n : node) (attrs : Dict.t) : string :=
  or_else (match Dict.get attrs "tag" with
           | Some v => v
           | None => _tag n
           end) "unknown".

Definition node_block (n base : node) : exc string :=
  attrs <- node_attrs n base ;;
  Ok (rstrip (_format_tag_block (node_tag n attrs) attrs)).

Fixpoint map_exc {A B : Type} (f : A -> exc B) (l : list A) : exc (list B) :=
  match l with
  | [] => Ok []
  | x :: r => y <- f x ;; ys <- map_exc f r ;; Ok (y :: ys)
  end.

(** The entries of [lines], in order. *)
Definition report_lines (advanced : bool) (base : node) : exc (list string) :=
  let '(base, base_chain) := report_start base in
  let '(canonical, promoted_from) := _promote_canonical (Some base) base_chain in
  (* [_promote_canonical] of an object is an object *)
  let canonical := match canonical with Some c => c | None => base end in
  let canonical_chain := _dom_chain_with_tags (Some canonical) default_max_depth in
  c_block <- node_block canonical base ;;
  nested <-
    match promoted_from with
    | Some p =>
        if Nat.eqb p canonical then Ok []
        else p_block <- node_block p base ;; Ok ["Nested element:"; p_block]
    | None => Ok []
    end ;;
  ancestors <- map_exc (fun a => node_block a base) (tl canonical_chain) ;;
  Ok ((if advanced then "Advanced Element Information:"
       else "Element Information:")
        :: c_block :: nested ++ ancestors).

(** The heading markup of the advanced report (the part of
    [_build_report] after [if not advanced: return report, True]) is a
    rendering of the plain report and of the subtree under the canonical
    element; it is kept abstract here. *)
Variable render_advanced : node -> string -> string.

Definition _build_report (advanced : bool) : exc (string * bool) :=
  match _get_candidate_object with
  | None => Ok (translate host msg_no_element, false)
  | Some base =>
      if negb (_is_web_context (Some base))
      then Ok (translate host msg_not_applicable, false)
      else
        lines <- report_lines advanced base ;;
        let report := (strip (join newline lines) ++ newline)%string in
        if negb advanced then Ok (report, true)
        else Ok (render_advanced base report, true)
  end.

End Inspector.

(** ** Sample hosts

    Small object stores on which the statements below are evaluated. *)

(** An object that exposes nothing. *)
Definition blank_object : NVDAObject :=
  {| IA2Attributes := Ok IA2Absent;
     name := Ok PyNone;
     description := Ok PyNone;
     value := Ok PyNone;
     states := Ok [];
     role := Ok None;
     parent := Ok None;
     firstChild := Ok None;
     next := Ok None;
     colSpan := Ok PyNone;
     colspan := Ok PyNone;
     rowSpan := Ok PyNone;
     rowspan := Ok PyNone;
     IAccessibleObject := Ok None;
     treeInterceptor := Ok None;
     appModule := Ok None |}.

(** An element with a raw attribute source, a set of states and a parent. *)
Definition element (src : ia2_source) (sts : list State) (up : option node)
  : NVDAObject :=
  {| IA2Attributes := Ok src;
     name := Ok PyNone;
     description := Ok PyNone;
     value := Ok PyNone;
     states := Ok sts;
     role := Ok None;
     parent := Ok up;
     firstChild := Ok None;
     next := Ok None;
     colSpan := Ok PyNone;
     colspan := Ok PyNone;
     rowSpan := Ok PyNone;
     rowspan := Ok PyNone;
     IAccessibleObject := Ok None;
     treeInterceptor := Ok None;
     appModule := Ok None |}.

(** The display name of a state, as [str] gives it. *)
Definition sample_state_str (s : State) : string :=
  match s with
  | REQUIRED => "required" | COLLAPSED => "collapsed" | EXPANDED => "expanded"
  | SELECTED => "selected" | CHECKED => "checked" | PRESSED => "pressed"
  | FOCUSABLE => "focusable" | FOCUSED => "focused"
  | OtherState 1 => "on"
  | OtherState 2 => "off"
  | OtherState _ => "other"
  end.

(** A host over the objects [objs] (handle [n] is the [n]-th of them),
    the navigator on [nav], no focus object. *)
Definition sample_host (objs : list NVDAObject) (nav : option node) : Host :=
  {| obj := fun n => nth n objs blank_object;
     getFocusObject := Ok None;
     getNavigatorObject := Ok nav;
     translate := fun s => s;
     state_str := sample_state_str;
     State_ON := Some (OtherState 1);
     has_Role := true;
     Role_BUTTON := Some 9;
     Role_TOGGLEBUTTON := Some 10 |}.

(** A button that exposes expanded=true while its state set says it is
    collapsed. *)
Definition collapsed_button_host : Host :=
  sample_host
    [element (IA2Dict [("tag", "button"); ("id", "menu"); ("expanded", "true")])
             [COLLAPSED] None]
    (Some 0).

(** A span with role link that exposes aria-pressed=true. *)
Definition pressed_link_host : Host :=
  sample_host
    [element (IA2Dict [("tag", "span"); ("role", "link"); ("aria-pressed", "true")])
             [] None]
    (Some 0).

(** A switch that is on, with a structured attribute source, and the same
    switch with its attributes given as a string. *)
Definition switch_on_host : Host :=
  sample_host
    [element (IA2Dict [("tag", "div"); ("xml-roles", "switch"); ("checkable", "true")])
             [OtherState 1] None]
    (Some 0).

Definition switch_off_host : Host :=
  sample_host
    [element (IA2Dict [("tag", "div"); ("xml-roles", "switch"); ("checkable", "true")])
             [OtherState 2] None]
    (Some 0).

Definition switch_on_string_host : Host :=
  sample_host
    [element (IA2Str "tag:div;xml-roles:switch;checkable:true")
             [OtherState 1] None]
    (Some 0).

(** An image directly under a link, under the document. *)
Definition image_link_host : Host :=
  sample_host
    [element (IA2Dict [("tag", "img"); ("src", "logo.png")]) [] (Some 1);
     element (IA2Dict [("tag", "a"); ("href", "https://example.com/")]) [] (Some 2);
     element (IA2Dict [("tag", "#document")]) [] None]
    (Some 0).

(** An image under a link that is itself under the link to
    https://example.com/. *)
Definition nested_anchor_host : Host :=
  sample_host
    [element (IA2Dict [("tag", "img"); ("src", "logo.png")]) [] (Some 1);
     element (IA2Dict [("tag", "a"); ("href", "https://other.example/")]) [] (Some 2);
     element (IA2Dict [("tag", "a"); ("href", "https://example.com/")]) [] (Some 3);
     element (IA2Dict [("tag", "#document")]) [] None]
    (Some 0).

(** A checkbox whose attributes come as a string, and the same
    attributes as a structured mapping. *)
Definition checked_string_host : Host :=
  sample_host [element (IA2Str "aria-checked:true") [] None] (Some 0).

Definition checked_dict_host : Host :=
  sample_host [element (IA2Dict [("aria-checked", "true")]) [] None] (Some 0).

(** Structured sources with a blank key. *)
Definition blank_key_first_host : Host :=
  sample_host
    [element (IA2Dict [(" ", "x"); ("aria-describedby", "hint")]) [] None]
    (Some 0).

Definition blank_key_after_alias_host : Host :=
  sample_host
    [element (IA2Dict [("aria-describedby", "hint"); (" ", "x")]) [] None]
    (Some 0).

(** A text input that exposes its input type only. *)
Definition text_input_host : Host :=
  sample_host
    [element (IA2Dict [("tag", "input"); ("text-input-type", "text")]) [] None]
    (Some 0).

(** ** Predicates used in the statements *)

(** Every value of the mapping is its own [strip]. *)
Definition stripped_values (d : Dict.t) : Prop :=
  Forall (fun kv => strip (snd kv) = snd kv) d.

(** The three web signals of one object are all missing: no browse-mode
    tree interceptor, no [#document] in its tag chain, no document URL. *)
Definition no_web_signal (host : Host) (o : node) : Prop :=
  _is_browse_mode_obj host o = false
  /\ chain_has_document host
       (_dom_chain_with_tags host (Some o) (default_max_depth)) = false
  /\ try_or (_document_url host o
               (_dom_chain_with_tags host (Some o) (default_max_depth)))
            EmptyString = EmptyString.

(** Neither the candidate nor the focus object gives a web signal. *)
Definition no_web_context (host : Host) (base : node) : Prop :=
  no_web_signal host base
  /\ forall f, try_or (getFocusObject host) None = Some f -> no_web_signal host f.

(** What a step of the Inference Engine may do to a key: leave it as it
    is, add it when it is absent (the keys [A]), or rewrite it (the keys
    [O]). *)
Definition frame (A O : list string) (f : Dict.t -> Dict.t) : Prop :=
  forall d k,
    Dict.get (f d) k = Dict.get d k
    \/ (In k A /\ Dict.get d k = None)
    \/ In k O.

(** The keys whose existing value the Inference Engine may rewrite or
    remove: those of the documented rewrites, then the others. *)
Definition rewritten_keys : list string :=
  ["checked"; "pressed"; "label"; "title"; "aria-pressed";
   "fsFormField"; "readonly"; "MSAA Role";
   "expanded"; "accessible-name-from"; "explicit-name-from"; "description"].

(** The object carries a collapsed or an expanded state, by constant or by
    display name. *)
Definition expanded_signal (host : Host) (o : node) : bool :=
  _state_in host o COLLAPSED || _has_state_name host o "collapsed"
  || _state_in host o EXPANDED || _has_state_name host o "expanded".

(** The textual variants of checked and of pressed, normalised. *)
Definition norm_checked (v : string) : string :=
  let l := lower (strip v) in
  if str_in l ["1"; "true"; "yes"; "on"; "mixed"] then "true"
  else if str_in l ["0"; "false"; "no"; "off"] then "false"
  else v.


(** The raw attribute source of the object is not a non-empty string. *)
Definition no_string_source (host : Host) (o : node) : Prop :=
  forall s, IA2Attributes (obj host o) = Ok (IA2Str s) -> s = EmptyString.

(** The element is a tab that ends up selected: by its own "selected"
    value when it has one, by a selected state otherwise. *)
Definition selected_tab (host : Host) (o : node) (attrs : Dict.t) : bool :=
  (String.eqb (lower (Dict.get_or attrs "role" EmptyString)) "tab"
   || String.eqb (lower (Dict.get_or attrs "xml-roles" EmptyString)) "tab")
  && match Dict.get attrs "selected" with
     | Some s => String.eqb s "true"
     | None => _state_in host o SELECTED || _has_state_name host o "selected"
     end.

(** Role "switch", by the role or the structured-role attribute. *)
Definition is_switch (attrs : Dict.t) : bool :=
  String.eqb (lower (Dict.get_or attrs "role" EmptyString)) "switch"
  || String.eqb (lower (Dict.get_or attrs "xml-roles" EmptyString)) "switch".

(** The mapping of [_augment_attrs_for_readability] when its statements
    up to the selected state have run. *)
Definition upto_selected (host : Host) (o : node) (ia2n attrs : Dict.t) : Dict.t :=
  let out := aug_accessible_name host o (aug_tag host o attrs) in
  let computedFrom := computed_from ia2n out in
  aug_selected host o
    (aug_expanded host o
       (aug_explicit_name computedFrom (aug_name_from computedFrom out))).

(** The key under which the loop over a structured source stores an
    entry whose key is not blank. *)
Definition alias_key (k : string) : string :=
  let ks := strip k in
  let ksl := lower ks in
  if str_in ksl describedby_aliases then "describedby"
  else if str_in ksl checked_aliases then "checked"
  else ks.

(** No key of the raw mapping is blank. *)
Definition no_blank_key (d : list (string * string)) : Prop :=
  Forall (fun kv => strip (fst kv) <> EmptyString) d.

(** ** Relations on the object store used in the statements *)

(** The object [k] parent links above [o], when every link on the way
    can be read. *)
Fixpoint ancestor_at (host : Host) (k : nat) (o : node) : option node :=
  match k with
  | O => Some o
  | S k' =>
      match parent (obj host o) with
      | Ok (Some p) => ancestor_at host k' p
      | _ => None
      end
  end.

(** [later_sibling host c d]: [d] is [c] or follows it along [next]. *)
Inductive later_sibling (host : Host) (c : node) : node -> Prop :=
| sibling_here : later_sibling host c c
| sibling_next (d e : node) :
    later_sibling host c d ->
    try_or (next (obj host d)) None = Some e ->
    later_sibling host c e.

(** [descendant host r n]: [n] is [r] or is reached from it by going to
    a first child and along its siblings, any number of times. *)
Inductive descendant (host : Host) (r : node) : node -> Prop :=
| descendant_self : descendant host r r
| descendant_child (a c n : node) :
    descendant host r a ->
    try_or (firstChild (obj host a)) None = Some c ->
    later_sibling host c n ->
    descendant host r n.


(** A span inside a link, under the document. *)
Definition span_in_link_host : Host :=
  sample_host
    [element (IA2Dict [("tag", "span"); ("class", "label")]) [] (Some 1);
     element (IA2Dict [("tag", "a"); ("href", "https://example.com/")]) [] (Some 2);
     element (IA2Dict [("tag", "#document")]) [] None]
    (Some 0).

(** A switch whose attributes come as a string, inside a document. *)
Definition string_source_in_document_host : Host :=
  sample_host
    [element (IA2Str "tag:div;xml-roles:switch;checkable:true") [] (Some 1);
     element (IA2Dict [("tag", "#document")]) [] None]
    (Some 0).

(** ** Conditions of the Inference Engine, as its statements read them *)

(** The tag the inference works with: the "tag" value of the mapping, or
    the extracted tag when that value is missing or empty. *)
Definition effective_tag (host : Host) (o : node) (attrs : Dict.t) : string :=
  lower (or_else (Dict.get_or attrs "tag" EmptyString) (_tag host o)).

(** The role or the structured role of the mapping is [r]. *)
Definition role_is (attrs : Dict.t) (r : string) : bool :=
  String.eqb (lower (Dict.get_or attrs "role" EmptyString)) r
  || String.eqb (lower (Dict.get_or attrs "xml-roles" EmptyString)) r.

(** State signals, by constant or by display name. *)
Definition focus_signal (host : Host) (o : node) : bool :=
  (_state_in host o FOCUSABLE || _has_state_name host o "focusable")
  || (_state_in host o FOCUSED || _has_state_name host o "focused").

Definition selected_signal (host : Host) (o : node) : bool :=
  _state_in host o SELECTED || _has_state_name host o "selected".

Definition collapsed_signal (host : Host) (o : node) : bool :=
  _state_in host o COLLAPSED || _has_state_name host o "collapsed".

Definition pressed_signal (host : Host) (o : node) : bool :=
  _state_in host o PRESSED || _state_in host o CHECKED
  || _has_state_name host o "pressed" || _has_state_name host o "checked".

(** Roles that carry a selection, roles of form controls, comboboxes. *)
Definition selectable_role (attrs : Dict.t) : bool :=
  str_in (lower (Dict.get_or attrs "role" EmptyString)) ["tab"; "option"; "treeitem"]
  || str_in (lower (Dict.get_or attrs "xml-roles" EmptyString))
            ["tab"; "option"; "treeitem"].

Definition interactive_role (attrs : Dict.t) : bool :=
  str_in (lower (Dict.get_or attrs "role" EmptyString)) interactive_roles
  || str_in (lower (Dict.get_or attrs "xml-roles" EmptyString)) interactive_roles.

Definition is_combobox (attrs : Dict.t) : bool :=
  contains (lower (Dict.get_or attrs "xml-roles" EmptyString)) "combobox"
  || String.eqb (lower (Dict.get_or attrs "role" EmptyString)) "combobox"
  || String.eqb (lower (Dict.get_or attrs "haspopup" EmptyString)) "listbox".

(** The mapping of [_augment_attrs_for_readability] when its statements
    up to the layout guess have run. *)
Definition upto_layout (host : Host) (o : node) (ia2n attrs : Dict.t) : Dict.t :=
  aug_layout_guess host o
    (aug_table_cell host o
       (aug_pressed host o
          (aug_checked host o (upto_selected host o ia2n attrs)))).

(** A tab that can take the focus. *)
Definition focusable_tab_host : Host :=
  sample_host
    [element (IA2Dict [("tag", "div"); ("xml-roles", "tab")]) [FOCUSABLE] None]
    (Some 0).

(** A wrapper that carries a host role, a table cell, a toggle button,
    a document with an interactive role, a combobox. *)
Definition wrapper_with_msaa_role_host : Host :=
  sample_host
    [element (IA2Dict [("tag", "div"); ("MSAA Role", "grouping")]) [] None]
    (Some 0).

Definition table_cell_host : Host :=
  sample_host [element (IA2Dict [("tag", "td")]) [] None] (Some 0).

Definition toggle_button_host : Host :=
  sample_host
    [element (IA2Dict [("tag", "button"); ("xml-roles", "togglebutton")])
             [PRESSED] None]
    (Some 0).

Definition document_with_field_host : Host :=
  sample_host
    [element (IA2Dict [("tag", "body"); ("fsFormField", "yes")]) [] None]
    (Some 0).

Definition combobox_host : Host :=
  sample_host
    [element (IA2Dict [("tag", "input"); ("xml-roles", "combobox")]) [] None]
    (Some 0).

(** ** The parameter order of [globalPlugins/__init__.py]: [sort_params] *)

Definition JAWS_ORDER : list string :=
  ["class"; "display"; "href"; "id";
   "role"; "xml-roles";
   "level"; "posinset"; "setsize";
   "expanded"; "fsFormField";
   "type"; "text-input-type";
   "multiline"; "maxlength";
   "autocomplete"; "haspopup";
   "name-from"; "explicit-name";
   "title"; "src"; "placeholder";
   "text-align"; "text-model"].

(** [for k in JAWS_ORDER: if k in params: ordered.append((k, params[k]))] *)
Definition sort_params_listed (params : Dict.t)
    (ordered : list (string * string)) (k : string) : list (string * string) :=
  match Dict.get params k with
  | Some v => ordered ++ [(k, v)]
  | None => ordered
  end.

(** [for k in params: if k not in [x[0] for x in ordered]:
    ordered.append((k, params[k]))] *)
Definition sort_params_other (params : Dict.t)
    (ordered : list (string * string)) (k : string) : list (string * string) :=
  if str_in k (map fst ordered) then ordered
  else match Dict.get params k with
       | Some v => ordered ++ [(k, v)]
       | None => ordered   (* not reached: [k] is a key of [params] *)
       end.

Definition sort_params (params : Dict.t) : list (string * string) :=
  fold_left (sort_params_other params) (Dict.keys params)
            (fold_left (sort_params_listed params) JAWS_ORDER []).

(** The entries of [params] under the keys of [l], in the order of [l]. *)
Definition entries_in_order (params : Dict.t) (l : list string)
  : list (string * string) :=
  flat_map (fun k => match Dict.get params k with
                     | Some v => [(k, v)]
                     | None => []
                     end) l.

(** ** The report page: [_report_text_to_html]

    String primitives first, then the function. *)

(** The double quote and the carriage return *)
Definition dquote : ascii := ascii_of_nat 34.
Definition cr : ascii := ascii_of_nat 13.

(** [s.replace(c, r)] for a one-character [c] *)
Fixpoint replace_char (c : ascii) (r s : string) : string :=
  match s with
  | EmptyString => EmptyString
  | String d t =>
      if Ascii.eqb d c then (r ++ replace_char c r t)%string
      else String d (replace_char c r t)
  end.

(** [html.escape(s)]: five replacements, the ampersand first, the two
    quotes last *)
Definition html_escape (s : string) : string :=
  replace_char "'" "&#x27;"
    (replace_char dquote "&quot;"
       (replace_char ">" "&gt;"
          (replace_char "<" "&lt;"
             (replace_char "&" "&amp;" s)))).

(** [s.replace("\r\n", "\n")] *)
Fixpoint replace_crlf (s : string) : string :=
  match s with
  | EmptyString => EmptyString
  | String c r =>
      match r with
      | EmptyString => s
      | String d r' =>
          if Ascii.eqb c cr && Ascii.eqb d nl then String nl (replace_crlf r')
          else String c (replace_crlf r)
      end
  end.

(** [s.endswith(suf)] *)
Definition endswith (s suf : string) : bool :=
  (String.length suf <=? String.length s)%nat
  && String.eqb
       (String.substring (String.length s - String.length suf)
                         (String.length suf) s)
       suf.

(** [s.lstrip(c)], [s.rstrip(c)] and [s.strip(c)] for a one-character [c] *)
Fixpoint lstrip_char (c : ascii) (s : string) : string :=
  match s with
  | EmptyString => EmptyString
  | String d r => if Ascii.eqb d c then lstrip_char c r else s
  end.

Fixpoint rstrip_char (c : ascii) (s : string) : string :=
  match s with
  | EmptyString => EmptyString
  | String d r =>
      let r' := rstrip_char c r in
      if Ascii.eqb d c && negb (nonempty r') then EmptyString else String d r'
  end.

Definition strip_char (c : ascii) (s : string) : string :=
  rstrip_char c (lstrip_char c s).

(** [s.split(sep, 1)] when [sep] occurs in [s]: the text before its
    first occurrence and the text after it *)
Fixpoint split_first (sep s : string) : option (string * string) :=
  if String.prefix sep s then
    Some (EmptyString,
          String.substring (String.length sep)
                           (String.length s - String.length sep) s)
  else
    match s with
    | EmptyString => None
    | String c r =>
        match split_first sep r with
        | Some (a, b) => Some (String c a, b)
        | None => None
        end
    end.

(** [_esc] on a string *)
Definition _esc (s : string) : string := html_escape s.

(** The test of a header line in the loop that splits the text. *)
Definition starts_block (line : string) : bool :=
  startswith line "Tag " && contains line " has "
  && endswith line "parameters:".

(** ["\n".join(cur).strip("\n")] *)
Definition close_block (cur : list string) : string :=
  strip_char nl (join newline cur).

(** One pass of [for line in txt.split("\n")] on [(blocks, cur)]. *)
Definition split_step (st : list string * list string) (line : string)
  : list string * list string :=
  let '(blocks, cur) := st in
  if starts_block line
  then match cur with
       | [] => (blocks, [line])
       | _ :: _ => (blocks ++ [close_block cur], [line])
       end
  else (blocks, cur ++ [line]).

Definition text_blocks (txt : string) : list string :=
  let '(blocks, cur) := fold_left split_step (split_char nl txt) ([], []) in
  match cur with
  | [] => blocks
  | _ :: _ => blocks ++ [close_block cur]
  end.

(** [ln.split("Tag ", 1)[1].split(" has ", 1)[0].strip()]; a missing
    second element is the [IndexError] that leaves [tag_name] at [None]. *)
Definition header_tag_name (ln : string) : option string :=
  match split_first "Tag " ln with
  | Some (_, rest) =>
      Some (strip (match split_first " has " rest with
                   | Some (a, _) => a
                   | None => rest
                   end))
  | None => None
  end.

(** The inner loop over the lines of a block, up to its [break]. *)
Definition block_tag_name (b_stripped : string) : option string :=
  match find (fun ln => startswith ln "Tag " && contains ln " has "
                        && contains ln " parameters:")
             (split_char nl b_stripped) with
  | Some ln => header_tag_name ln
  | None => None
  end.

(** What one block adds to [parts]. *)
Definition block_parts (b : string) : list string :=
  let b_stripped := strip b in
  if negb (nonempty b_stripped) then []
  else if String.eqb b_stripped "Element Information:"
          || String.eqb b_stripped "Advanced Element Information:" then []
  else
    (match block_tag_name b_stripped with
     | Some tag_name =>
         if nonempty tag_name
         then [("<h2>Tag " ++ _esc tag_name ++ "</h2>")%string]
         else []
     | None => []
     end)
    ++ [("<pre>" ++ _esc b_stripped ++ "</pre>")%string].

(** The entries of [parts], in order. *)
Definition page_parts (report_text title_h1 : string) : list string :=
  let txt := replace_char cr newline (replace_crlf report_text) in
  ("<h1>" ++ _esc title_h1 ++ "</h1>")%string
    :: flat_map block_parts (text_blocks txt).

(** [_report_text_to_html] *)
Definition _report_text_to_html (report_text title_h1 : string) : string :=
  join newline (page_parts report_text title_h1).

(** The characters that open or close markup and attribute values. *)
Definition markup_chars : list ascii := ["<"%char; ">"%char; dquote; "'"%char].

Definition no_markup (s : string) : bool :=
  forallb (fun c => negb (has_char c s)) markup_chars.

(** A part of the page that is one element around text without markup. *)
Definition element_part (p : string) : Prop :=
  exists opening text closing,
    p = (opening ++ text ++ closing)%string
    /\ In (opening, closing)
          [("<h1>", "</h1>"); ("<h2>Tag ", "</h2>"); ("<pre>", "</pre>")]
    /\ no_markup text = true.

(** ** The two commands of [GlobalPlugin] *)

(** What a command does to the user interface. *)
Inductive ui_event : Type :=
| Message (text : string)                    (* ui.message(text) *)
| BrowseableMessage (text title : string) (isHtml : option bool).
    (* ui.browseableMessage(text, title=title[, isHtml=isHtml]) *)

(** [try: ui.browseableMessage(text, title=title, isHtml=True)
    except TypeError: ui.browseableMessage(text, title=title)];
    [accepts_isHtml] tells whether the host's function takes the
    keyword (the [TypeError] of a call is raised before it shows
    anything). *)
Definition show_page (accepts_isHtml : bool) (text title : string)
  : list ui_event :=
  if accepts_isHtml then [BrowseableMessage text title (Some true)]
  else [BrowseableMessage text title None].

(** [script_inspectWebElement] *)
Definition script_inspectWebElement (host : Host)
    (render_advanced : node -> string -> string) (accepts_isHtml : bool)
  : exc (list ui_event) :=
  r <- _build_report host render_advanced false ;;
  let '(report, ok) := r in
  if negb ok then Ok [Message report]
  else
    let htmlReport := _report_text_to_html report "Element Information" in
    Ok (show_page accepts_isHtml htmlReport
          (translate host "HTML Element Inspector")
          ++ [Message (translate host "Inspector report shown.")]).

(** [script_inspectWebElementAdvanced] *)
Definition script_inspectWebElementAdvanced (host : Host)
    (render_advanced : node -> string -> string) (accepts_isHtml : bool)
  : exc (list ui_event) :=
  r <- _build_report host render_advanced true ;;
  let '(report, ok) := r in
  if negb ok then Ok [Message report]
  else
    Ok (show_page accepts_isHtml report
          (translate host "HTML Element Inspector (Advanced)")
          ++ [Message (translate host "Advanced inspector report shown.")]).

(** What a command may do, by the candidate object and the web gate:
    speak the fixed message, or show one page and speak one message. *)
Definition command_outcome (host : Host) (evs : list ui_event) : Prop :=
  match _get_candidate_object host with
  | None => evs = [Message (translate host msg_no_element)]
  | Some b =>
      if _is_web_context host (Some b)
      then exists page title flag text,
             evs = [BrowseableMessage page title flag; Message text]
      else evs = [Message (translate host msg_not_applicable)]
  end.

(** A field that exposes its Angular control name in mixed case. *)
Definition angular_field_host : Host :=
  sample_host
    [element (IA2Dict [("tag", "input"); ("formControlName", "email")]) [] None]
    (Some 0).

(** Where [_infer_form_attrs] puts the name or the description of an
    element that has no label: the key and the value, if any. *)
Definition label_route (host : Host) (o : node) (attrs : Dict.t)
  : option (string * string) :=
  if nonempty (name_of host o)
     && String.eqb (lower (Dict.get_or attrs "name-from" EmptyString)) "attribute"
  then Some ("label", name_of host o)
  else if nonempty (description_of host o) then
    let df := lower (Dict.get_or attrs "description-from" EmptyString) in
    Some (if String.eqb df "aria-describedby" then "description"
          else if String.eqb df "tooltip" then "title"
          else "label",
          description_of host o)
  else None.

(** An input described by another element. *)
Definition described_input_host : Host :=
  sample_host
    [{| IA2Attributes :=
          Ok (IA2Dict [("tag", "input"); ("description-from", "aria-describedby")]);
        name := Ok PyNone;
        description := Ok (PyStr " Use your work address ");
        value := Ok PyNone;
        states := Ok [];
        role := Ok None;
        parent := Ok None;
        firstChild := Ok None;
        next := Ok None;
        colSpan := Ok PyNone;
        colspan := Ok PyNone;
        rowSpan := Ok PyNone;
        rowspan := Ok PyNone;
        IAccessibleObject := Ok None;
        treeInterceptor := Ok None;
        appModule := Ok None |}]
    (Some 0).

(** ** The walk of [_dom_chain_with_tags], in the words of its
       description

    The walk visits the starting object, its parent, the parent of that
    one, and so on, for at most as many objects as the depth budget, and
    ends early where no parent can be read; it stops at the first object
    tagged [#document], which it keeps; the chain is made of the visited
    objects that expose a tag. *)

(** The object exposes a tag: [attrs.get("tag")] is truthy. *)
Definition has_tag (host : Host) (n : node) : bool :=
  nonempty (Dict.get_or (_ia2_attrs host n) "tag" EmptyString).

(** The object is tagged with the root-document marker. *)
Definition is_document (host : Host) (n : node) : bool :=
  String.eqb (_tag host n) "#document".

(** The first [n] objects on the way up from [o]. *)
Fixpoint ancestors_upto (host : Host) (n : nat) (o : node) : list node :=
  match n with
  | O => []
  | S n' =>
      o :: match try_or (parent (obj host o)) None with
           | Some p => ancestors_upto host n' p
           | None => []
           end
  end.

(** A list cut after its first member that satisfies [p]. *)
Fixpoint upto_first {A : Type} (p : A -> bool) (l : list A) : list A :=
  match l with
  | [] => []
  | x :: r => if p x then [x] else x :: upto_first p r
  end.

(** The objects whose blocks make the report of [_build_report], in the
    order in which they are augmented: the canonical object, the nested
    original when the canonical object was promoted from another one,
    the ancestors of the canonical object. *)
Definition report_objects (host : Host) (base : node) : list node :=
  let '(base, base_chain) := report_start host base in
  let '(canonical, promoted_from) :=
    _promote_canonical host (Some base) base_chain in
  let canonical := match canonical with Some c => c | None => base end in
  canonical
    :: match promoted_from with
       | Some p => if Nat.eqb p canonical then [] else [p]
       | None => []
       end
    ++ tl (_dom_chain_with_tags host (Some canonical) default_max_depth).

(** * Properties *)

Unset Implicit Arguments.

(** ** Strings *)

Lemma nonempty_true_iff (s : string) : nonempty s = true <-> s <> EmptyString.
Proof. destruct s; simpl; split; intros; congruence. Qed.

Lemma nonempty_false_iff (s : string) : nonempty s = false <-> s = EmptyString.
Proof. destruct s; simpl; split; intros; congruence. Qed.

Lemma upper_lower_char (c : ascii) : upper_char (lower_char c) = upper_char c.
Proof.
  destruct c as [[] [] [] [] [] [] [] []]; vm_compute; reflexivity.
Qed.

Lemma upper_lower (s : string) : upper (lower s) = upper s.
Proof.
  induction s as [|c s IH]; simpl; [reflexivity|].
  unfold upper, lower in *; simpl. now rewrite upper_lower_char, IH.
Qed.

Lemma lower_lower_char (c : ascii) : lower_char (lower_char c) = lower_char c.
Proof.
  destruct c as [[] [] [] [] [] [] [] []]; vm_compute; reflexivity.
Qed.

Lemma lower_idem (s : string) : lower (lower s) = lower s.
Proof.
  induction s as [|c s IH]; simpl; [reflexivity|].
  unfold lower in *; simpl. now rewrite lower_lower_char, IH.
Qed.

Lemma lstrip_head (s : string) :
  lstrip s = EmptyString \/
  exists c r, lstrip s = String c r /\ is_space c = false.
Proof.
  induction s as [|c s IH]; simpl; [now left|].
  destruct (is_space c) eqn:E; [exact IH|].
  right. now exists c, s.
Qed.

Lemma rstrip_idem (s : string) : rstrip (rstrip s) = rstrip s.
Proof.
  induction s as [|c s IH]; simpl; [reflexivity|].
  destruct (is_space c && negb (nonempty (rstrip s))) eqn:E; simpl; [reflexivity|].
  now rewrite IH, E.
Qed.

Lemma rstrip_head (c : ascii) (r : string) :
  is_space c = false -> rstrip (String c r) = String c (rstrip r).
Proof. intros H; simpl. now rewrite H. Qed.

Lemma lstrip_strip (s : string) : lstrip (strip s) = strip s.
Proof.
  unfold strip. destruct (lstrip_head s) as [E | (c & r & E & Hc)]; rewrite E.
  - reflexivity.
  - rewrite (rstrip_head c r Hc). simpl. now rewrite Hc.
Qed.

Lemma strip_idem (s : string) : strip (strip s) = strip s.
Proof.
  unfold strip at 1. rewrite lstrip_strip. unfold strip. apply rstrip_idem.
Qed.

Lemma str_in_iff (s : string) (l : list string) : str_in s l = true <-> In s l.
Proof.
  unfold str_in. rewrite existsb_exists. split.
  - intros (x & Hx & E). apply String.eqb_eq in E. now subst.
  - intros H. exists s. split; [assumption | apply String.eqb_refl].
Qed.

Lemma str_in_false_iff (s : string) (l : list string) :
  str_in s l = false <-> ~ In s l.
Proof.
  rewrite <- str_in_iff. destruct (str_in s l); split; congruence.
Qed.

(** ** Dictionaries *)

Lemma dict_get_set_same (d : Dict.t) (k v : string) :
  Dict.get (Dict.set d k v) k = Some v.
Proof.
  induction d as [|[k' v'] d IH]; simpl.
  - now rewrite String.eqb_refl.
  - destruct (String.eqb k k') eqn:E; simpl.
    + now rewrite String.eqb_refl.
    + now rewrite E.
Qed.

Lemma dict_get_set_other (d : Dict.t) (k k' v : string) :
  k <> k' -> Dict.get (Dict.set d k' v) k = Dict.get d k.
Proof.
  intros Hne. induction d as [|[k0 v0] d IH]; simpl.
  - apply String.eqb_neq in Hne. now rewrite Hne.
  - destruct (String.eqb k' k0) eqn:E; simpl.
    + apply String.eqb_eq in E. subst k0.
      apply String.eqb_neq in Hne. now rewrite Hne.
    + destruct (String.eqb k k0); [reflexivity | exact IH].
Qed.

Lemma dict_get_pop_same (d : Dict.t) (k : string) :
  Dict.get (Dict.pop d k) k = None.
Proof.
  induction d as [|[k0 v0] d IH]; simpl; [reflexivity|].
  destruct (String.eqb k k0) eqn:E; simpl; [exact IH|].
  now rewrite E.
Qed.

Lemma dict_get_pop_other (d : Dict.t) (k k' : string) :
  k <> k' -> Dict.get (Dict.pop d k') k = Dict.get d k.
Proof.
  intros Hne. induction d as [|[k0 v0] d IH]; simpl; [reflexivity|].
  destruct (String.eqb k' k0) eqn:E; simpl.
  - apply String.eqb_eq in E. subst k0.
    apply String.eqb_neq in Hne. now rewrite Hne.
  - destruct (String.eqb k k0); [reflexivity | exact IH].
Qed.

Lemma dict_mem_get (d : Dict.t) (k : string) :
  Dict.mem d k = true <-> exists v, Dict.get d k = Some v.
Proof.
  unfold Dict.mem. destruct (Dict.get d k) as [v|]; split.
  - intros _. now exists v.
  - reflexivity.
  - discriminate.
  - intros (v & H). discriminate.
Qed.

Lemma dict_mem_false_get (d : Dict.t) (k : string) :
  Dict.mem d k = false <-> Dict.get d k = None.
Proof.
  unfold Dict.mem. destruct (Dict.get d k); split; congruence.
Qed.

Lemma dict_mem_keys (d : Dict.t) (k : string) :
  Dict.mem d k = true <-> In k (Dict.keys d).
Proof.
  unfold Dict.mem, Dict.keys. induction d as [|[k0 v0] d IH]; simpl.
  - split; [discriminate | tauto].
  - destruct (String.eqb k k0) eqn:E.
    + apply String.eqb_eq in E. subst. split; auto.
    + apply String.eqb_neq in E. rewrite IH. split; [auto|].
      intros [H|H]; [congruence | assumption].
Qed.

Lemma dict_get_in (d : Dict.t) (k v : string) :
  Dict.get d k = Some v -> In (k, v) d.
Proof.
  induction d as [|[k0 v0] d IH]; simpl; [discriminate|].
  destruct (String.eqb k k0) eqn:E.
  - apply String.eqb_eq in E. intros [= <-]. subst. now left.
  - intros H. right. auto.
Qed.

Lemma dict_mem_set (d : Dict.t) (k k' v : string) :
  Dict.mem (Dict.set d k' v) k = String.eqb k k' || Dict.mem d k.
Proof.
  unfold Dict.mem. destruct (String.eqb k k') eqn:E.
  - apply String.eqb_eq in E. subst. now rewrite dict_get_set_same.
  - apply String.eqb_neq in E. now rewrite dict_get_set_other.
Qed.

Lemma dict_mem_pop (d : Dict.t) (k k' : string) :
  Dict.mem (Dict.pop d k') k = negb (String.eqb k k') && Dict.mem d k.
Proof.
  unfold Dict.mem. destruct (String.eqb k k') eqn:E.
  - apply String.eqb_eq in E. subst. now rewrite dict_get_pop_same.
  - apply String.eqb_neq in E. now rewrite dict_get_pop_other.
Qed.

Lemma dict_get_or_set_other (d : Dict.t) (k k' v dflt : string) :
  k <> k' -> Dict.get_or (Dict.set d k' v) k dflt = Dict.get_or d k dflt.
Proof. intros H. unfold Dict.get_or. now rewrite dict_get_set_other. Qed.

Lemma dict_get_or_pop_other (d : Dict.t) (k k' dflt : string) :
  k <> k' -> Dict.get_or (Dict.pop d k') k dflt = Dict.get_or d k dflt.
Proof. intros H. unfold Dict.get_or. now rewrite dict_get_pop_other. Qed.

(** ** The Attribute Extractor yields stripped values *)

Lemma stripped_set (d : Dict.t) (k v : string) :
  stripped_values d -> strip v = v -> stripped_values (Dict.set d k v).
Proof.
  unfold stripped_values. intros Hd Hv.
  induction d as [|[k0 v0] d IH]; simpl.
  - constructor; [exact Hv | constructor].
  - inversion Hd; subst. destruct (String.eqb k k0).
    + constructor; assumption.
    + constructor; [assumption | auto].
Qed.

Lemma stripped_pop (d : Dict.t) (k : string) :
  stripped_values d -> stripped_values (Dict.pop d k).
Proof.
  unfold stripped_values, Dict.pop. intros Hd.
  apply Forall_forall. intros x Hx. apply filter_In in Hx.
  destruct Hx as [Hx _]. rewrite Forall_forall in Hd. auto.
Qed.

Lemma stripped_get (d : Dict.t) (k v : string) :
  stripped_values d -> Dict.get d k = Some v -> strip v = v.
Proof.
  unfold stripped_values. intros Hd Hg. apply dict_get_in in Hg.
  rewrite Forall_forall in Hd. exact (Hd _ Hg).
Qed.

Lemma stripped_get_or (d : Dict.t) (k : string) :
  stripped_values d ->
  strip (Dict.get_or d k EmptyString) = Dict.get_or d k EmptyString.
Proof.
  intros Hd. unfold Dict.get_or. destruct (Dict.get d k) eqn:E.
  - eapply stripped_get; eassumption.
  - reflexivity.
Qed.

Lemma stripped_dict_loop (items : list (string * string)) :
  forall ksl out, stripped_values out ->
                  stripped_values (ia2_dict_loop items ksl out).
Proof.
  induction items as [|[k v] items IH]; intros ksl out Hout; simpl.
  - exact Hout.
  - destruct (if nonempty (strip k) then Some (lower (strip k)) else ksl);
      [|exact Hout].
    apply IH. apply stripped_set; [exact Hout | apply strip_idem].
Qed.

Lemma stripped_str_loop (parts : list string) :
  forall out, stripped_values out -> stripped_values (ia2_str_loop parts out).
Proof.
  induction parts as [|p parts IH]; intros out Hout; simpl.
  - exact Hout.
  - destruct (has_char ":" p); [|auto].
    destruct (split_once ":" p) as [k v].
    apply IH. apply stripped_set; [exact Hout | apply strip_idem].
Qed.

Lemma stripped_collect (o : NVDAObject) : stripped_values (ia2_collect o).
Proof.
  unfold ia2_collect.
  destruct (IA2Attributes o) as [[|d|s]|]; try constructor.
  - apply stripped_dict_loop. constructor.
  - destruct (nonempty (strip s)); [|constructor].
    apply stripped_str_loop. constructor.
Qed.

Lemma stripped_move_formcontrolname (out : Dict.t) (k : string) :
  stripped_values out -> stripped_values (move_formcontrolname out k).
Proof.
  intros H. unfold move_formcontrolname.
  destruct (String.eqb (lower k) "formcontrolname"
            && negb (String.eqb k "formcontrolname")); [|exact H].
  destruct (Dict.get out k) eqn:E; [|exact H].
  apply stripped_set; [now apply stripped_pop | eapply stripped_get; eassumption].
Qed.

Lemma stripped_normalize_formcontrolname (out : Dict.t) :
  stripped_values out -> stripped_values (normalize_formcontrolname out).
Proof.
  unfold normalize_formcontrolname. generalize (Dict.keys out) as ks.
  intros ks. revert out. induction ks as [|k ks IH]; intros out H; simpl.
  - exact H.
  - apply IH. now apply stripped_move_formcontrolname.
Qed.

Lemma stripped_refine_link_href (out : Dict.t) :
  stripped_values out -> stripped_values (refine_link_href out).
Proof.
  intros H. unfold refine_link_href.
  destruct (String.eqb _ "a"); [|exact H].
  destruct (negb _ && _); [|exact H].
  apply stripped_pop. apply stripped_set; [exact H | apply strip_idem].
Qed.

Lemma stripped_enrich_alias (out : Dict.t) (t s : string) :
  stripped_values out -> stripped_values (enrich_alias out t s).
Proof.
  intros H. unfold enrich_alias. destruct (negb _ && _); [|exact H].
  apply stripped_set; [exact H | apply strip_idem].
Qed.

Lemma stripped_enrich_value (o : NVDAObject) (out : Dict.t) :
  stripped_values out -> stripped_values (enrich_value o out).
Proof.
  intros H. unfold enrich_value.
  destruct (Dict.mem out "value"); [now apply stripped_refine_link_href|].
  destruct (nonempty (strip (Dict.get_or out "aria-valuenow" _))).
  { apply stripped_refine_link_href. apply stripped_set; [exact H | apply strip_idem]. }
  destruct (nonempty (strip (Dict.get_or out "aria-valuetext" _))).
  { apply stripped_refine_link_href. apply stripped_set; [exact H | apply strip_idem]. }
  destruct (value o) as [v|]; [|exact H].
  apply stripped_refine_link_href.
  destruct (nonempty (strip (_safe v))); [|exact H].
  apply stripped_set; [exact H | apply strip_idem].
Qed.

Lemma stripped_enrich (o : NVDAObject) (out : Dict.t) :
  stripped_values out -> stripped_values (ia2_enrich o out).
Proof.
  intros H. unfold ia2_enrich.
  apply stripped_enrich_value, stripped_normalize_formcontrolname.
  now do 2 apply stripped_enrich_alias.
Qed.

Lemma ia2_attrs_stripped (host : Host) (o : node) :
  stripped_values (_ia2_attrs host o).
Proof. unfold _ia2_attrs. apply stripped_enrich, stripped_collect. Qed.

Lemma tag_nonempty_of_attr (host : Host) (o : node) :
  nonempty (Dict.get_or (_ia2_attrs host o) "tag" EmptyString) = true ->
  _tag host o <> EmptyString.
Proof.
  intros H. unfold _tag.
  rewrite (stripped_get_or _ "tag" (ia2_attrs_stripped host o)).
  destruct (Dict.get_or (_ia2_attrs host o) "tag" EmptyString); simpl in *;
    [discriminate | unfold lower; simpl; discriminate].
Qed.

(** ** The Ancestry Walker *)

Lemma dom_chain_length (host : Host) (depth : nat) :
  forall cur, List.length (dom_chain_from host depth cur) <= depth.
Proof.
  induction depth as [|d IH]; intros cur; simpl; [lia|].
  destruct cur as [c|]; simpl; [|lia].
  destruct (nonempty _).
  - destruct (String.eqb _ "#document"); simpl.
    + lia.
    + specialize (IH (try_or (parent (obj host c)) None)). lia.
  - specialize (IH (try_or (parent (obj host c)) None)). lia.
Qed.

Lemma dom_chain_tagged (host : Host) (depth : nat) :
  forall cur,
    Forall (fun n =>
              nonempty (Dict.get_or (_ia2_attrs host n) "tag" EmptyString) = true)
           (dom_chain_from host depth cur).
Proof.
  induction depth as [|d IH]; intros cur; simpl; [constructor|].
  destruct cur as [c|]; [|constructor].
  destruct (nonempty _) eqn:E; [|apply IH].
  destruct (String.eqb _ "#document").
  - constructor; [exact E | constructor].
  - constructor; [exact E | apply IH].
Qed.

Lemma dom_chain_document_last (host : Host) (depth : nat) :
  forall cur i n,
    nth_error (dom_chain_from host depth cur) i = Some n ->
    _tag host n = "#document" ->
    S i = List.length (dom_chain_from host depth cur).
Proof.
  induction depth as [|d IH]; intros cur i n; simpl.
  - destruct i; discriminate.
  - destruct cur as [c|]; [|destruct i; discriminate].
    destruct (nonempty _); [|apply IH].
    destruct (String.eqb _ "#document") eqn:E.
    + destruct i as [|[|i]]; simpl; intros H; try discriminate. reflexivity.
    + destruct i as [|i]; simpl.
      * intros [= <-] Ht. unfold _tag in Ht. rewrite Ht in E. discriminate.
      * intros H Ht. f_equal. now apply (IH _ _ n).
Qed.

Lemma is_document_has_tag (host : Host) (n : node) :
  is_document host n = true -> has_tag host n = true.
Proof.
  unfold is_document, has_tag, _tag. intros H.
  destruct (Dict.get_or (_ia2_attrs host n) "tag" EmptyString); [discriminate H|].
  reflexivity.
Qed.

Lemma dom_chain_from_empty (host : Host) (d : nat) :
  dom_chain_from host d None = [].
Proof. destruct d; reflexivity. Qed.

Lemma dom_chain_from_cases (host : Host) (d : nat) (c : node) :
  dom_chain_from host (S d) (Some c)
  = if has_tag host c then
      if is_document host c then [c]
      else c :: dom_chain_from host d (try_or (parent (obj host c)) None)
    else dom_chain_from host d (try_or (parent (obj host c)) None).
Proof. reflexivity. Qed.

(** The chain is the walk, cut after the first document, without the
    objects that expose no tag. *)
Lemma dom_chain_from_walk (host : Host) (depth : nat) :
  forall c,
    dom_chain_from host depth (Some c)
    = filter (has_tag host)
             (upto_first (is_document host) (ancestors_upto host depth c)).
Proof.
  induction depth as [|d IH]; intros c; [reflexivity|].
  rewrite dom_chain_from_cases. cbn [ancestors_upto upto_first].
  assert (Hup : dom_chain_from host d (try_or (parent (obj host c)) None)
                = filter (has_tag host)
                         (upto_first (is_document host)
                            match try_or (parent (obj host c)) None with
                            | Some p => ancestors_upto host d p
                            | None => []
                            end)).
  { destruct (try_or (parent (obj host c)) None) as [p|];
      [apply IH | apply dom_chain_from_empty]. }
  destruct (has_tag host c) eqn:Et.
  - destruct (is_document host c); cbn [filter]; rewrite Et; [reflexivity|].
    now rewrite Hup.
  - destruct (is_document host c) eqn:Ed.
    + apply is_document_has_tag in Ed. congruence.
    + cbn [filter]. rewrite Et. exact Hup.
Qed.

(** A document that the walk reaches closes the chain. *)
Lemma dom_chain_from_ends (host : Host) (depth : nat) :
  forall c k d,
    k < depth ->
    ancestor_at host k c = Some d ->
    is_document host d = true ->
    (forall j m, j < k -> ancestor_at host j c = Some m ->
                 is_document host m = false) ->
    exists pre, dom_chain_from host depth (Some c) = pre ++ [d].
Proof.
  induction depth as [|n IH]; intros c k d Hk Ha Hd Hbelow; [lia|].
  rewrite dom_chain_from_cases. destruct k as [|k].
  - cbn [ancestor_at] in Ha. injection Ha as <-.
    rewrite (is_document_has_tag host c Hd), Hd. now exists [].
  - assert (Hc : is_document host c = false)
      by (apply (Hbelow 0 c); [lia | reflexivity]).
    cbn [ancestor_at] in Ha.
    destruct (parent (obj host c)) as [[p|]|] eqn:Ep; try discriminate Ha.
    cbn [try_or].
    destruct (IH p k d) as (pre & Hpre); [lia | exact Ha | exact Hd | |].
    { intros j m Hj Hm. apply (Hbelow (S j) m); [lia|].
      cbn [ancestor_at]. now rewrite Ep. }
    rewrite Hpre, Hc.
    destruct (has_tag host c); [now exists (c :: pre) | now exists pre].
Qed.

(** C3.  Whatever the starting object and the depth budget:
    - every object of the chain built by [_dom_chain_with_tags] has a
      non-empty extracted tag (the raw value and the normalised tag
      alike);
    - an object tagged [#document] can only be the last entry of the
      chain, so the chain holds at most one;
    - the chain is no longer than the depth budget (40 by default);
    - the chain is exactly the walk from the starting object up its
      parents, cut after the first object tagged [#document] and without
      the objects that expose no tag, so no object that the walk visits
      and that exposes a tag is left out;
    - when the walk reaches an object tagged [#document] within the
      budget, the chain ends at that object, which is included. *)
Theorem dom_chain_invariants (host : Host) (o : option node) (max_depth : nat) :
  let chain := _dom_chain_with_tags host o max_depth in
  Forall (fun n =>
            (exists v, Dict.get (_ia2_attrs host n) "tag" = Some v
                       /\ v <> EmptyString)
            /\ _tag host n <> EmptyString) chain
  /\ (forall i n, nth_error chain i = Some n ->
                  _tag host n = "#document" -> S i = List.length chain)
  /\ (forall i j n m, nth_error chain i = Some n -> nth_error chain j = Some m ->
                      _tag host n = "#document" -> _tag host m = "#document" ->
                      i = j)
  /\ List.length chain <= max_depth
  /\ List.length (_dom_chain_with_tags host o default_max_depth) <= 40
  /\ chain
     = match o with
       | Some c =>
           filter (has_tag host)
                  (upto_first (is_document host) (ancestors_upto host max_depth c))
       | None => []
       end
  /\ (forall c k d,
         o = Some c -> k < max_depth ->
         ancestor_at host k c = Some d ->
         _tag host d = "#document" ->
         (forall j m, j < k -> ancestor_at host j c = Some m ->
                      _tag host m <> "#document") ->
         exists pre, chain = pre ++ [d]).
Proof.
  unfold _dom_chain_with_tags. cbv zeta.
  split; [|split; [|split; [|split; [|split; [|split]]]]].
  - eapply Forall_impl; [|apply dom_chain_tagged].
    intros n Hn. split; [|now apply tag_nonempty_of_attr].
    unfold Dict.get_or in Hn.
    destruct (Dict.get (_ia2_attrs host n) "tag") as [v|]; [|discriminate].
    exists v. split; [reflexivity|]. now apply nonempty_true_iff.
  - apply dom_chain_document_last.
  - intros i j n m Hi Hj Hn Hm.
    pose proof (dom_chain_document_last host max_depth o i n Hi Hn).
    pose proof (dom_chain_document_last host max_depth o j m Hj Hm).
    lia.
  - apply dom_chain_length.
  - apply (dom_chain_length host 40).
  - destruct o as [c|]; [apply dom_chain_from_walk | apply dom_chain_from_empty].
  - intros c k d -> Hk Ha Hd Hbelow.
    apply (dom_chain_from_ends host max_depth c k d Hk Ha).
    + unfold is_document. now apply String.eqb_eq.
    + intros j m Hj Hm. unfold is_document. apply String.eqb_neq.
      now apply (Hbelow j m).
Qed.

(** An image in a link in a document: the chain is the three objects,
    and it ends at the document. *)
Lemma dom_chain_invariants_witness :
  _dom_chain_with_tags image_link_host (Some 0) default_max_depth = [0; 1; 2]
  /\ exists pre,
       _dom_chain_with_tags image_link_host (Some 0) default_max_depth
       = pre ++ [2].
Proof.
  destruct (dom_chain_invariants image_link_host (Some 0) default_max_depth)
    as (_ & _ & _ & _ & _ & Hwalk & Hend).
  split.
  - rewrite Hwalk. vm_compute. reflexivity.
  - apply (Hend 0 2 2); try reflexivity.
    + unfold default_max_depth. lia.
    + intros j m Hj Hm.
      destruct j as [|[|j]]; [| |lia]; vm_compute in Hm;
        injection Hm as <-; vm_compute; discriminate.
Defined.

(** ** The fallback URL accessors *)

(** What the three accessors promise of their result. *)
Lemma try_return_cases {A : Type} (body : exc (option A)) (dflt : A) (P : A -> Prop) :
  P dflt ->
  (forall a, body = Ok (Some a) -> P a) ->
  exists s, try_return body dflt = Ok s /\ P s.
Proof.
  intros Hd Hb. unfold try_return.
  destruct body as [[a|]|]; eauto.
Qed.

Lemma first_http_value_http (reads : list (exc pyval)) (u : string) :
  first_http_value reads = Ok (Some u) -> is_http_url u = true.
Proof.
  induction reads as [|r reads IH]; simpl; [discriminate|].
  destruct r as [v|]; simpl; [|discriminate].
  destruct (is_http_url (strip (_safe v))) eqn:E; [|exact IH].
  now intros [= <-].
Qed.

Lemma first_http_call_http (fns : list accessor) (u : string) :
  first_http_call fns = Ok (Some u) -> is_http_url u = true.
Proof.
  induction fns as [|fn fns IH]; simpl; [discriminate|].
  destruct fn as [| |[v|]]; simpl; try discriminate; try exact IH.
  destruct (is_http_url (strip (_safe v))) eqn:E; [|exact IH].
  now intros [= <-].
Qed.

Lemma first_http_value_none (reads : list (exc pyval)) :
  Forall (fun r => exists v, r = Ok v /\ is_http_url (strip (_safe v)) = false) reads ->
  first_http_value reads = Ok None.
Proof.
  induction 1 as [|r reads (v & -> & Hv) _ IH]; simpl; [reflexivity|].
  now rewrite Hv.
Qed.

(** C10.  Each of the three fallback accessors returns, without raising,
    the empty string or a string that starts with [http://] or
    [https://]; a host value that is not such a URL counts as absent (the
    MSAA value read then yields the empty string, and so does the tree
    interceptor read when none of its four attributes holds one).  The
    resolver returns a non-blank IA2 href of the object itself as it is,
    whatever its form. *)
Theorem url_accessors_validated (host : Host) (o : node) :
  (exists s, _try_acc_value_url host o = Ok s
             /\ (s = EmptyString \/ is_http_url s = true))
  /\ (exists s, _try_tree_interceptor_url host o = Ok s
                /\ (s = EmptyString \/ is_http_url s = true))
  /\ (exists s, _try_appmodule_url host o = Ok s
                /\ (s = EmptyString \/ is_http_url s = true))
  /\ (forall ia v, IAccessibleObject (obj host o) = Ok (Some ia) ->
                   accValue ia = Ok v ->
                   is_http_url (strip (_safe v)) = false ->
                   _try_acc_value_url host o = Ok EmptyString)
  /\ (forall ti, treeInterceptor (obj host o) = Ok (Some ti) ->
                 Forall (fun r => exists v, r = Ok v
                                            /\ is_http_url (strip (_safe v)) = false)
                        [ti_documentURL ti; ti_URL ti; ti_url ti;
                         ti_documentConstantIdentifier ti] ->
                 _try_tree_interceptor_url host o = Ok EmptyString)
  /\ (forall chain base_obj,
         let href := strip (Dict.get_or (_ia2_attrs host o) "href" EmptyString) in
         nonempty href = true ->
         _effective_href host o chain base_obj = Ok href).
Proof.
  split; [|split; [|split; [|split; [|split]]]].
  - unfold _try_acc_value_url. apply try_return_cases; [now left|].
    intros a. destruct (IAccessibleObject (obj host o)) as [[ia|]|]; simpl;
      try discriminate.
    destruct (accValue ia) as [v|]; simpl; [|discriminate].
    destruct (is_http_url (strip (_safe v))) eqn:E; [|discriminate].
    intros [= <-]. now right.
  - unfold _try_tree_interceptor_url. apply try_return_cases; [now left|].
    intros a. destruct (treeInterceptor (obj host o)) as [[ti|]|];
      cbn [bind]; try discriminate.
    intros H. right. eapply first_http_value_http; eassumption.
  - unfold _try_appmodule_url. apply try_return_cases; [now left|].
    intros a. destruct (appModule (obj host o)) as [[am|]|];
      cbn [bind]; try discriminate.
    + intros H. right. eapply first_http_call_http; eassumption.
    + intros [= <-]. now left.
  - intros ia v Hia Hv Hn. unfold _try_acc_value_url.
    rewrite Hia. cbn [bind]. rewrite Hv. cbn [bind]. now rewrite Hn.
  - intros ti Hti Hall. unfold _try_tree_interceptor_url.
    rewrite Hti. cbn [bind]. now rewrite (first_http_value_none _ Hall).
  - intros chain base_obj href Hh. unfold _effective_href. fold href.
    rewrite Hh. now destruct (String.eqb (_tag host o) "#document").
Qed.

(** ** The web-context gate *)

Lemma document_reachable_false (host : Host) (o : node) :
  document_reachable host o = false <->
  chain_has_document host
    (_dom_chain_with_tags host (Some o) default_max_depth) = false
  /\ try_or (_document_url host o
               (_dom_chain_with_tags host (Some o) default_max_depth))
            EmptyString = EmptyString.
Proof.
  unfold document_reachable. rewrite orb_false_iff, nonempty_false_iff. tauto.
Qed.

Lemma is_web_context_false_iff (host : Host) (base : node) :
  _is_web_context host (Some base) = false <-> no_web_context host base.
Proof.
  unfold _is_web_context, no_web_context, no_web_signal.
  rewrite <- !document_reachable_false.
  destruct (_is_browse_mode_obj host base) eqn:Eb.
  { split; [discriminate | intros [[H _] _]; discriminate]. }
  destruct (try_or (getFocusObject host) None) as [f|] eqn:Ef.
  - destruct (Nat.eqb f base) eqn:Efb.
    + apply Nat.eqb_eq in Efb. subst f.
      destruct (document_reachable host base) eqn:Ed.
      * split; [discriminate | intros [[_ H] _]; discriminate].
      * split; [|reflexivity]. intros _. split; [now split|].
        intros f [= <-]. rewrite <- document_reachable_false. now split.
    + destruct (_is_browse_mode_obj host f) eqn:Ebf.
      { split; [discriminate|]. intros [_ H].
        destruct (H f eq_refl) as [H' _]. congruence. }
      destruct (document_reachable host base) eqn:Ed.
      { split; [discriminate | intros [[_ H] _]; discriminate]. }
      split.
      * intros Hf. split; [now split|]. intros f' [= <-].
        rewrite <- document_reachable_false. now split.
      * intros [_ H]. destruct (H f eq_refl) as [_ H'].
        now apply document_reachable_false.
  - destruct (document_reachable host base) eqn:Ed.
    + split; [discriminate | intros [[_ H] _]; discriminate].
    + split; [|reflexivity]. intros _. split; [now split|]. discriminate.
Qed.

(** C7.  When a candidate object is found and neither it nor the focus
    object gives a web signal (no browse-mode tree interceptor, no
    [#document] in the tag chain, no retrievable document URL), the
    web-context check fails and [_build_report], in either mode, returns
    the fixed message with the flag [False] and nothing else, without
    raising. *)
Theorem report_gate_not_web (host : Host) (render_advanced : node -> string -> string)
    (base : node) :
  _get_candidate_object host = Some base ->
  no_web_context host base ->
  _is_web_context host (Some base) = false
  /\ forall advanced,
       _build_report host render_advanced advanced
       = Ok (translate host msg_not_applicable, false).
Proof.
  intros Hc Hn. apply is_web_context_false_iff in Hn.
  split; [exact Hn|]. intros advanced.
  unfold _build_report. now rewrite Hc, Hn.
Qed.

Lemma report_gate_not_web_witness :
  _get_candidate_object (sample_host [blank_object] (Some 0)) = Some 0
  /\ no_web_context (sample_host [blank_object] (Some 0)) 0
  /\ _build_report (sample_host [blank_object] (Some 0)) (fun _ s => s) false
     = Ok (msg_not_applicable, false).
Proof.
  assert (Hc : _get_candidate_object (sample_host [blank_object] (Some 0)) = Some 0)
    by reflexivity.
  assert (Hn : no_web_context (sample_host [blank_object] (Some 0)) 0).
  { split; [repeat split | intros f H; discriminate H]. }
  split; [exact Hc | split; [exact Hn|]].
  exact (proj2 (report_gate_not_web (sample_host [blank_object] (Some 0))
                  (fun _ s => s) 0 Hc Hn) false).
Defined.

(** ** The Report Formatter: key order *)

Lemma string_leb_trans (a b c : string) :
  String.leb a b = true -> String.leb b c = true -> String.leb a c = true.
Proof.
  unfold String.leb. revert b c.
  induction a as [|x a IH]; intros [|y b] [|z c]; simpl;
    try reflexivity; try discriminate.
  unfold Ascii.compare.
  destruct (N.compare_spec (N_of_ascii x) (N_of_ascii y)) as [Exy|Lxy|Gxy];
    destruct (N.compare_spec (N_of_ascii y) (N_of_ascii z)) as [Eyz|Lyz|Gyz];
    destruct (N.compare_spec (N_of_ascii x) (N_of_ascii z)) as [Exz|Lxz|Gxz];
    try lia; try discriminate; try reflexivity.
  apply IH.
Qed.

Lemma key_le_total (a b : string) : key_le a b = true \/ key_le b a = true.
Proof. apply String.leb_total. Qed.

Lemma key_le_trans (a b c : string) :
  key_le a b = true -> key_le b c = true -> key_le a c = true.
Proof. apply string_leb_trans. Qed.

Lemma key_le_antisym (a b : string) :
  key_le a b = true -> key_le b a = true -> lower a = lower b.
Proof. apply String.leb_antisym. Qed.

Lemma insert_by_key_perm (x : string) (l : list string) :
  Permutation (insert_by_key x l) (x :: l).
Proof.
  induction l as [|y l IH]; simpl; [reflexivity|].
  destruct (key_le x y); [reflexivity|].
  rewrite IH. apply perm_swap.
Qed.

Lemma sorted_by_key_perm (l : list string) : Permutation (sorted_by_key l) l.
Proof.
  induction l as [|x l IH]; simpl; [reflexivity|].
  rewrite insert_by_key_perm. now constructor.
Qed.

Lemma insert_by_key_sorted (x : string) (l : list string) :
  StronglySorted (fun a b => key_le a b = true) l ->
  StronglySorted (fun a b => key_le a b = true) (insert_by_key x l).
Proof.
  induction 1 as [|y l Hs IH Hy]; simpl.
  - constructor; constructor.
  - destruct (key_le x y) eqn:E.
    + constructor; [now constructor|].
      constructor; [exact E|].
      eapply Forall_impl; [|exact Hy]. intros z Hz. simpl in Hz.
      eapply key_le_trans; eassumption.
    + constructor; [exact IH|].
      apply Forall_forall. intros z Hz.
      apply (Permutation_in _ (insert_by_key_perm x l)) in Hz.
      destruct Hz as [<- | Hz].
      * destruct (key_le_total x y); congruence.
      * rewrite Forall_forall in Hy. auto.
Qed.

Lemma sorted_by_key_sorted (l : list string) :
  StronglySorted (fun a b => key_le a b = true) (sorted_by_key l).
Proof.
  induction l as [|x l IH]; simpl; [constructor|].
  now apply insert_by_key_sorted.
Qed.

(** What the second loop of [_ordered_params] appends to [acc]. *)
Lemma fold_add_unseen_spec (l : list string) :
  forall acc, NoDup acc ->
    exists rest,
      fold_left add_unseen l acc = acc ++ rest
      /\ NoDup (acc ++ rest)
      /\ (forall k, In k rest <-> In k l /\ ~ In k acc)
      /\ (forall R : string -> string -> Prop,
             StronglySorted R l -> StronglySorted R rest).
Proof.
  induction l as [|x l IH]; intros acc Hacc; simpl.
  - exists []. rewrite app_nil_r.
    split; [reflexivity | split; [assumption | split]].
    + intros k. split; [intros [] | intros [[] _]].
    + intros R _. constructor.
  - unfold add_unseen at 2. destruct (str_in x acc) eqn:E.
    + apply str_in_iff in E.
      destruct (IH acc Hacc) as (rest & Heq & Hnd & Hin & Hs).
      exists rest. split; [assumption | split; [assumption | split]].
      * intros k. rewrite Hin. split; [tauto|].
        intros [[<- | Hk] Hn]; [contradiction | tauto].
      * intros R HR. inversion HR; subst. auto.
    + apply str_in_false_iff in E.
      assert (Hacc' : NoDup (acc ++ [x])).
      { apply NoDup_app; [assumption | repeat constructor; intros [] |].
        intros y Hy [<- | []]. contradiction. }
      destruct (IH (acc ++ [x]) Hacc') as (rest & Heq & Hnd & Hin & Hs).
      exists (x :: rest). rewrite Heq, <- !app_assoc in *. simpl in *.
      split; [reflexivity | split; [assumption | split]].
      * intros k. split.
        -- intros [<- | Hk]; [split; [now left | assumption]|].
           apply Hin in Hk. destruct Hk as [Hk Hn]. split; [now right|].
           intros Hc. apply Hn, in_or_app. now left.
        -- intros [[<- | Hk] Hn]; [now left|].
           destruct (string_dec x k) as [<- | Hne]; [now left|]. right.
           apply Hin. split; [assumption|]. intros Hc.
           apply in_app_or in Hc. destruct Hc as [Hc | [Hc | []]]; congruence.
      * intros R HR. inversion HR as [|? ? HR' Hx]; subst.
        constructor; [auto|].
        apply Forall_forall. intros z Hz. apply Hin in Hz.
        rewrite Forall_forall in Hx. apply Hx. tauto.
Qed.

Lemma preferred_nodup : NoDup preferred.
Proof.
  assert (H : nodup string_dec preferred = preferred) by (vm_compute; reflexivity).
  rewrite <- H. apply NoDup_nodup.
Qed.

(** The first loop of [_ordered_params] keeps the preferred keys that the
    mapping holds, in the order of the preference list. *)
Lemma preferred_pass (attrs : Dict.t) (l : list string) :
  forall acc, NoDup l -> (forall k, In k l -> ~ In k acc) ->
    fold_left (fun keys k => if Dict.mem attrs k then add_unseen keys k else keys)
              l acc
    = acc ++ filter (Dict.mem attrs) l.
Proof.
  induction l as [|x l IH]; intros acc Hnd Hdis; simpl.
  - now rewrite app_nil_r.
  - inversion Hnd as [|? ? Hx Hl]; subst.
    destruct (Dict.mem attrs x).
    + unfold add_unseen.
      assert (E : str_in x acc = false).
      { apply str_in_false_iff. apply Hdis. now left. }
      rewrite E, IH; [now rewrite <- app_assoc | assumption |].
      intros k Hk Hc. apply in_app_or in Hc.
      destruct Hc as [Hc | [<- | []]]; [|contradiction].
      apply (Hdis k); [now right | assumption].
    + apply IH; [assumption|]. intros k Hk. apply Hdis. now right.
Qed.

Lemma ordered_params_shape (tag_name : string) (attrs : Dict.t) :
  exists rest,
    _ordered_params tag_name attrs = filter (Dict.mem attrs) preferred ++ rest
    /\ NoDup (_ordered_params tag_name attrs)
    /\ (forall k, In k rest <-> In k (Dict.keys attrs) /\ ~ In k preferred)
    /\ StronglySorted (fun a b => key_le a b = true) rest.
Proof.
  unfold _ordered_params.
  rewrite (preferred_pass attrs preferred [] preferred_nodup)
    by (intros k _ []).
  rewrite app_nil_l.
  assert (Hpre : NoDup (filter (Dict.mem attrs) preferred))
    by (apply NoDup_filter, preferred_nodup).
  destruct (fold_add_unseen_spec (sorted_by_key (Dict.keys attrs)) _ Hpre)
    as (rest & Heq & Hnd & Hin & Hs).
  exists rest. rewrite Heq.
  split; [reflexivity | split; [assumption | split]].
  - intros k. rewrite Hin. rewrite filter_In.
    split.
    + intros [Hk Hn]. apply (Permutation_in _ (sorted_by_key_perm _)) in Hk.
      split; [assumption|]. intros Hp. apply Hn. split; [assumption|].
      now apply dict_mem_keys.
    + intros [Hk Hn]. split; [|tauto].
      apply (Permutation_in _ (Permutation_sym (sorted_by_key_perm _))).
      assumption.
  - apply Hs, sorted_by_key_sorted.
Qed.

Lemma ordered_params_in (tag_name : string) (attrs : Dict.t) (k : string) :
  In k (_ordered_params tag_name attrs) <-> In k (Dict.keys attrs).
Proof.
  destruct (ordered_params_shape tag_name attrs) as (rest & Heq & _ & Hin & _).
  rewrite Heq, in_app_iff, filter_In, Hin, dict_mem_keys.
  destruct (in_dec string_dec k preferred); tauto.
Qed.

Lemma ordered_params_nodup (tag_name : string) (attrs : Dict.t) :
  NoDup (_ordered_params tag_name attrs).
Proof.
  destruct (ordered_params_shape tag_name attrs) as (rest & _ & H & _). exact H.
Qed.

(** A list sorted for an order that is antisymmetric on its members is
    the only sorted arrangement of those members. *)
Lemma sorted_perm_unique (R : string -> string -> Prop) (l1 : list string) :
  forall l2,
    Permutation l1 l2 ->
    StronglySorted R l1 -> StronglySorted R l2 ->
    (forall x y, In x l1 -> In y l1 -> R x y -> R y x -> x = y) ->
    l1 = l2.
Proof.
  induction l1 as [|a l1 IH]; intros l2 Hp H1 H2 Ha.
  - apply Permutation_nil in Hp. now subst.
  - destruct l2 as [|b l2].
    { apply Permutation_sym, Permutation_nil in Hp. discriminate. }
    inversion H1 as [|? ? H1' Hfa]; subst.
    inversion H2 as [|? ? H2' Hfb]; subst.
    rewrite Forall_forall in Hfa, Hfb.
    assert (Eab : a = b).
    { assert (Hb : In b (a :: l1))
        by (apply (Permutation_in _ (Permutation_sym Hp)); now left).
      assert (Ha' : In a (b :: l2))
        by (apply (Permutation_in _ Hp); now left).
      destruct Hb as [Hb | Hb]; [assumption|].
      destruct Ha' as [Ha' | Ha']; [now symmetry|].
      apply Ha; [now left | now right | auto | auto]. }
    subst b. f_equal. apply IH; try assumption.
    + eapply Permutation_cons_inv; eassumption.
    + intros x y Hx Hy. apply Ha; now right.
Qed.

(** ** Entries and lines *)

Lemma has_char_app (c : ascii) (a b : string) :
  has_char c (a ++ b)%string = has_char c a || has_char c b.
Proof.
  induction a as [|x a IH]; simpl; [reflexivity|].
  now rewrite IH, orb_assoc.
Qed.

Lemma upper_char_nl (c : ascii) : Ascii.eqb nl (upper_char c) = Ascii.eqb nl c.
Proof. destruct c as [[] [] [] [] [] [] [] []]; vm_compute; reflexivity. Qed.

Lemma has_char_upper (s : string) : has_char nl (upper s) = has_char nl s.
Proof.
  induction s as [|c s IH]; [reflexivity|].
  unfold upper in *. cbn [smap has_char]. now rewrite upper_char_nl, IH.
Qed.

Lemma has_char_uint (u : Decimal.uint) :
  has_char nl (NilEmpty.string_of_uint u) = false.
Proof. induction u; simpl; auto. Qed.

Lemma has_char_lstrip (c : ascii) (s : string) :
  has_char c s = false -> has_char c (lstrip s) = false.
Proof.
  induction s as [|x s IH]; simpl; [reflexivity|].
  intros H. apply orb_false_iff in H. destruct H as [H1 H2].
  destruct (is_space x); [auto|]. simpl. now rewrite H1, H2.
Qed.

Lemma has_char_rstrip (c : ascii) (s : string) :
  has_char c s = false -> has_char c (rstrip s) = false.
Proof.
  induction s as [|x s IH]; simpl; [reflexivity|].
  intros H. apply orb_false_iff in H. destruct H as [H1 H2].
  destruct (is_space x && negb (nonempty (rstrip s))); [reflexivity|].
  simpl. now rewrite H1, IH.
Qed.

Lemma has_char_strip (c : ascii) (s : string) :
  has_char c s = false -> has_char c (strip s) = false.
Proof. intros H. unfold strip. now apply has_char_rstrip, has_char_lstrip. Qed.

Lemma split_char_none (c : ascii) (s : string) :
  has_char c s = false -> split_char c s = [s].
Proof.
  induction s as [|x s IH]; simpl; [reflexivity|].
  intros H. apply orb_false_iff in H. destruct H as [H1 H2].
  rewrite Ascii.eqb_sym, H1. now rewrite IH.
Qed.

Lemma split_char_app (c : ascii) (a b : string) :
  has_char c a = false ->
  split_char c (a ++ String c b)%string = a :: split_char c b.
Proof.
  induction a as [|x a IH]; simpl.
  - intros _. now rewrite Ascii.eqb_refl.
  - intros H. apply orb_false_iff in H. destruct H as [H1 H2].
    rewrite Ascii.eqb_sym, H1. now rewrite IH.
Qed.

(** Entries without a line break are the lines of their join. *)
Lemma split_join_lines (l : list string) :
  l <> [] -> Forall (fun x => has_char nl x = false) l ->
  split_char nl (join newline l) = l.
Proof.
  induction l as [|x l IH]; [congruence|]. intros _ H.
  inversion H as [|? ? Hx Hl]; subst.
  destruct l as [|y l].
  - simpl. now apply split_char_none.
  - change (join newline (x :: y :: l))
      with (x ++ String nl (join newline (y :: l)))%string.
    rewrite split_char_app by assumption.
    f_equal. apply IH; [discriminate | assumption].
Qed.

(** ** The Report Formatter: tag blocks *)

Lemma dict_in_get_wf (d : Dict.t) (k v : string) :
  Dict.wf d -> In (k, v) d -> Dict.get d k = Some v.
Proof.
  unfold Dict.wf, Dict.keys. induction d as [|[k0 v0] d IH]; simpl; [tauto|].
  intros Hnd [H | H]; inversion Hnd as [|? ? Hk0 Hd]; subst.
  - inversion H; subst. now rewrite String.eqb_refl.
  - destruct (String.eqb k k0) eqn:E; [|auto].
    apply String.eqb_eq in E. subst k0. exfalso. apply Hk0.
    apply in_map_iff. now exists (k, v).
Qed.

Lemma filter_length_perm {A : Type} (p : A -> bool) (l l' : list A) :
  Permutation l l' -> List.length (filter p l) = List.length (filter p l').
Proof.
  induction 1 as [|x l l' _ IH|x y l|l l' l'' _ IH1 _ IH2]; simpl.
  - reflexivity.
  - destruct (p x); simpl; congruence.
  - destruct (p x), (p y); reflexivity.
  - congruence.
Qed.

(** The test of [_format_tag_block] on a key: its trimmed value is not
    empty. *)
Lemma block_pairs_filter (tag_name : string) (attrs : Dict.t) :
  block_pairs tag_name attrs
  = map (fun k => (k, strip (Dict.get_or attrs k EmptyString)))
        (filter (fun k => nonempty (strip (Dict.get_or attrs k EmptyString)))
                (_ordered_params tag_name attrs)).
Proof.
  unfold block_pairs. induction (_ordered_params tag_name attrs) as [|k l IH];
    simpl; [reflexivity|].
  destruct (nonempty (strip (Dict.get_or attrs k EmptyString))); simpl;
    now rewrite IH.
Qed.

Lemma keys_filter_length (attrs : Dict.t) :
  Dict.wf attrs ->
  List.length (filter (fun k => nonempty (strip (Dict.get_or attrs k EmptyString)))
                      (Dict.keys attrs))
  = List.length (filter (fun kv => nonempty (strip (snd kv))) attrs).
Proof.
  intros Hwf.
  assert (H : forall l, (forall kv, In kv l -> In kv attrs) ->
              List.length (filter (fun k => nonempty (strip (Dict.get_or attrs k EmptyString)))
                                  (map fst l))
              = List.length (filter (fun kv => nonempty (strip (snd kv))) l)).
  { induction l as [|[k v] l IH]; intros Hl; simpl; [reflexivity|].
    unfold Dict.get_or at 1.
    rewrite (dict_in_get_wf attrs k v Hwf) by (apply Hl; now left). simpl.
    destruct (nonempty (strip v)); simpl; rewrite IH; auto;
      intros kv Hkv; apply Hl; now right. }
  apply (H attrs). auto.
Qed.

Lemma block_pairs_spec (tag_name : string) (attrs : Dict.t) (k v : string) :
  Dict.wf attrs ->
  (In (k, v) (block_pairs tag_name attrs) <->
   exists raw, In (k, raw) attrs /\ v = strip raw /\ v <> EmptyString).
Proof.
  intros Hwf. rewrite block_pairs_filter, in_map_iff. split.
  - intros (k0 & E & Hk0). inversion E; subst. clear E.
    apply filter_In in Hk0. destruct Hk0 as [Hk Hv].
    apply ordered_params_in, dict_mem_keys, dict_mem_get in Hk.
    destruct Hk as (raw & Hraw). unfold Dict.get_or in *. rewrite Hraw in *.
    exists raw. split; [now apply dict_get_in | split; [reflexivity|]].
    now apply nonempty_true_iff.
  - intros (raw & Hin & -> & Hne).
    pose proof (dict_in_get_wf attrs k raw Hwf Hin) as Hg.
    exists k. unfold Dict.get_or. rewrite Hg. split; [reflexivity|].
    apply filter_In. split.
    + apply ordered_params_in, dict_mem_keys, dict_mem_get. now exists raw.
    + rewrite Hg. now apply nonempty_true_iff.
Qed.

(** C8 (amended).  The block of [_format_tag_block] is the join of: an
    empty entry, the header [Tag TAG has N parameters:] with the tag in
    upper case, one [key=value] entry per pair, an empty entry.  The count
    [N] of the header is the number of those [key=value] entries, which is
    the number of keys of the mapping whose trimmed value is not empty:
    each such key gives exactly one entry, with its trimmed value, and a
    key whose trimmed value is empty gives none.  The entries are the
    lines of the block when neither the tag nor a key nor a value holds a
    line break. *)
Theorem format_tag_block_count (tag_name : string) (attrs : Dict.t) :
  Dict.wf attrs ->
  let pairs := block_pairs tag_name attrs in
  _format_tag_block tag_name attrs
  = join newline
      ([EmptyString;
        ("Tag " ++ upper tag_name ++ " has "
           ++ str_of_nat (List.length (map pair_line pairs))
           ++ " parameters:")%string]
         ++ map pair_line pairs ++ [EmptyString])
  /\ List.length (map pair_line pairs)
     = List.length (filter (fun kv => nonempty (strip (snd kv))) attrs)
  /\ NoDup (map fst pairs)
  /\ (forall k v, In (k, v) pairs <->
                  exists raw, In (k, raw) attrs /\ v = strip raw
                              /\ v <> EmptyString)
  /\ (has_char nl tag_name = false ->
      Forall (fun kv => has_char nl (fst kv) = false
                        /\ has_char nl (snd kv) = false) attrs ->
      split_char nl (_format_tag_block tag_name attrs)
      = [EmptyString;
         ("Tag " ++ upper tag_name ++ " has "
            ++ str_of_nat (List.length (map pair_line pairs))
            ++ " parameters:")%string]
          ++ map pair_line pairs ++ [EmptyString]).
Proof.
  intros Hwf pairs. subst pairs.
  assert (Hblock :
            _format_tag_block tag_name attrs
            = join newline
                ([EmptyString;
                  ("Tag " ++ upper tag_name ++ " has "
                     ++ str_of_nat (List.length
                                      (map pair_line (block_pairs tag_name attrs)))
                     ++ " parameters:")%string]
                   ++ map pair_line (block_pairs tag_name attrs) ++ [EmptyString])).
  { unfold _format_tag_block, block_lines, block_header. now rewrite length_map. }
  split; [exact Hblock | split; [|split; [|split]]].
  - rewrite length_map, block_pairs_filter, length_map.
    rewrite (filter_length_perm _ _ (Dict.keys attrs)).
    + now apply keys_filter_length.
    + apply NoDup_Permutation;
        [apply ordered_params_nodup | exact Hwf | apply ordered_params_in].
  - rewrite block_pairs_filter, map_map. simpl. rewrite map_id.
    apply NoDup_filter, ordered_params_nodup.
  - intros k v. now apply block_pairs_spec.
  - intros Htag Hattrs. rewrite Hblock. apply split_join_lines; [discriminate|].
    rewrite Forall_forall in Hattrs.
    constructor; [reflexivity|]. constructor.
    + rewrite !has_char_app, has_char_upper, Htag.
      unfold str_of_nat. rewrite has_char_uint. reflexivity.
    + apply Forall_app. split; [|constructor; [reflexivity | constructor]].
      apply Forall_forall. intros x Hx. apply in_map_iff in Hx.
      destruct Hx as ([k v] & <- & Hkv).
      apply (block_pairs_spec tag_name attrs k v Hwf) in Hkv.
      destruct Hkv as (raw & Hin & -> & _).
      destruct (Hattrs _ Hin) as [Hk Hv]. simpl in Hk, Hv.
      unfold pair_line. cbn [fst snd]. rewrite !has_char_app, Hk.
      rewrite (has_char_strip nl raw Hv). reflexivity.
Qed.

Lemma format_tag_block_count_witness :
  Dict.wf [("id", "main"); ("tag", "div"); ("accessible-name", " "); ("class", "box")]
  /\ _format_tag_block "div"
       [("id", "main"); ("tag", "div"); ("accessible-name", " "); ("class", "box")]
     = join newline
         [EmptyString; "Tag DIV has 3 parameters:";
          "tag=div"; "id=main"; "class=box"; EmptyString].
Proof.
  assert (Hwf : Dict.wf [("id", "main"); ("tag", "div");
                         ("accessible-name", " "); ("class", "box")]).
  { repeat constructor; simpl; intuition discriminate. }
  split; [exact Hwf|].
  pose proof (proj1 (format_tag_block_count "div" _ Hwf)) as H.
  vm_compute in H. vm_compute. exact H.
Defined.

(** C8, as stated, fails: a value with an inner line break is one entry
    of the block, counted once by the header, and two lines of its text,
    the second of which reads as a [key=value] line of its own. *)
Lemma format_tag_block_multiline_value :
  Dict.wf [("accessible-name", ("a" ++ newline ++ "b=c")%string)]
  /\ split_char nl
       (_format_tag_block "div"
          [("accessible-name", ("a" ++ newline ++ "b=c")%string)])
     = [EmptyString; "Tag DIV has 1 parameters:";
        "accessible-name=a"; "b=c"; EmptyString]
  /\ List.length
       (filter (fun kv => nonempty (strip (snd kv)))
               [("accessible-name", ("a" ++ newline ++ "b=c")%string)]) = 1.
Proof.
  split; [|split].
  - repeat constructor; simpl; intuition discriminate.
  - vm_compute. reflexivity.
  - vm_compute. reflexivity.
Qed.

(** ** The key order: ties and rendered blocks *)

(** Inserting a key does not move the keys of its own class (the keys
    with the same lower-cased form): it goes in front of them. *)
Lemma insert_by_key_class (x : string) (l : list string) (c : string) :
  filter (fun k => String.eqb (lower k) c) (insert_by_key x l)
  = if String.eqb (lower x) c
    then x :: filter (fun k => String.eqb (lower k) c) l
    else filter (fun k => String.eqb (lower k) c) l.
Proof.
  induction l as [|y l IH]; cbn [insert_by_key].
  - cbn [filter]. now destruct (String.eqb (lower x) c).
  - destruct (key_le x y) eqn:E.
    + cbn [filter]. now destruct (String.eqb (lower x) c).
    + cbn [filter]. rewrite IH.
      destruct (String.eqb (lower x) c) eqn:Ex; [|reflexivity].
      destruct (String.eqb (lower y) c) eqn:Ey; [|reflexivity].
      apply String.eqb_eq in Ex, Ey. exfalso.
      destruct (key_le_total x x) as [H | H];
        unfold key_le in *; rewrite Ey, <- Ex in E; congruence.
Qed.

(** The sort is stable: the keys of one class stay in the order in
    which they came. *)
Lemma sorted_by_key_stable (l : list string) (c : string) :
  filter (fun k => String.eqb (lower k) c) (sorted_by_key l)
  = filter (fun k => String.eqb (lower k) c) l.
Proof.
  induction l as [|x l IH]; [reflexivity|].
  cbn [sorted_by_key filter]. rewrite insert_by_key_class, IH.
  now destruct (String.eqb (lower x) c).
Qed.

Lemma fold_add_unseen_nodup (l : list string) :
  NoDup l ->
  forall acc,
    fold_left add_unseen l acc
    = acc ++ filter (fun k => negb (str_in k acc)) l.
Proof.
  induction 1 as [|x l Hx _ IH]; intros acc; cbn [fold_left filter].
  - now rewrite app_nil_r.
  - unfold add_unseen at 2. destruct (str_in x acc) eqn:E; cbn [negb].
    + apply IH.
    + rewrite IH, <- app_assoc. cbn [app]. do 2 f_equal.
      apply filter_ext_in. intros k Hk. f_equal.
      unfold str_in. rewrite existsb_app. cbn [existsb].
      destruct (String.eqb k x) eqn:Ek; [|now rewrite !orb_false_r].
      apply String.eqb_eq in Ek. subst. contradiction.
Qed.

Lemma filter_filter_comm {A : Type} (p q : A -> bool) (l : list A) :
  filter p (filter q l) = filter (fun x => p x && q x) l.
Proof.
  induction l as [|x l IH]; cbn [filter]; [reflexivity|].
  destruct (q x); cbn [filter]; rewrite IH; destruct (p x);
    cbn [andb]; reflexivity.
Qed.

(** The list of [_ordered_params] for a dictionary. *)
Lemma ordered_params_wf (tag_name : string) (attrs : Dict.t) :
  Dict.wf attrs ->
  _ordered_params tag_name attrs
  = filter (Dict.mem attrs) preferred
      ++ filter (fun k => negb (str_in k preferred))
                (sorted_by_key (Dict.keys attrs)).
Proof.
  intros Hwf. unfold _ordered_params.
  rewrite (preferred_pass attrs preferred [] preferred_nodup)
    by (intros k _ []).
  rewrite app_nil_l.
  rewrite fold_add_unseen_nodup.
  - f_equal. apply filter_ext_in. intros k Hk. f_equal.
    apply (Permutation_in _ (sorted_by_key_perm _)) in Hk.
    apply dict_mem_keys in Hk.
    destruct (str_in k preferred) eqn:E.
    + apply str_in_iff. apply filter_In. split; [now apply str_in_iff | exact Hk].
    + apply str_in_false_iff. intros Hin. apply filter_In in Hin as [Hin _].
      apply str_in_iff in Hin. congruence.
  - eapply Permutation_NoDup; [|exact Hwf].
    apply Permutation_sym, sorted_by_key_perm.
Qed.

Lemma ordered_params_ties (tag_name : string) (attrs : Dict.t) (c : string) :
  Dict.wf attrs ->
  filter (fun k => String.eqb (lower k) c)
         (filter (fun k => negb (str_in k preferred))
                 (sorted_by_key (Dict.keys attrs)))
  = filter (fun k => String.eqb (lower k) c && negb (str_in k preferred))
           (Dict.keys attrs).
Proof.
  intros _.
  transitivity (filter (fun k => negb (str_in k preferred))
                  (filter (fun k => String.eqb (lower k) c)
                          (sorted_by_key (Dict.keys attrs)))).
  - rewrite !filter_filter_comm. apply filter_ext. intros k. apply andb_comm.
  - rewrite sorted_by_key_stable, filter_filter_comm.
    apply filter_ext. intros k. apply andb_comm.
Qed.

(** C9 (amended).  [_ordered_params] lists every key of the mapping once
    and nothing else: the preferred keys the mapping holds come first, in
    the order of the preference list, and the other keys follow, sorted by
    their lower-cased form; keys with the same lower-cased form stay in
    the order in which the mapping holds them.  Two mappings with the
    same keys get the same list whenever no two different keys outside
    the preference list have the same lower-cased form.  A rendered block
    has one entry for each key whose trimmed value is not empty, in the
    order of that list, and no entry for the other keys. *)
Theorem ordered_params_order (tag_name tag_name' : string) (attrs attrs' : Dict.t) :
  let keys := _ordered_params tag_name attrs in
  NoDup keys
  /\ (forall k, In k keys <-> In k (Dict.keys attrs))
  /\ (Dict.wf attrs -> Permutation keys (Dict.keys attrs))
  /\ (exists rest,
         keys = filter (Dict.mem attrs) preferred ++ rest
         /\ (forall k, In k rest -> ~ In k preferred)
         /\ StronglySorted (fun a b => key_le a b = true) rest
         /\ (Dict.wf attrs ->
             forall c,
               filter (fun k => String.eqb (lower k) c) rest
               = filter (fun k => String.eqb (lower k) c
                                  && negb (str_in k preferred))
                        (Dict.keys attrs)))
  /\ ((forall k, In k (Dict.keys attrs) <-> In k (Dict.keys attrs')) ->
      (forall k k', In k (Dict.keys attrs) -> In k' (Dict.keys attrs) ->
                    ~ In k preferred -> ~ In k' preferred ->
                    lower k = lower k' -> k = k') ->
      _ordered_params tag_name' attrs' = keys)
  /\ map fst (block_pairs tag_name attrs)
     = filter (fun k => nonempty (strip (Dict.get_or attrs k EmptyString))) keys
  /\ NoDup (map fst (block_pairs tag_name attrs))
  /\ (forall k, In k (map fst (block_pairs tag_name attrs)) <->
                exists raw, Dict.get attrs k = Some raw
                            /\ strip raw <> EmptyString).
Proof.
  cbv zeta.
  assert (Hblock : map fst (block_pairs tag_name attrs)
                   = filter (fun k => nonempty (strip (Dict.get_or attrs k EmptyString)))
                            (_ordered_params tag_name attrs)).
  { rewrite block_pairs_filter, map_map. cbn [fst]. apply map_id. }
  split; [apply ordered_params_nodup|].
  split; [apply ordered_params_in|].
  split.
  { intros Hwf. apply NoDup_Permutation;
      [apply ordered_params_nodup | exact Hwf | apply ordered_params_in]. }
  destruct (ordered_params_shape tag_name attrs) as (rest & Heq & Hnd & Hin & Hs).
  split.
  { exists rest. split; [exact Heq|]. split; [|split; [exact Hs|]].
    - intros k Hk. apply Hin in Hk. tauto.
    - intros Hwf c. rewrite (ordered_params_wf tag_name attrs Hwf) in Heq.
      apply app_inv_head in Heq. rewrite <- Heq.
      now apply ordered_params_ties. }
  split.
  { intros Hsame Hinj.
    destruct (ordered_params_shape tag_name' attrs')
      as (rest' & Heq' & Hnd' & Hin' & Hs').
    rewrite Heq, Heq'.
    assert (Hf : filter (Dict.mem attrs') preferred
                 = filter (Dict.mem attrs) preferred).
    { apply filter_ext. intros k.
      destruct (Dict.mem attrs k) eqn:E.
      - apply dict_mem_keys. apply Hsame. now apply dict_mem_keys.
      - destruct (Dict.mem attrs' k) eqn:E'; [|reflexivity].
        apply dict_mem_keys, Hsame, dict_mem_keys in E'. congruence. }
    rewrite Hf. f_equal.
    rewrite Heq in Hnd. rewrite Heq' in Hnd'.
    apply NoDup_app_remove_l in Hnd, Hnd'.
    apply (sorted_perm_unique (fun a b => key_le a b = true)); try assumption.
    - apply NoDup_Permutation; try assumption.
      intros k. rewrite Hin, Hin', Hsame. tauto.
    - intros x y Hx Hy Hxy Hyx. apply Hin' in Hx, Hy.
      destruct Hx as [Hx Hxp], Hy as [Hy Hyp].
      apply Hsame in Hx, Hy.
      apply Hinj; try assumption. now apply key_le_antisym. }
  split; [exact Hblock|].
  split.
  { rewrite Hblock. apply NoDup_filter, ordered_params_nodup. }
  intros k. rewrite Hblock, filter_In, ordered_params_in.
  rewrite <- dict_mem_keys, dict_mem_get. unfold Dict.get_or. split.
  - intros [(raw & Hraw) Hne]. rewrite Hraw in Hne. exists raw.
    split; [exact Hraw | now apply nonempty_true_iff].
  - intros (raw & Hraw & Hne). split; [now exists raw|].
    rewrite Hraw. now apply nonempty_true_iff.
Qed.

(** C9, as stated, fails: two mappings with the same two keys, entered in
    opposite orders, are listed differently, because the keys differ only
    in case and the stable sort keeps them in insertion order. *)
Lemma ordered_params_depends_on_insertion_order :
  Dict.wf [("Foo", "1"); ("FOO", "2")]
  /\ Dict.wf [("FOO", "2"); ("Foo", "1")]
  /\ (forall k, In k (Dict.keys [("Foo", "1"); ("FOO", "2")])
                <-> In k (Dict.keys [("FOO", "2"); ("Foo", "1")]))
  /\ _ordered_params "div" [("Foo", "1"); ("FOO", "2")] = ["Foo"; "FOO"]
  /\ _ordered_params "div" [("FOO", "2"); ("Foo", "1")] = ["FOO"; "Foo"]
  /\ _ordered_params "div" [("Foo", "1"); ("FOO", "2")]
     <> _ordered_params "div" [("FOO", "2"); ("Foo", "1")].
Proof.
  split; [|split; [|split; [|split; [|split]]]].
  - repeat constructor; simpl; intuition discriminate.
  - repeat constructor; simpl; intuition discriminate.
  - intros k. simpl. tauto.
  - vm_compute. reflexivity.
  - vm_compute. reflexivity.
  - vm_compute. discriminate.
Qed.

(** The amended statement at a concrete pair of mappings. *)
Lemma ordered_params_order_witness :
  _ordered_params "a" [("zeta", "1"); ("href", "u"); ("Alpha", "2"); ("tag", "a")]
  = ["tag"; "href"; "Alpha"; "zeta"]
  /\ _ordered_params "a" [("tag", "a"); ("Alpha", "2"); ("zeta", "1"); ("href", "u")]
     = _ordered_params "a" [("zeta", "1"); ("href", "u"); ("Alpha", "2"); ("tag", "a")].
Proof.
  split; [vm_compute; reflexivity|].
  destruct (ordered_params_order "a" "a"
              [("zeta", "1"); ("href", "u"); ("Alpha", "2"); ("tag", "a")]
              [("tag", "a"); ("Alpha", "2"); ("zeta", "1"); ("href", "u")])
    as (_ & _ & _ & _ & Hsame & _).
  apply Hsame.
  - intros k. simpl. tauto.
  - intros k k' Hk Hk' _ _. simpl in Hk, Hk'.
    destruct Hk as [<-|[<-|[<-|[<-|[]]]]], Hk' as [<-|[<-|[<-|[<-|[]]]]];
      vm_compute; intros H; try reflexivity; discriminate H.
Defined.

(** ** The Inference Engine: what each step may change *)

Lemma frame_comp (A1 O1 A2 O2 : list string) (f g : Dict.t -> Dict.t) :
  frame A1 O1 f -> frame A2 O2 g ->
  frame (A1 ++ A2) (O1 ++ O2) (fun d => g (f d)).
Proof.
  intros Hf Hg d k. unfold frame in *.
  destruct (Hg (f d) k) as [E | [[Hk E] | Hk]];
    destruct (Hf d k) as [E' | [[Hk' E'] | Hk']];
    rewrite ?in_app_iff; try (right; right; tauto); try (right; left; tauto).
  - left. congruence.
  - right. left. rewrite <- E'. tauto.
Qed.

Lemma frame_weaken (A O A' O' : list string) (f : Dict.t -> Dict.t) :
  frame A O f -> incl A A' -> incl O O' -> frame A' O' f.
Proof.
  intros Hf HA HO d k. destruct (Hf d k) as [E | [[Hk E] | Hk]]; auto.
Qed.

Lemma frame_id : frame [] [] (fun d => d).
Proof. intros d k. now left. Qed.

(** A key outside the rewritten ones keeps its value. *)
Lemma frame_keeps (A O : list string) (f : Dict.t -> Dict.t) (d : Dict.t)
    (k v : string) :
  frame A O f -> ~ In k O -> Dict.get d k = Some v -> Dict.get (f d) k = Some v.
Proof.
  intros Hf Hk Hv. destruct (Hf d k) as [E | [[_ E] | Hk']]; congruence || tauto.
Qed.

(** A key outside the added and the rewritten ones is not touched. *)
Lemma frame_untouched (A O : list string) (f : Dict.t -> Dict.t) (d : Dict.t)
    (k : string) :
  frame A O f -> ~ In k A -> ~ In k O -> Dict.get (f d) k = Dict.get d k.
Proof.
  intros Hf HA HO. destruct (Hf d k) as [E | [[Hk _] | Hk]]; tauto.
Qed.

Lemma set_absent_cases (d : Dict.t) (k k' v : string) :
  Dict.mem d k' = false ->
  Dict.get (Dict.set d k' v) k = Dict.get d k
  \/ (k = k' /\ Dict.get d k = None).
Proof.
  intros H. destruct (string_dec k k') as [-> | Hne].
  - right. split; [reflexivity | now apply dict_mem_false_get].
  - left. now apply dict_get_set_other.
Qed.

Lemma set_cases (d : Dict.t) (k k' v : string) :
  Dict.get (Dict.set d k' v) k = Dict.get d k \/ k = k'.
Proof.
  destruct (string_dec k k') as [-> | Hne]; [now right|].
  left. now apply dict_get_set_other.
Qed.

Lemma pop_cases (d : Dict.t) (k k' : string) :
  Dict.get (Dict.pop d k') k = Dict.get d k \/ k = k'.
Proof.
  destruct (string_dec k k') as [-> | Hne]; [now right|].
  left. now apply dict_get_pop_other.
Qed.

(** [if k' in d: d else d[k'] = v] *)
Lemma frame_add_if_absent (k' : string) (f : Dict.t -> Dict.t) :
  (forall d, Dict.mem d k' = true -> f d = d) ->
  (forall d, Dict.mem d k' = false -> f d = d \/ exists v, f d = Dict.set d k' v) ->
  frame [k'] [] f.
Proof.
  intros Hin Hout d k. destruct (Dict.mem d k') eqn:E.
  - left. now rewrite Hin.
  - destruct (Hout d E) as [-> | (v & ->)]; [now left|].
    destruct (set_absent_cases d k k' v E) as [H | [-> H]]; [now left|].
    right. left. split; [now left | assumption].
Qed.

(** [d[k'] = v], whether or not the key is there *)
Lemma frame_overwrite (k' : string) (f : Dict.t -> Dict.t) :
  (forall d, f d = d \/ exists v, f d = Dict.set d k' v) ->
  frame [] [k'] f.
Proof.
  intros H d k. destruct (H d) as [-> | (v & ->)]; [now left|].
  destruct (set_cases d k k' v) as [E | ->]; [now left|].
  right. right. now left.
Qed.

(** [d.pop(k', None)] *)
Lemma frame_remove (k' : string) (f : Dict.t -> Dict.t) :
  (forall d, f d = d \/ f d = Dict.pop d k') ->
  frame [] [k'] f.
Proof.
  intros H d k. destruct (H d) as [-> | ->]; [now left|].
  destruct (pop_cases d k k') as [E | ->]; [now left|].
  right. right. now left.
Qed.

Ltac branches :=
  repeat match goal with
         | |- context [if ?c then _ else _] => destruct c
         | |- context [match ?c with Some _ => _ | None => _ end] => destruct c
         end.

Ltac shape :=
  branches;
  first [ left; reflexivity
        | right; eexists; reflexivity
        | right; reflexivity ].

Ltac unchanged H :=
  rewrite ?H; cbn [negb andb orb]; rewrite ?andb_false_r; cbn [negb andb orb];
  branches; reflexivity.

Section StepFrames.

Variable host : Host.
Variable o : node.

Lemma aug_tag_frame : frame ["tag"] [] (aug_tag host o).
Proof.
  apply frame_add_if_absent; intros d H; unfold aug_tag; [unchanged H | shape].
Qed.

Lemma aug_accessible_name_frame :
  frame ["accessible-name"] [] (aug_accessible_name host o).
Proof.
  apply frame_add_if_absent; intros d H; unfold aug_accessible_name;
    [unchanged H | shape].
Qed.

Lemma aug_name_from_frame (c : string) :
  frame [] ["accessible-name-from"] (aug_name_from c).
Proof. apply frame_overwrite. intros d. unfold aug_name_from. shape. Qed.

Lemma aug_explicit_name_frame (c : string) :
  frame [] ["explicit-name-from"] (aug_explicit_name c).
Proof. apply frame_overwrite. intros d. unfold aug_explicit_name. shape. Qed.

Lemma aug_expanded_frame : frame [] ["expanded"] (aug_expanded host o).
Proof. apply frame_overwrite. intros d. unfold aug_expanded. shape. Qed.

Lemma aug_selected_frame : frame ["selected"] [] (aug_selected host o).
Proof.
  apply frame_add_if_absent; intros d H; unfold aug_selected;
    [unchanged H | shape].
Qed.

Lemma aug_checked_frame : frame ["checked"] [] (aug_checked host o).
Proof.
  apply frame_add_if_absent; intros d H; unfold aug_checked;
    [unchanged H | shape].
Qed.

Lemma aug_pop_aria_pressed_frame : frame [] ["aria-pressed"] aug_pop_aria_pressed.
Proof. apply frame_remove. intros d. unfold aug_pop_aria_pressed. shape. Qed.

Lemma aug_pressed_toggle_frame (p : option bool) :
  frame ["pressed"] [] (aug_pressed_toggle host o p).
Proof.
  apply frame_add_if_absent; intros d H; unfold aug_pressed_toggle;
    [unchanged H | shape].
Qed.

Lemma aug_pressed_tab_frame : frame ["pressed"] [] aug_pressed_tab.
Proof.
  apply frame_add_if_absent; intros d H; unfold aug_pressed_tab;
    [unchanged H | shape].
Qed.

Lemma aug_pressed_keep_aria_frame (p : option bool) :
  frame ["pressed"] [] (aug_pressed_keep_aria p).
Proof.
  apply frame_add_if_absent; intros d H; unfold aug_pressed_keep_aria;
    [unchanged H | shape].
Qed.

Lemma aug_pressed_normalize_frame : frame [] ["pressed"] aug_pressed_normalize.
Proof. apply frame_overwrite. intros d. unfold aug_pressed_normalize. shape. Qed.

Lemma aug_pressed_frame :
  frame ["pressed"] ["aria-pressed"; "pressed"] (aug_pressed host o).
Proof.
  intros d k. unfold aug_pressed.
  pose proof
    (frame_comp _ _ _ _ _ _
       (frame_comp _ _ _ _ _ _
          (frame_comp _ _ _ _ _ _
             (frame_comp _ _ _ _ _ _
                aug_pop_aria_pressed_frame
                (aug_pressed_toggle_frame (pressed_from_aria d)))
             aug_pressed_tab_frame)
          (aug_pressed_keep_aria_frame (pressed_from_aria d)))
       aug_pressed_normalize_frame d k) as H.
  simpl in H. cbv zeta. simpl. tauto.
Qed.

Lemma aug_table_cell_frame :
  frame ["colspan"; "rowspan"] [] (aug_table_cell host o).
Proof.
  intros d k. unfold aug_table_cell.
  destruct (str_in (_tag host o) ["td"; "th"]); [|now left].
  set (d1 := if Dict.mem d "colspan" then d else _).
  assert (H1 : Dict.get d1 k = Dict.get d k
               \/ (k = "colspan" /\ Dict.get d k = None)).
  { subst d1. destruct (Dict.mem d "colspan") eqn:E; [now left|].
    now apply set_absent_cases. }
  cbv zeta.
  assert (H2 : Dict.get (if Dict.mem d1 "rowspan" then d1
                         else Dict.set d1 "rowspan"
                                (span_text (rowSpan (obj host o)) (rowspan (obj host o)))) k
               = Dict.get d1 k
               \/ (k = "rowspan" /\ Dict.get d1 k = None)).
  { destruct (Dict.mem d1 "rowspan") eqn:E; [now left|].
    now apply set_absent_cases. }
  destruct H2 as [E2 | [-> E2]]; destruct H1 as [E1 | [E1 E1']].
  - left. congruence.
  - right. left. subst k. split; [now left | assumption].
  - right. left. split; [right; now left | congruence].
  - discriminate.
Qed.

Lemma aug_layout_guess_frame :
  frame ["layout-guess"] [] (aug_layout_guess host o).
Proof.
  apply frame_add_if_absent; intros d H; unfold aug_layout_guess;
    [unchanged H | shape].
Qed.

Lemma aug_tabindex_frame : frame ["tabindex"] [] (aug_tabindex host o).
Proof.
  apply frame_add_if_absent; intros d H; unfold aug_tabindex;
    [unchanged H | shape].
Qed.

Lemma form_checked_frame : frame [] ["checked"] form_checked.
Proof. apply frame_overwrite. intros d. unfold form_checked. shape. Qed.

Lemma form_tooltip_frame : frame ["title"] ["label"] form_tooltip.
Proof.
  intros d k. unfold form_tooltip.
  destruct (String.eqb _ "tooltip" && Dict.mem d "label"
            && negb (Dict.mem d "title")) eqn:E; [|now left].
  apply andb_true_iff in E. destruct E as [_ E].
  apply negb_true_iff in E.
  assert (E' : Dict.mem (Dict.pop d "label") "title" = false)
    by (rewrite dict_mem_pop, E; apply andb_false_r).
  destruct (set_absent_cases _ k "title" (Dict.get_or d "label" EmptyString) E')
    as [H | [-> H]].
  - rewrite H. destruct (pop_cases d k "label") as [H' | ->]; [now left|].
    right. right. now left.
  - right. left. split; [now left|]. now apply dict_mem_false_get.
Qed.

Lemma form_field_frame (t : string) :
  frame ["fsFormField"] ["fsFormField"] (form_field t).
Proof.
  intros d k. unfold form_field.
  set (d1 := if str_in t _ then Dict.pop d "fsFormField" else d).
  assert (H1 : Dict.get d1 k = Dict.get d k \/ k = "fsFormField").
  { subst d1. destruct (str_in t _); [apply pop_cases | now left]. }
  destruct H1 as [H1 | ->]; [|right; right; now left].
  cbv zeta. destruct (Dict.mem d1 "fsFormField") eqn:E; [now left|].
  destruct (_ || _ || _); [|now left].
  destruct (set_absent_cases d1 k "fsFormField" "true" E) as [H | [-> H]].
  - left. congruence.
  - right. right. now left.
Qed.

Lemma form_type_frame (t : string) : frame ["type"] [] (form_type t).
Proof.
  apply frame_add_if_absent; intros d H; unfold form_type; [unchanged H | shape].
Qed.

Lemma form_name_frame (t : string) : frame ["name"] [] (form_name t).
Proof.
  apply frame_add_if_absent; intros d H; unfold form_name; [unchanged H | shape].
Qed.

Lemma form_multiline_frame (t : string) : frame ["multiline"] [] (form_multiline t).
Proof.
  apply frame_add_if_absent; intros d H; unfold form_multiline;
    [unchanged H | shape].
Qed.

Lemma form_required_frame : frame ["required"] [] (form_required host o).
Proof.
  apply frame_add_if_absent; intros d H; unfold form_required;
    [unchanged H | shape].
Qed.

Lemma form_label_frame :
  frame ["label"] ["description"; "title"] (form_label host o).
Proof.
  intros d k. unfold form_label.
  destruct (Dict.mem d "label") eqn:E; [now left|].
  destruct (nonempty (name_of host o) && _).
  { destruct (set_absent_cases d k "label" (name_of host o) E) as [H | [-> H]];
      [now left | right; left; split; [now left | assumption]]. }
  destruct (nonempty (description_of host o)); [|now left].
  destruct (String.eqb _ "aria-describedby").
  { destruct (set_cases d k "description" (description_of host o)) as [H | ->];
      [now left | right; right; now left]. }
  destruct (String.eqb _ "tooltip").
  { destruct (set_cases d k "title" (description_of host o)) as [H | ->];
      [now left | right; right; right; now left]. }
  destruct (set_absent_cases d k "label" (description_of host o) E) as [H | [-> H]];
    [now left | right; left; split; [now left | assumption]].
Qed.

Lemma infer_expanded_for_combobox_frame (chain : list node) :
  frame ["expanded"] [] (_infer_expanded_for_combobox host o chain).
Proof.
  apply frame_add_if_absent; intros d H; unfold _infer_expanded_for_combobox;
    cbv zeta; [unchanged H | shape].
Qed.

Lemma aug_strip_msaa_role_frame : frame [] ["MSAA Role"] aug_strip_msaa_role.
Proof. apply frame_remove. intros d. unfold aug_strip_msaa_role. shape. Qed.

Lemma aug_strip_readonly_frame : frame [] ["readonly"] aug_strip_readonly.
Proof. apply frame_remove. intros d. unfold aug_strip_readonly. shape. Qed.

Lemma aug_describedby_text_frame :
  frame ["describedby-text"] [] aug_describedby_text.
Proof.
  apply frame_add_if_absent; intros d H; unfold aug_describedby_text;
    [unchanged H | shape].
Qed.

(** *** The passes as a whole *)

Ltac frame_chain H :=
  cbn [In app] in H; cbn [In];
  destruct H as [H | [[H H'] | H]];
  [ left; exact H
  | right; left; split; [tauto | exact H']
  | right; right; tauto ].

Lemma augment_states_frame (ia2n : Dict.t) :
  frame ["tag"; "accessible-name"; "selected"; "checked"; "pressed";
         "colspan"; "rowspan"; "layout-guess"; "tabindex"]
        ["accessible-name-from"; "explicit-name-from"; "expanded";
         "aria-pressed"; "pressed"]
        (augment_states host o ia2n).
Proof.
  intros d k. unfold augment_states.
  set (c := computed_from ia2n _).
  pose proof
    (frame_comp _ _ _ _ _ _
    (frame_comp _ _ _ _ _ _
    (frame_comp _ _ _ _ _ _
    (frame_comp _ _ _ _ _ _
    (frame_comp _ _ _ _ _ _
    (frame_comp _ _ _ _ _ _
    (frame_comp _ _ _ _ _ _
    (frame_comp _ _ _ _ _ _
    (frame_comp _ _ _ _ _ _
    (frame_comp _ _ _ _ _ _
       aug_tag_frame aug_accessible_name_frame)
       (aug_name_from_frame c))
       (aug_explicit_name_frame c))
       aug_expanded_frame)
       aug_selected_frame)
       aug_checked_frame)
       aug_pressed_frame)
       aug_table_cell_frame)
       aug_layout_guess_frame)
       aug_tabindex_frame d k) as H.
  cbv zeta. frame_chain H.
Qed.

Lemma infer_form_attrs_frame :
  frame ["title"; "fsFormField"; "type"; "name"; "multiline"; "required"; "label"]
        ["checked"; "label"; "fsFormField"; "description"; "title"]
        (_infer_form_attrs host o).
Proof.
  intros d k. unfold _infer_form_attrs.
  set (t := lower (or_else _ _)).
  pose proof
    (frame_comp _ _ _ _ _ _
    (frame_comp _ _ _ _ _ _
    (frame_comp _ _ _ _ _ _
    (frame_comp _ _ _ _ _ _
    (frame_comp _ _ _ _ _ _
    (frame_comp _ _ _ _ _ _
    (frame_comp _ _ _ _ _ _
       form_checked_frame form_tooltip_frame)
       (form_field_frame t))
       (form_type_frame t))
       (form_name_frame t))
       (form_multiline_frame t))
       form_required_frame)
       form_label_frame d k) as H.
  cbv zeta. frame_chain H.
Qed.

Lemma augment_finish_frame (chain : list node) :
  frame ["title"; "fsFormField"; "type"; "name"; "multiline"; "required";
         "label"; "expanded"; "describedby-text"]
        ["checked"; "label"; "fsFormField"; "description"; "title";
         "MSAA Role"; "readonly"]
        (augment_finish host o chain).
Proof.
  intros d k. unfold augment_finish.
  pose proof
    (frame_comp _ _ _ _ _ _
    (frame_comp _ _ _ _ _ _
    (frame_comp _ _ _ _ _ _
    (frame_comp _ _ _ _ _ _
       infer_form_attrs_frame
       (infer_expanded_for_combobox_frame chain))
       aug_strip_msaa_role_frame)
       aug_strip_readonly_frame)
       aug_describedby_text_frame d k) as H.
  frame_chain H.
Qed.

End StepFrames.

(** *** Keys that keep their value under a condition *)

Tactic Notation "keep_step" uconstr(L) :=
  (eapply (frame_keeps _ _ _ _ _ _ L); [cbn [In]; intuition discriminate|]).

Lemma frame_untouched_get_or (A O : list string) (f : Dict.t -> Dict.t)
    (d : Dict.t) (k dflt : string) :
  frame A O f -> ~ In k A -> ~ In k O ->
  Dict.get_or (f d) k dflt = Dict.get_or d k dflt.
Proof.
  intros Hf HA HO. unfold Dict.get_or.
  now rewrite (frame_untouched A O f d k Hf HA HO).
Qed.

Lemma frame_untouched_mem (A O : list string) (f : Dict.t -> Dict.t)
    (d : Dict.t) (k : string) :
  frame A O f -> ~ In k A -> ~ In k O -> Dict.mem (f d) k = Dict.mem d k.
Proof.
  intros Hf HA HO. unfold Dict.mem.
  now rewrite (frame_untouched A O f d k Hf HA HO).
Qed.

Ltac notin := cbn [In]; intuition discriminate.

Section ConditionalFrames.

Variable host : Host.
Variable o : node.






Lemma form_checked_normalizes (d : Dict.t) (v : string) :
  Dict.get d "checked" = Some v ->
  Dict.get (form_checked d) "checked" = Some (norm_checked v).
Proof.
  intros Hv. unfold form_checked, norm_checked, Dict.mem, Dict.get_or.
  rewrite Hv. cbv zeta.
  branches; rewrite ?dict_get_set_same; auto.
Qed.



Lemma aug_pressed_aria_removed (d : Dict.t) (v : string) :
  Dict.get d "aria-pressed" = Some v ->
  lower (strip v) <> EmptyString ->
  Dict.get (aug_pressed host o d) "aria-pressed" = None.
Proof.
  intros Hv Hne. unfold aug_pressed. cbv zeta.
  set (p := pressed_from_aria d).
  rewrite (frame_untouched _ _ _ _ _ aug_pressed_normalize_frame) by notin.
  rewrite (frame_untouched _ _ _ _ _ (aug_pressed_keep_aria_frame p)) by notin.
  rewrite (frame_untouched _ _ _ _ _ aug_pressed_tab_frame) by notin.
  rewrite (frame_untouched _ _ _ _ _ (aug_pressed_toggle_frame host o p)) by notin.
  unfold aug_pop_aria_pressed, Dict.get_or. rewrite Hv.
  apply nonempty_true_iff in Hne. rewrite Hne. apply dict_get_pop_same.
Qed.

Lemma aug_pressed_aria_blank_kept (d : Dict.t) (v : string) :
  Dict.get d "aria-pressed" = Some v ->
  lower (strip v) = EmptyString ->
  Dict.get (aug_pressed host o d) "aria-pressed" = Some v.
Proof.
  intros Hv He. unfold aug_pressed. cbv zeta.
  set (p := pressed_from_aria d).
  rewrite (frame_untouched _ _ _ _ _ aug_pressed_normalize_frame) by notin.
  rewrite (frame_untouched _ _ _ _ _ (aug_pressed_keep_aria_frame p)) by notin.
  rewrite (frame_untouched _ _ _ _ _ aug_pressed_tab_frame) by notin.
  rewrite (frame_untouched _ _ _ _ _ (aug_pressed_toggle_frame host o p)) by notin.
  unfold aug_pop_aria_pressed, Dict.get_or. rewrite Hv, He. exact Hv.
Qed.

Lemma raw_ia2n_ok :
  no_string_source host o -> exists ia2n, raw_ia2n host o = Ok ia2n.
Proof.
  intros H. unfold raw_ia2n.
  destruct (IA2Attributes (obj host o)) as [[|d|s]|] eqn:E; eauto.
  rewrite (H s E). simpl. eauto.
Qed.

Variable chain : list node.
Variable ia2n : Dict.t.



Lemma augment_keeps_general (attrs : Dict.t) (k v : string) :
  Dict.get attrs k = Some v -> ~ In k rewritten_keys ->
  Dict.get (augment_finish host o chain (augment_states host o ia2n attrs)) k
  = Some v.
Proof.
  intros Hv Hk. unfold rewritten_keys in Hk. cbn [In] in Hk.
  apply (frame_keeps _ _ _ _ _ _ (augment_finish_frame host o chain));
    [cbn [In]; tauto|].
  apply (frame_keeps _ _ _ _ _ _ (augment_states_frame host o ia2n));
    [cbn [In]; tauto|].
  assumption.
Qed.






Tactic Notation "skip_get_or" uconstr(L) :=
  (erewrite (frame_untouched_get_or _ _ _ _ _ _ L) by notin).
Tactic Notation "skip_mem" uconstr(L) :=
  (erewrite (frame_untouched_mem _ _ _ _ _ L) by notin).
Tactic Notation "skip_get" uconstr(L) :=
  (erewrite (frame_untouched _ _ _ _ _ L) by notin).




Lemma augment_aria_pressed (attrs : Dict.t) (v : string) :
  Dict.get attrs "aria-pressed" = Some v ->
  Dict.get (augment_finish host o chain (augment_states host o ia2n attrs))
           "aria-pressed"
  = if nonempty (lower (strip v)) then None else Some v.
Proof.
  intros Hv.
  skip_get (augment_finish_frame host o chain).
  unfold augment_states. cbv zeta.
  skip_get (aug_tabindex_frame host o).
  skip_get (aug_layout_guess_frame host o).
  skip_get (aug_table_cell_frame host o).
  match goal with
  | |- Dict.get (aug_pressed _ _ ?d) _ = _ =>
      assert (H0 : Dict.get d "aria-pressed" = Some v)
  end.
  { keep_step (aug_checked_frame host o).
    keep_step (aug_selected_frame host o).
    keep_step (aug_expanded_frame host o).
    keep_step (aug_explicit_name_frame _).
    keep_step (aug_name_from_frame _).
    keep_step (aug_accessible_name_frame host o).
    keep_step (aug_tag_frame host o).
    assumption. }
  destruct (nonempty (lower (strip v))) eqn:E.
  - apply (aug_pressed_aria_removed _ v H0). now apply nonempty_true_iff.
  - apply (aug_pressed_aria_blank_kept _ v H0). now apply nonempty_false_iff.
Qed.

End ConditionalFrames.

(** ** The Inference Engine: checked and pressed *)

Section CheckedPressed.

Variable host : Host.
Variable o : node.
Variable chain : list node.
Variable ia2n : Dict.t.

Lemma augment_states_split (attrs : Dict.t) :
  augment_states host o ia2n attrs
  = aug_tabindex host o
      (aug_layout_guess host o
         (aug_table_cell host o
            (aug_pressed host o (aug_checked host o (upto_selected host o ia2n attrs))))).
Proof. reflexivity. Qed.

Lemma before_selected_frame (attrs : Dict.t) (k : string) :
  ~ In k ["tag"; "accessible-name"; "accessible-name-from";
          "explicit-name-from"; "expanded"] ->
  Dict.get (aug_expanded host o
              (aug_explicit_name
                 (computed_from ia2n (aug_accessible_name host o (aug_tag host o attrs)))
                 (aug_name_from
                    (computed_from ia2n
                       (aug_accessible_name host o (aug_tag host o attrs)))
                    (aug_accessible_name host o (aug_tag host o attrs))))) k
  = Dict.get attrs k.
Proof.
  intros Hk. cbn [In] in Hk.
  erewrite (frame_untouched _ _ _ _ _ (aug_expanded_frame host o))
    by (cbn [In]; tauto).
  erewrite (frame_untouched _ _ _ _ _ (aug_explicit_name_frame _))
    by (cbn [In]; tauto).
  erewrite (frame_untouched _ _ _ _ _ (aug_name_from_frame _))
    by (cbn [In]; tauto).
  erewrite (frame_untouched _ _ _ _ _ (aug_accessible_name_frame host o))
    by (cbn [In]; tauto).
  erewrite (frame_untouched _ _ _ _ _ (aug_tag_frame host o))
    by (cbn [In]; tauto).
  reflexivity.
Qed.

Lemma upto_selected_untouched (attrs : Dict.t) (k : string) :
  ~ In k ["tag"; "accessible-name"; "accessible-name-from";
          "explicit-name-from"; "expanded"; "selected"] ->
  Dict.get (upto_selected host o ia2n attrs) k = Dict.get attrs k.
Proof.
  intros Hk. cbn [In] in Hk. unfold upto_selected. cbv zeta.
  erewrite (frame_untouched _ _ _ _ _ (aug_selected_frame host o))
    by (cbn [In]; tauto).
  apply before_selected_frame. cbn [In]. tauto.
Qed.

Lemma upto_selected_get_or (attrs : Dict.t) (k dflt : string) :
  ~ In k ["tag"; "accessible-name"; "accessible-name-from";
          "explicit-name-from"; "expanded"; "selected"] ->
  Dict.get_or (upto_selected host o ia2n attrs) k dflt = Dict.get_or attrs k dflt.
Proof. intros H. unfold Dict.get_or. now rewrite upto_selected_untouched. Qed.

Lemma upto_selected_mem (attrs : Dict.t) (k : string) :
  ~ In k ["tag"; "accessible-name"; "accessible-name-from";
          "explicit-name-from"; "expanded"; "selected"] ->
  Dict.mem (upto_selected host o ia2n attrs) k = Dict.mem attrs k.
Proof. intros H. unfold Dict.mem. now rewrite upto_selected_untouched. Qed.

Lemma finish_normalizes_checked (d : Dict.t) (v : string) :
  Dict.get d "checked" = Some v ->
  Dict.get (augment_finish host o chain d) "checked" = Some (norm_checked v).
Proof.
  intros Hv. unfold augment_finish.
  keep_step aug_describedby_text_frame.
  keep_step aug_strip_readonly_frame.
  keep_step aug_strip_msaa_role_frame.
  keep_step (infer_expanded_for_combobox_frame host o chain).
  unfold _infer_form_attrs. cbv zeta.
  keep_step (form_label_frame host o).
  keep_step (form_required_frame host o).
  keep_step (form_multiline_frame _).
  keep_step (form_name_frame _).
  keep_step (form_type_frame _).
  keep_step (form_field_frame _).
  keep_step form_tooltip_frame.
  now apply form_checked_normalizes.
Qed.

Lemma checked_signal_ext (d d' : Dict.t) :
  Dict.get d "role" = Dict.get d' "role" ->
  Dict.get d "xml-roles" = Dict.get d' "xml-roles" ->
  checked_signal host o d = checked_signal host o d'.
Proof.
  intros H1 H2. unfold checked_signal, Dict.get_or. now rewrite H1, H2.
Qed.

(** The value given to "checked" when "checkable" is present and
    "checked" is not. *)
Lemma augment_checked_value (attrs : Dict.t) :
  Dict.mem attrs "checkable" = true -> Dict.mem attrs "checked" = false ->
  Dict.get (augment_finish host o chain (augment_states host o ia2n attrs))
           "checked"
  = Some (if checked_signal host o attrs then "true" else "false").
Proof.
  intros Hc Hn.
  assert (H0 : Dict.get (aug_checked host o (upto_selected host o ia2n attrs)) "checked"
               = Some (if checked_signal host o attrs then "true" else "false")).
  { unfold aug_checked.
    rewrite !upto_selected_mem by notin. rewrite Hc, Hn. cbn [negb andb].
    rewrite dict_get_set_same.
    rewrite (checked_signal_ext (upto_selected host o ia2n attrs) attrs);
      [reflexivity | |]; apply upto_selected_untouched; notin. }
  assert (H1 : Dict.get (augment_states host o ia2n attrs) "checked"
               = Some (if checked_signal host o attrs then "true" else "false")).
  { rewrite augment_states_split.
    keep_step (aug_tabindex_frame host o).
    keep_step (aug_layout_guess_frame host o).
    keep_step (aug_table_cell_frame host o).
    keep_step (aug_pressed_frame host o).
    exact H0. }
  rewrite (finish_normalizes_checked _ _ H1).
  now destruct (checked_signal host o attrs).
Qed.

Lemma is_toggle_ext (d d' : Dict.t) :
  Dict.get d "role" = Dict.get d' "role" ->
  Dict.get d "xml-roles" = Dict.get d' "xml-roles" ->
  is_toggle host o d = is_toggle host o d'.
Proof.
  intros H1 H2. unfold is_toggle, Dict.get_or. now rewrite H1, H2.
Qed.

Lemma normalize_set_bool (x : Dict.t) (b : bool) :
  Dict.get (aug_pressed_normalize (Dict.set x "pressed" (bool_str b))) "pressed"
  = Some (bool_str b).
Proof.
  unfold aug_pressed_normalize, Dict.get_or, Dict.mem.
  rewrite dict_get_set_same.
  destruct b; unfold bool_str.
  - change (lower (strip "true")) with "true". cbn. apply dict_get_set_same.
  - change (lower (strip "false")) with "false". cbn. apply dict_get_set_same.
Qed.

(** What [aug_pressed] gives an element that has no "pressed" and is not
    judged a toggle. *)
Lemma aug_pressed_non_toggle (d : Dict.t) :
  Dict.mem d "pressed" = false ->
  is_toggle host o d = false ->
  Dict.get (aug_pressed host o d) "pressed"
  = if (String.eqb (lower (Dict.get_or d "role" EmptyString)) "tab"
        || String.eqb (lower (Dict.get_or d "xml-roles" EmptyString)) "tab")
       && match Dict.get d "selected" with
          | Some v => String.eqb v "true"
          | None => false
          end
    then Some "true"
    else option_map bool_str (pressed_from_aria d).
Proof.
  intros Hm Ht. unfold aug_pressed. cbv zeta.
  set (p := pressed_from_aria d).
  set (d1 := aug_pop_aria_pressed d).
  assert (Hg : forall k, k <> "aria-pressed" -> Dict.get d1 k = Dict.get d k).
  { intros k Hk. subst d1.
    apply (frame_untouched _ _ _ _ _ aug_pop_aria_pressed_frame);
      cbn [In]; intuition congruence. }
  assert (Hm1 : Dict.mem d1 "pressed" = false)
    by (unfold Dict.mem; rewrite Hg by discriminate; exact Hm).
  assert (Ht1 : is_toggle host o d1 = false).
  { rewrite (is_toggle_ext d1 d); [exact Ht | |]; apply Hg; discriminate. }
  assert (E1 : aug_pressed_toggle host o p d1 = d1)
    by (unfold aug_pressed_toggle; now rewrite Hm1, Ht1).
  rewrite E1. unfold aug_pressed_tab. rewrite Hm1.
  unfold Dict.get_or at 1 2.
  rewrite !Hg by discriminate.
  fold (Dict.get_or d "role" EmptyString).
  fold (Dict.get_or d "xml-roles" EmptyString).
  destruct (_ && _).
  - unfold aug_pressed_keep_aria.
    rewrite dict_mem_set, String.eqb_refl. cbn [orb].
    apply (normalize_set_bool d1 true).
  - unfold aug_pressed_keep_aria. rewrite Hm1.
    destruct p as [b|]; cbn [option_map].
    + apply normalize_set_bool.
    + unfold aug_pressed_normalize. rewrite Hm1.
      now apply dict_mem_false_get.
Qed.

Lemma selected_after (attrs : Dict.t) :
  (String.eqb (lower (Dict.get_or attrs "role" EmptyString)) "tab"
   || String.eqb (lower (Dict.get_or attrs "xml-roles" EmptyString)) "tab") = true ->
  match Dict.get (upto_selected host o ia2n attrs) "selected" with
  | Some v => String.eqb v "true"
  | None => false
  end
  = match Dict.get attrs "selected" with
    | Some s => String.eqb s "true"
    | None => _state_in host o SELECTED || _has_state_name host o "selected"
    end.
Proof.
  intros Htab. unfold upto_selected. cbv zeta. unfold aug_selected.
  unfold Dict.mem, Dict.get_or.
  rewrite !before_selected_frame by notin.
  fold (Dict.get_or attrs "role" EmptyString).
  fold (Dict.get_or attrs "xml-roles" EmptyString).
  destruct (Dict.get attrs "selected") as [s|] eqn:Es.
  - rewrite before_selected_frame by notin. now rewrite Es.
  - destruct (_state_in host o SELECTED || _has_state_name host o "selected").
    + now rewrite dict_get_set_same.
    + assert (E : str_in (lower (Dict.get_or attrs "role" EmptyString))
                         ["tab"; "option"; "treeitem"]
                  || str_in (lower (Dict.get_or attrs "xml-roles" EmptyString))
                            ["tab"; "option"; "treeitem"] = true).
      { apply orb_true_iff in Htab. apply orb_true_iff.
        destruct Htab as [H | H]; [left | right];
          unfold str_in; cbn [existsb]; now rewrite H. }
      rewrite E. now rewrite dict_get_set_same.
Qed.

(** The value of "pressed" for an input without "pressed" whose element
    is not judged a toggle. *)
Lemma augment_pressed_value (attrs : Dict.t) :
  Dict.mem attrs "pressed" = false ->
  is_toggle host o attrs = false ->
  Dict.get (augment_finish host o chain (augment_states host o ia2n attrs))
           "pressed"
  = if selected_tab host o attrs then Some "true"
    else option_map bool_str (pressed_from_aria attrs).
Proof.
  intros Hm Ht.
  erewrite (frame_untouched _ _ _ _ _ (augment_finish_frame host o chain))
    by notin.
  rewrite augment_states_split.
  erewrite (frame_untouched _ _ _ _ _ (aug_tabindex_frame host o)) by notin.
  erewrite (frame_untouched _ _ _ _ _ (aug_layout_guess_frame host o)) by notin.
  erewrite (frame_untouched _ _ _ _ _ (aug_table_cell_frame host o)) by notin.
  set (X := aug_checked host o (upto_selected host o ia2n attrs)).
  assert (HX : forall k, ~ In k ["tag"; "accessible-name"; "accessible-name-from";
                                 "explicit-name-from"; "expanded"; "selected";
                                 "checked"] ->
                         Dict.get X k = Dict.get attrs k).
  { intros k Hk. cbn [In] in Hk. subst X.
    erewrite (frame_untouched _ _ _ _ _ (aug_checked_frame host o))
      by (cbn [In]; tauto).
    apply upto_selected_untouched. cbn [In]. tauto. }
  assert (HXs : Dict.get X "selected"
                = Dict.get (upto_selected host o ia2n attrs) "selected").
  { subst X. now erewrite (frame_untouched _ _ _ _ _ (aug_checked_frame host o))
      by notin. }
  rewrite aug_pressed_non_toggle.
  - unfold selected_tab, pressed_from_aria, Dict.get_or.
    rewrite (HX "role"), (HX "xml-roles"), (HX "aria-pressed") by notin.
    rewrite HXs.
    fold (Dict.get_or attrs "role" EmptyString).
    fold (Dict.get_or attrs "xml-roles" EmptyString).
    destruct (String.eqb (lower (Dict.get_or attrs "role" EmptyString)) "tab"
              || String.eqb (lower (Dict.get_or attrs "xml-roles" EmptyString)) "tab")
      eqn:Etab; cbn [andb]; [|reflexivity].
    now rewrite (selected_after attrs Etab).
  - unfold Dict.mem. rewrite HX by notin. exact Hm.
  - rewrite (is_toggle_ext X attrs); [exact Ht | |]; apply HX; notin.
Qed.

End CheckedPressed.

(** C1 (amended).  For an element whose raw attribute source is not a
    non-empty string, whose mapping exposes a non-blank aria-pressed value
    and no "pressed", and which is not judged a toggle (neither role nor
    structured role is "togglebutton", and the host role is not the
    toggle-button constant): the augmented mapping has no "aria-pressed"
    key, and its "pressed" is "true" for a selected tab, otherwise the hint
    normalised to "true" or "false"; "pressed" is absent only when the hint
    is none of 0/false/no/1/true/yes and the element is not a selected
    tab. *)
Theorem pressed_hint_without_toggle (host : Host) (o : node) (chain : list node)
    (attrs : Dict.t) (base_obj : node) (v : string) :
  no_string_source host o ->
  Dict.get attrs "aria-pressed" = Some v ->
  lower (strip v) <> EmptyString ->
  Dict.mem attrs "pressed" = false ->
  is_toggle host o attrs = false ->
  exists out,
    _augment_attrs_for_readability host o chain attrs base_obj = Ok out
    /\ Dict.get out "aria-pressed" = None
    /\ Dict.get out "pressed"
       = (if selected_tab host o attrs then Some "true"
          else option_map bool_str (pressed_from_aria attrs))
    /\ (Dict.get out "pressed" = None
        <-> selected_tab host o attrs = false
            /\ ~ In (lower (strip v)) ["0"; "false"; "no"; "1"; "true"; "yes"]).
Proof.
  intros Hsrc Hv Hne Hm Ht.
  destruct (raw_ia2n_ok host o Hsrc) as (ia2n & Hraw).
  exists (augment_finish host o chain (augment_states host o ia2n attrs)).
  split; [unfold _augment_attrs_for_readability; now rewrite Hraw|].
  split.
  { rewrite (augment_aria_pressed host o chain ia2n attrs v Hv).
    apply nonempty_true_iff in Hne. now rewrite Hne. }
  rewrite (augment_pressed_value host o chain ia2n attrs Hm Ht).
  split; [reflexivity|].
  unfold pressed_from_aria, Dict.get_or. rewrite Hv.
  apply nonempty_true_iff in Hne. rewrite Hne.
  destruct (selected_tab host o attrs).
  { split; [discriminate | intros [H _]; discriminate]. }
  destruct (str_in (lower (strip v)) ["0"; "false"; "no"]) eqn:E0.
  { split; [discriminate|]. intros [_ H]. exfalso. apply H.
    apply str_in_iff in E0. cbn [In] in *. tauto. }
  destruct (str_in (lower (strip v)) ["1"; "true"; "yes"]) eqn:E1.
  { split; [discriminate|]. intros [_ H]. exfalso. apply H.
    apply str_in_iff in E1. cbn [In] in *. tauto. }
  split; [|reflexivity]. intros _. split; [reflexivity|].
  apply str_in_false_iff in E0, E1. cbn [In] in *. tauto.
Qed.

(** C1, as stated, fails: a span with role link and aria-pressed=true is
    not a toggle, and its augmented mapping holds pressed=true. *)
Lemma pressed_emitted_for_link :
  Dict.get (_ia2_attrs pressed_link_host 0) "aria-pressed" = Some "true"
  /\ Dict.get (_ia2_attrs pressed_link_host 0) "tag" = Some "span"
  /\ Dict.get (_ia2_attrs pressed_link_host 0) "role" = Some "link"
  /\ is_toggle pressed_link_host 0 (_ia2_attrs pressed_link_host 0) = false
  /\ exists out,
       _augment_attrs_for_readability pressed_link_host 0
         (_dom_chain_with_tags pressed_link_host (Some 0) default_max_depth)
         (_ia2_attrs pressed_link_host 0) 0 = Ok out
       /\ Dict.get out "pressed" = Some "true"
       /\ Dict.mem out "pressed" = true.
Proof.
  repeat (split; [vm_compute; reflexivity|]).
  eexists. repeat split; vm_compute; reflexivity.
Qed.

Lemma pressed_hint_without_toggle_witness :
  exists out,
    _augment_attrs_for_readability pressed_link_host 0
      (_dom_chain_with_tags pressed_link_host (Some 0) default_max_depth)
      (_ia2_attrs pressed_link_host 0) 0 = Ok out
    /\ Dict.get out "aria-pressed" = None
    /\ Dict.get out "pressed" = Some "true".
Proof.
  assert (Hsrc : no_string_source pressed_link_host 0)
    by (intros s E; discriminate E).
  assert (Hv : Dict.get (_ia2_attrs pressed_link_host 0) "aria-pressed" = Some "true")
    by (vm_compute; reflexivity).
  assert (Hne : lower (strip "true") <> EmptyString) by (vm_compute; discriminate).
  assert (Hm : Dict.mem (_ia2_attrs pressed_link_host 0) "pressed" = false)
    by (vm_compute; reflexivity).
  assert (Ht : is_toggle pressed_link_host 0 (_ia2_attrs pressed_link_host 0) = false)
    by (vm_compute; reflexivity).
  destruct (pressed_hint_without_toggle pressed_link_host 0
              (_dom_chain_with_tags pressed_link_host (Some 0) default_max_depth)
              (_ia2_attrs pressed_link_host 0) 0 "true" Hsrc Hv Hne Hm Ht)
    as (out & E & Ha & Hp & _).
  exists out. split; [exact E | split; [exact Ha|]].
  rewrite Hp. vm_compute. reflexivity.
Defined.

(** C6, for an element with a structured attribute source (or none): with "checkable" present and "checked" absent the
    output value of "checked" is the literal "true" or "false"; for a
    switch it is "true" when some state display name contains "on", and
    "false" when none contains "on", some contains "off", and the element
    has no ON, checked or pressed state by constant or display name. *)
Theorem checked_inferred_for_switch (host : Host) (o : node) (chain : list node)
    (attrs : Dict.t) (base_obj : node) :
  no_string_source host o ->
  Dict.mem attrs "checkable" = true ->
  Dict.mem attrs "checked" = false ->
  exists out,
    _augment_attrs_for_readability host o chain attrs base_obj = Ok out
    /\ (Dict.get out "checked" = Some "true"
        \/ Dict.get out "checked" = Some "false")
    /\ (is_switch attrs = true ->
        _has_state_name host o "on" = true ->
        Dict.get out "checked" = Some "true")
    /\ (is_switch attrs = true ->
        _has_state_name host o "on" = false ->
        _has_state_name host o "off" = true ->
        (forall stOn, State_ON host = Some stOn -> _state_in host o stOn = false) ->
        _state_in host o CHECKED = false ->
        _has_state_name host o "checked" = false ->
        _state_in host o PRESSED = false ->
        _has_state_name host o "pressed" = false ->
        Dict.get out "checked" = Some "false").
Proof.
  intros Hsrc Hc Hn.
  destruct (raw_ia2n_ok host o Hsrc) as (ia2n & Hraw).
  exists (augment_finish host o chain (augment_states host o ia2n attrs)).
  split; [unfold _augment_attrs_for_readability; now rewrite Hraw|].
  rewrite (augment_checked_value host o chain ia2n attrs Hc Hn).
  split; [destruct (checked_signal host o attrs); auto|].
  split.
  - intros Hs Hon. unfold checked_signal. unfold is_switch in Hs.
    rewrite Hs, Hon. reflexivity.
  - intros Hs Hon Hoff HON Hck Hckn Hpr Hprn.
    unfold checked_signal. unfold is_switch in Hs.
    rewrite Hs, Hon, Hoff, Hck, Hckn, Hpr, Hprn.
    destruct (State_ON host) as [stOn|] eqn:E; [rewrite (HON stOn eq_refl)|];
      reflexivity.
Qed.

Lemma checked_inferred_for_switch_witness :
  (exists out,
      _augment_attrs_for_readability switch_on_host 0
        (_dom_chain_with_tags switch_on_host (Some 0) default_max_depth)
        (_ia2_attrs switch_on_host 0) 0 = Ok out
      /\ Dict.get out "checked" = Some "true")
  /\ (exists out,
         _augment_attrs_for_readability switch_off_host 0
           (_dom_chain_with_tags switch_off_host (Some 0) default_max_depth)
           (_ia2_attrs switch_off_host 0) 0 = Ok out
         /\ Dict.get out "checked" = Some "false").
Proof.
  split.
  - destruct (checked_inferred_for_switch switch_on_host 0
                (_dom_chain_with_tags switch_on_host (Some 0) default_max_depth)
                (_ia2_attrs switch_on_host 0) 0)
      as (out & E & _ & Hon & _).
    + intros s Es; discriminate Es.
    + vm_compute; reflexivity.
    + vm_compute; reflexivity.
    + exists out. split; [exact E|].
      apply Hon; vm_compute; reflexivity.
  - destruct (checked_inferred_for_switch switch_off_host 0
                (_dom_chain_with_tags switch_off_host (Some 0) default_max_depth)
                (_ia2_attrs switch_off_host 0) 0)
      as (out & E & _ & _ & Hoff).
    + intros s Es; discriminate Es.
    + vm_compute; reflexivity.
    + vm_compute; reflexivity.
    + exists out. split; [exact E|].
      apply Hoff; try (vm_compute; reflexivity).
      intros stOn [= <-]. vm_compute. reflexivity.
Defined.

(** C6 fails on the code for a string source.  The same switch with its
    attributes exposed as a string: the extractor yields the same mapping
    (checkable present, checked absent, role switch, a state named "on"),
    and the Inference Engine raises ([ia2n.get] on a [str]), so no
    "checked" is set. *)
Lemma checked_not_inferred_for_string_source :
  _ia2_attrs switch_on_string_host 0 = _ia2_attrs switch_on_host 0
  /\ Dict.mem (_ia2_attrs switch_on_string_host 0) "checkable" = true
  /\ Dict.mem (_ia2_attrs switch_on_string_host 0) "checked" = false
  /\ is_switch (_ia2_attrs switch_on_string_host 0) = true
  /\ _has_state_name switch_on_string_host 0 "on" = true
  /\ _augment_attrs_for_readability switch_on_string_host 0
       (_dom_chain_with_tags switch_on_string_host (Some 0) default_max_depth)
       (_ia2_attrs switch_on_string_host 0) 0 = Raise.
Proof. repeat split; vm_compute; reflexivity. Qed.

(** ** The report of an image inside a link *)

Lemma tag_attr_of_tag (host : Host) (m : node) (t : string) :
  _tag host m = t -> t <> EmptyString ->
  exists v, Dict.get (_ia2_attrs host m) "tag" = Some v
            /\ v <> EmptyString /\ upper v = upper t.
Proof.
  intros Ht Hne. unfold _tag in Ht.
  pose proof (stripped_get_or _ "tag" (ia2_attrs_stripped host m)) as Hs.
  rewrite Hs in Ht. unfold Dict.get_or in Ht.
  destruct (Dict.get (_ia2_attrs host m) "tag") as [v|] eqn:E.
  - exists v. split; [reflexivity|]. split.
    + intros ->. apply Hne. now rewrite <- Ht.
    + now rewrite <- Ht, upper_lower.
  - exfalso. apply Hne. now rewrite <- Ht.
Qed.

Lemma node_attrs_ok (host : Host) (m base : node) :
  no_string_source host m ->
  exists out,
    node_attrs host m base = Ok out
    /\ forall k v, Dict.get (_ia2_attrs host m) k = Some v ->
                   ~ In k rewritten_keys -> Dict.get out k = Some v.
Proof.
  intros Hsrc. destruct (raw_ia2n_ok host m Hsrc) as (ia2n & Hraw).
  eexists. split.
  - unfold node_attrs, _augment_attrs_for_readability. rewrite Hraw. reflexivity.
  - intros k v Hv Hk. now apply augment_keeps_general.
Qed.

Lemma block_pairs_in (tag_name : string) (attrs : Dict.t) (k v : string) :
  Dict.get attrs k = Some v -> strip v = v -> v <> EmptyString ->
  In (k, v) (block_pairs tag_name attrs).
Proof.
  intros Hv Hs Hne. rewrite block_pairs_filter. apply in_map_iff.
  exists k. unfold Dict.get_or. rewrite Hv, Hs. split; [reflexivity|].
  apply filter_In. split.
  - apply ordered_params_in, dict_mem_keys, dict_mem_get. now exists v.
  - rewrite Hv, Hs. now apply nonempty_true_iff.
Qed.

(** The block of one reported object whose raw source is not a non-empty
    string: its header carries the object's tag in upper case, and every
    attribute outside the rewritten ones has its line. *)
Lemma node_block_ok (host : Host) (m base : node) (t : string) :
  no_string_source host m ->
  _tag host m = t -> t <> EmptyString ->
  exists tag_name attrs,
    node_block host m base = Ok (rstrip (_format_tag_block tag_name attrs))
    /\ upper tag_name = upper t
    /\ forall k v, Dict.get (_ia2_attrs host m) k = Some v ->
                   ~ In k rewritten_keys -> v <> EmptyString ->
                   In (k, v) (block_pairs tag_name attrs).
Proof.
  intros Hsrc Ht Hne.
  destruct (node_attrs_ok host m base Hsrc) as (out & Hout & Hkeep).
  destruct (tag_attr_of_tag host m t Ht Hne) as (vt & Hvt & Hvne & Hup).
  exists (node_tag host m out), out. split; [|split].
  - unfold node_block. rewrite Hout. reflexivity.
  - unfold node_tag. rewrite (Hkeep "tag" vt Hvt) by (unfold rewritten_keys; notin).
    unfold or_else. apply nonempty_true_iff in Hvne. now rewrite Hvne.
  - intros k v Hv Hk Hvne'. apply block_pairs_in; [auto | | assumption].
    eapply stripped_get; [apply ia2_attrs_stripped | eassumption].
Qed.

Lemma map_node_block_ok (host : Host) (base : node) (l : list node) :
  Forall (no_string_source host) l ->
  exists blocks, map_exc (fun a => node_block host a base) l = Ok blocks.
Proof.
  induction 1 as [|m l Hm _ (blocks & IH)]; simpl; [eauto|].
  destruct (node_attrs_ok host m base Hm) as (out & Hout & _).
  unfold node_block at 1. rewrite Hout. cbn [bind]. rewrite IH. cbn [bind]. eauto.
Qed.

Lemma dom_chain_from_step (host : Host) (d : nat) (c : node) :
  dom_chain_from host (S d) (Some c)
  = if nonempty (Dict.get_or (_ia2_attrs host c) "tag" EmptyString) then
      if String.eqb (lower (strip (Dict.get_or (_ia2_attrs host c) "tag" EmptyString)))
                    "#document"
      then [c]
      else c :: dom_chain_from host d (try_or (parent (obj host c)) None)
    else dom_chain_from host d (try_or (parent (obj host c)) None).
Proof. reflexivity. Qed.

Lemma chain_starts_at_tagged (host : Host) (n : node) (t : string) :
  _tag host n = t -> t <> EmptyString -> t <> "#document" ->
  exists rest,
    _dom_chain_with_tags host (Some n) default_max_depth = n :: rest.
Proof.
  intros Ht Hne Hnd. unfold _dom_chain_with_tags, default_max_depth.
  rewrite dom_chain_from_step.
  destruct (tag_attr_of_tag host n t Ht Hne) as (v & Hv & Hvne & _).
  unfold Dict.get_or. rewrite Hv.
  apply nonempty_true_iff in Hvne. rewrite Hvne.
  unfold _tag, Dict.get_or in Ht. rewrite Hv in Ht. rewrite Ht.
  apply String.eqb_neq in Hnd. rewrite Hnd. eauto.
Qed.

Lemma find_nearest_tag_some (host : Host) (chain : list node) (t : string)
    (link : node) :
  _find_nearest_tag host chain t = Some link ->
  In link chain /\ _tag host link = lower t.
Proof.
  unfold _find_nearest_tag. intros H. apply find_some in H.
  destruct H as [Hin E]. apply String.eqb_eq in E. now split.
Qed.

(** C2 (amended).  Let the candidate object be tagged [img], let the web
    gate pass, let the nearest object tagged [a] in its tag chain expose
    href https://example.com/, and let no reported object have a
    non-empty string as raw source.  Then the Canonicalizer returns that
    link as the report target and the image as the nested original, and
    the entries of the plain report are: the title, the block of the link
    (header [Tag A has N parameters:], with the line
    [href=https://example.com/]), the line [Nested element:], the block of
    the image (header [Tag IMG has M parameters:]), then the blocks of the
    link's ancestors. *)
Theorem image_in_link_report (host : Host)
    (render_advanced : node -> string -> string) (n link : node) :
  _get_candidate_object host = Some n ->
  _is_web_context host (Some n) = true ->
  _tag host n = "img" ->
  _find_nearest_tag host (_dom_chain_with_tags host (Some n) default_max_depth) "a"
  = Some link ->
  Dict.get (_ia2_attrs host link) "href" = Some "https://example.com/" ->
  Forall (no_string_source host)
         (link :: n :: tl (_dom_chain_with_tags host (Some link) default_max_depth)) ->
  _promote_canonical host (Some n)
    (_dom_chain_with_tags host (Some n) default_max_depth)
  = (Some link, Some n)
  /\ exists a_tag a_attrs i_tag i_attrs ancestors,
       _format_tag_block a_tag a_attrs
       = join newline
           ([EmptyString;
             ("Tag A has "
                ++ str_of_nat (List.length (block_pairs a_tag a_attrs))
                ++ " parameters:")%string]
              ++ map pair_line (block_pairs a_tag a_attrs) ++ [EmptyString])
       /\ In "href=https://example.com/"
             (map pair_line (block_pairs a_tag a_attrs))
       /\ _format_tag_block i_tag i_attrs
          = join newline
              ([EmptyString;
                ("Tag IMG has "
                   ++ str_of_nat (List.length (block_pairs i_tag i_attrs))
                   ++ " parameters:")%string]
                 ++ map pair_line (block_pairs i_tag i_attrs) ++ [EmptyString])
       /\ report_lines host false n
          = Ok ("Element Information:"
                  :: rstrip (_format_tag_block a_tag a_attrs)
                  :: "Nested element:"
                  :: rstrip (_format_tag_block i_tag i_attrs)
                  :: ancestors)
       /\ _build_report host render_advanced false
          = Ok ((strip
                   (join newline
                      ("Element Information:"
                         :: rstrip (_format_tag_block a_tag a_attrs)
                         :: "Nested element:"
                         :: rstrip (_format_tag_block i_tag i_attrs)
                         :: ancestors)) ++ newline)%string,
                true).
Proof.
  intros Hc Hweb Himg Hfind Hhref Hsrc.
  destruct (chain_starts_at_tagged host n "img" Himg) as (rest & Hchain);
    [discriminate | discriminate |].
  destruct (find_nearest_tag_some host _ _ _ Hfind) as [_ Hlink].
  change (lower "a") with "a" in Hlink.
  assert (Hprom : _promote_canonical host (Some n)
                    (_dom_chain_with_tags host (Some n) default_max_depth)
                  = (Some link, Some n)).
  { unfold _promote_canonical. rewrite Hchain. rewrite <- Hchain.
    rewrite Himg. change (str_in "img" ["img"; "svg"]) with true. cbv iota.
    now rewrite Hfind. }
  split; [exact Hprom|].
  pose proof (Forall_inv Hsrc) as Hsl.
  pose proof (Forall_inv (Forall_inv_tail Hsrc)) as Hsn.
  pose proof (Forall_inv_tail (Forall_inv_tail Hsrc)) as Hanc.
  destruct (node_block_ok host link n "a" Hsl Hlink) as (a_tag & a_attrs & Ha & Hau & Hap);
    [discriminate|].
  destruct (node_block_ok host n n "img" Hsn Himg) as (i_tag & i_attrs & Hi & Hiu & _);
    [discriminate|].
  destruct (map_node_block_ok host n _ Hanc) as (ancestors & Hancs).
  exists a_tag, a_attrs, i_tag, i_attrs, ancestors.
  assert (Hne : Nat.eqb n link = false).
  { apply Nat.eqb_neq. intros ->. rewrite Himg in Hlink. discriminate. }
  assert (Hlines :
            report_lines host false n
            = Ok ("Element Information:"
                    :: rstrip (_format_tag_block a_tag a_attrs)
                    :: "Nested element:"
                    :: rstrip (_format_tag_block i_tag i_attrs)
                    :: ancestors)).
  { unfold report_lines, report_start. cbn [fst snd].
    assert (Ho : only_document host
                   (_dom_chain_with_tags host (Some n) default_max_depth) = false).
    { rewrite Hchain. unfold only_document. destruct rest; [|reflexivity].
      rewrite Himg. reflexivity. }
    rewrite Ho, Hprom, Ha. cbn [bind]. rewrite Hne, Hi. cbn [bind].
    rewrite Hancs. cbn [bind]. reflexivity. }
  split; [|split; [|split; [|split]]].
  - unfold _format_tag_block, block_lines, block_header.
    rewrite Hau. reflexivity.
  - apply in_map_iff. exists ("href", "https://example.com/").
    split; [reflexivity|].
    apply Hap; [exact Hhref | unfold rewritten_keys; notin | discriminate].
  - unfold _format_tag_block, block_lines, block_header.
    rewrite Hiu. reflexivity.
  - exact Hlines.
  - unfold _build_report. rewrite Hc, Hweb. cbn [negb]. rewrite Hlines.
    reflexivity.
Qed.

Lemma image_in_link_report_witness :
  _promote_canonical image_link_host (Some 0)
    (_dom_chain_with_tags image_link_host (Some 0) default_max_depth)
  = (Some 1, Some 0)
  /\ report_lines image_link_host false 0
     = Ok ["Element Information:";
           join newline [EmptyString; "Tag A has 2 parameters:"; "tag=a";
                         "href=https://example.com/"];
           "Nested element:";
           join newline [EmptyString; "Tag IMG has 2 parameters:"; "tag=img";
                         "src=logo.png"];
           join newline [EmptyString; "Tag #DOCUMENT has 1 parameters:";
                         "tag=#document"]].
Proof.
  assert (Hc : _get_candidate_object image_link_host = Some 0) by reflexivity.
  assert (Hw : _is_web_context image_link_host (Some 0) = true)
    by (vm_compute; reflexivity).
  assert (Ht : _tag image_link_host 0 = "img") by (vm_compute; reflexivity).
  assert (Hf : _find_nearest_tag image_link_host
                 (_dom_chain_with_tags image_link_host (Some 0) default_max_depth) "a"
               = Some 1) by (vm_compute; reflexivity).
  assert (Hh : Dict.get (_ia2_attrs image_link_host 1) "href"
               = Some "https://example.com/") by (vm_compute; reflexivity).
  assert (Hs : Forall (no_string_source image_link_host)
                 (1 :: 0 :: tl (_dom_chain_with_tags image_link_host (Some 1)
                                  default_max_depth))).
  { assert (E : tl (_dom_chain_with_tags image_link_host (Some 1) default_max_depth)
                = [2]) by (vm_compute; reflexivity).
    rewrite E. repeat constructor; intros s Es; discriminate Es. }
  split.
  - exact (proj1 (image_in_link_report image_link_host (fun _ s => s) 0 1
                    Hc Hw Ht Hf Hh Hs)).
  - vm_compute. reflexivity.
Defined.

(** C2, as stated, fails: the image's chain holds a link to
    https://example.com/, but a nearer link encloses the image; the
    Canonicalizer returns the nearer link, and the first block of the
    report carries [href=https://other.example/]. *)
Lemma nearest_link_is_reported :
  _get_candidate_object nested_anchor_host = Some 0
  /\ _is_web_context nested_anchor_host (Some 0) = true
  /\ _tag nested_anchor_host 0 = "img"
  /\ In 2 (_dom_chain_with_tags nested_anchor_host (Some 0) default_max_depth)
  /\ _tag nested_anchor_host 2 = "a"
  /\ Dict.get (_ia2_attrs nested_anchor_host 2) "href" = Some "https://example.com/"
  /\ _promote_canonical nested_anchor_host (Some 0)
       (_dom_chain_with_tags nested_anchor_host (Some 0) default_max_depth)
     = (Some 1, Some 0)
  /\ report_lines nested_anchor_host false 0
     = Ok ["Element Information:";
           join newline [EmptyString; "Tag A has 2 parameters:"; "tag=a";
                         "href=https://other.example/"];
           "Nested element:";
           join newline [EmptyString; "Tag IMG has 2 parameters:"; "tag=img";
                         "src=logo.png"];
           join newline [EmptyString; "Tag A has 2 parameters:"; "tag=a";
                         "href=https://example.com/"];
           join newline [EmptyString; "Tag #DOCUMENT has 1 parameters:";
                         "tag=#document"]].
Proof.
  split; [reflexivity|].
  split; [vm_compute; reflexivity|].
  split; [vm_compute; reflexivity|].
  split; [vm_compute; tauto|].
  repeat split; vm_compute; reflexivity.
Qed.

(** ** The Attribute Extractor: aliases *)

(** C4 fails on the code for a string source: the loop over the parts of
    a string collapses the described-by spellings only, so [aria-checked]
    stays under its own key, where the loop over a structured mapping
    stores it under [checked]. *)
Lemma checked_alias_missing_for_string_source :
  _ia2_attrs checked_string_host 0 = [("aria-checked", "true")]
  /\ Dict.mem (_ia2_attrs checked_string_host 0) "checked" = false
  /\ _ia2_attrs checked_dict_host 0 = [("checked", "true")].
Proof. repeat split; vm_compute; reflexivity. Qed.

(** The loop over a structured mapping reads [ksl] of the previous entry
    when a key is blank: a blank first key ends the extraction with
    nothing stored, a blank key after an alias overwrites the alias, and
    the normalisation applied to its own output can change it. *)
Lemma blank_key_breaks_alias_normalization :
  _ia2_attrs blank_key_first_host 0 = []
  /\ _ia2_attrs blank_key_after_alias_host 0 = [("describedby", "x")]
  /\ ia2_dict_loop [("x", "1"); ("checked", "2"); (" x", "3"); (EmptyString, "4")]
                   None Dict.empty
     = [("x", "3"); ("checked", "2"); (EmptyString, "4")]
  /\ ia2_dict_loop [("x", "3"); ("checked", "2"); (EmptyString, "4")]
                   None Dict.empty
     = [("x", "3"); ("checked", "4")].
Proof. repeat split; vm_compute; reflexivity. Qed.

(** ** Bounded walks reach their exit *)

Lemma sibling_run_length (host : Host) (steps : nat) :
  forall child, List.length (sibling_run host steps child) <= steps.
Proof.
  induction steps as [|n IH]; intros child; simpl; [lia|].
  destruct child as [c|]; simpl; [|lia].
  specialize (IH (try_or (next (obj host c)) None)). lia.
Qed.

(** The passes of the outer loop of [_iter_children] are bounded by the
    length of the queue plus fifty-one per node still to yield: with that
    much fuel the loop ends by its own test, and more fuel changes
    nothing. *)
Lemma iter_children_loop_enough (host : Host) (max_nodes : nat) (fuel : nat) :
  forall fuel' queue seen yielded,
    List.length queue + 51 * (max_nodes - yielded) <= fuel ->
    List.length queue + 51 * (max_nodes - yielded) <= fuel' ->
    iter_children_loop host fuel max_nodes queue seen yielded
    = iter_children_loop host fuel' max_nodes queue seen yielded.
Proof.
  induction fuel as [|f IH]; intros fuel' queue seen yielded H H'.
  - destruct queue as [|cur queue]; [|simpl in H; lia].
    destruct fuel'; reflexivity.
  - destruct queue as [|cur queue]; [destruct fuel'; reflexivity|].
    destruct fuel' as [|f']; [simpl in H'; lia|].
    cbn [iter_children_loop].
    destruct (Nat.ltb yielded max_nodes) eqn:E; [|reflexivity].
    apply Nat.ltb_lt in E. cbn [List.length] in H, H'.
    destruct (existsb (Nat.eqb cur) seen).
    + apply IH; lia.
    + f_equal.
      pose proof (sibling_run_length host 50
                    (try_or (firstChild (obj host cur)) None)) as Hs.
      apply IH; rewrite length_app; lia.
Qed.

Lemma iter_children_fuel_enough (host : Host) (r : node) (max_nodes extra : nat) :
  iter_children_loop host (iter_children_fuel max_nodes + extra) max_nodes [r] [] 0
  = _iter_children host (Some r) max_nodes.
Proof.
  unfold _iter_children. apply iter_children_loop_enough;
    unfold iter_children_fuel; simpl List.length; lia.
Qed.

(** [_promote_canonical] of an object is an object. *)
Lemma promote_canonical_some (host : Host) (n : node) (chain : list node) :
  exists c, fst (_promote_canonical host (Some n) chain) = Some c.
Proof.
  assert (Hp : forall m, exists c, _prefer_interactive_container host (Some m) = Some c).
  { intros m. unfold _prefer_interactive_container.
    destruct (prefer_loop host 7 (Some m)); eauto. }
  unfold _promote_canonical. destruct chain as [|x chain]; [apply Hp|].
  destruct (if str_in (_tag host n) ["img"; "svg"] then _ else None) as [link|];
    [simpl; eauto|].
  destruct (if str_in (_tag host n) ["p"; "span"; "br"] then _ else None) as [h|];
    simpl; apply Hp.
Qed.

(** ** Alias normalisation on structured sources without blank keys *)

Lemma dict_loop_fold (d : list (string * string)) :
  no_blank_key d ->
  forall ksl out,
    ia2_dict_loop d ksl out
    = fold_left (fun acc kv => Dict.set acc (alias_key (fst kv)) (strip (snd kv)))
                d out.
Proof.
  induction 1 as [|[k v] d Hk _ IH]; intros ksl out; simpl; [reflexivity|].
  simpl in Hk. apply nonempty_true_iff in Hk. rewrite Hk. apply IH.
Qed.

Lemma dict_set_forall (P : string * string -> Prop) (d : Dict.t) (k v : string) :
  Forall P d -> P (k, v) -> Forall P (Dict.set d k v).
Proof.
  intros Hd Hp. induction d as [|[k0 v0] d IH]; simpl.
  - now constructor.
  - inversion Hd; subst. destruct (String.eqb k k0); constructor; auto.
Qed.

Lemma dict_set_fresh (d : Dict.t) (k v : string) :
  ~ In k (Dict.keys d) -> Dict.set d k v = d ++ [(k, v)].
Proof.
  induction d as [|[k0 v0] d IH]; simpl; intros H; [reflexivity|].
  destruct (String.eqb k k0) eqn:E.
  - apply String.eqb_eq in E. subst. tauto.
  - f_equal. apply IH. tauto.
Qed.

Lemma dict_keys_set (d : Dict.t) (k v : string) :
  Dict.keys (Dict.set d k v)
  = if Dict.mem d k then Dict.keys d else Dict.keys d ++ [k].
Proof.
  unfold Dict.mem, Dict.keys. induction d as [|[k0 v0] d IH]; simpl; [reflexivity|].
  destruct (String.eqb k k0) eqn:E; simpl.
  - apply String.eqb_eq in E. now subst.
  - rewrite IH. now destruct (Dict.get d k).
Qed.

Lemma dict_set_wf (d : Dict.t) (k v : string) :
  Dict.wf d -> Dict.wf (Dict.set d k v).
Proof.
  unfold Dict.wf. intros H. rewrite dict_keys_set.
  destruct (Dict.mem d k) eqn:E; [assumption|].
  apply NoDup_app; [assumption | repeat constructor; intros [] |].
  intros x Hx [<- | []]. apply dict_mem_keys in Hx. congruence.
Qed.

Lemma dict_rebuild (l : Dict.t) :
  forall acc, NoDup (Dict.keys (acc ++ l)) ->
    fold_left (fun acc kv => Dict.set acc (fst kv) (snd kv)) l acc = acc ++ l.
Proof.
  induction l as [|[k v] l IH]; intros acc H; simpl.
  - now rewrite app_nil_r.
  - rewrite dict_set_fresh.
    + rewrite IH; rewrite <- app_assoc; [reflexivity | exact H].
    + unfold Dict.keys in *. rewrite map_app in H. simpl in H.
      apply NoDup_remove_2 in H. intros Hc. apply H. apply in_or_app. now left.
Qed.

Lemma alias_key_cases (k : string) :
  alias_key k = "describedby"
  \/ alias_key k = "checked"
  \/ (alias_key k = strip k
      /\ ~ In (lower (strip k)) describedby_aliases
      /\ ~ In (lower (strip k)) checked_aliases).
Proof.
  unfold alias_key. cbv zeta.
  destruct (str_in (lower (strip k)) describedby_aliases) eqn:E1; [now left|].
  destruct (str_in (lower (strip k)) checked_aliases) eqn:E2; [right; now left|].
  right. right. apply str_in_false_iff in E1, E2. tauto.
Qed.

Lemma alias_key_idem (k : string) : alias_key (alias_key k) = alias_key k.
Proof.
  destruct (alias_key_cases k) as [E | [E | (E & H1 & H2)]]; rewrite E.
  - reflexivity.
  - reflexivity.
  - unfold alias_key. cbv zeta. rewrite strip_idem.
    apply str_in_false_iff in H1, H2. now rewrite H1, H2.
Qed.

Lemma alias_key_nonblank (k : string) :
  strip k <> EmptyString -> strip (alias_key k) <> EmptyString.
Proof.
  intros H. destruct (alias_key_cases k) as [E | [E | (E & _)]]; rewrite E.
  - discriminate.
  - discriminate.
  - now rewrite strip_idem.
Qed.

(** The entries the loop stores: the key is its own alias, is not blank,
    and the value is stripped. *)
Lemma dict_loop_entries (d : list (string * string)) :
  no_blank_key d ->
  forall out,
    Forall (fun kv => alias_key (fst kv) = fst kv
                      /\ strip (fst kv) <> EmptyString
                      /\ strip (snd kv) = snd kv) out ->
    Dict.wf out ->
    Forall (fun kv => alias_key (fst kv) = fst kv
                      /\ strip (fst kv) <> EmptyString
                      /\ strip (snd kv) = snd kv)
           (fold_left (fun acc kv => Dict.set acc (alias_key (fst kv)) (strip (snd kv)))
                      d out)
    /\ Dict.wf (fold_left (fun acc kv => Dict.set acc (alias_key (fst kv)) (strip (snd kv)))
                          d out)
    /\ (forall k, Dict.mem (fold_left (fun acc kv => Dict.set acc (alias_key (fst kv))
                                                       (strip (snd kv))) d out) k = true
                  <-> Dict.mem out k = true
                      \/ exists k0 v0, In (k0, v0) d /\ k = alias_key k0).
Proof.
  induction 1 as [|[k v] d Hk _ IH]; intros out Hout Hwf; simpl.
  - split; [assumption | split; [assumption|]]. intros k0. split; [auto|].
    intros [H | (k1 & v1 & [] & _)]. exact H.
  - simpl in Hk.
    destruct (IH (Dict.set out (alias_key k) (strip v))) as (H1 & H2 & H3).
    + apply dict_set_forall; [assumption|]. simpl.
      split; [apply alias_key_idem | split; [now apply alias_key_nonblank | apply strip_idem]].
    + now apply dict_set_wf.
    + split; [assumption | split; [assumption|]]. intros k0. rewrite H3.
      rewrite dict_mem_set. split.
      * intros [H | (k1 & v1 & Hin & E)].
        -- apply orb_true_iff in H. destruct H as [H | H]; [|now left].
           apply String.eqb_eq in H. right. exists k, v. split; [now left | assumption].
        -- right. exists k1, v1. split; [now right | assumption].
      * intros [H | (k1 & v1 & [Hin | Hin] & E)].
        -- left. rewrite H. apply orb_true_r.
        -- inversion Hin; subst. left. now rewrite String.eqb_refl.
        -- right. eauto.
Qed.

Lemma fold_left_ext_in {A B : Type} (f g : A -> B -> A) (l : list B) :
  (forall x, In x l -> forall a, f a x = g a x) ->
  forall a, fold_left f l a = fold_left g l a.
Proof.
  induction l as [|x l IH]; intros H a; simpl; [reflexivity|].
  rewrite (H x (or_introl eq_refl)). apply IH. intros y Hy. apply H. now right.
Qed.

(** C4, for a structured source none of whose keys is blank: every raw key
    that is a described-by spelling is stored under [describedby], every
    raw key that is a checked spelling under [checked]; no other key of
    the result is such a spelling; and the normalisation applied to its
    own result returns it unchanged. *)
Theorem alias_normalization_structured (d : list (string * string)) :
  no_blank_key d ->
  let out := ia2_dict_loop d None Dict.empty in
  (forall k v, In (k, v) d -> In (lower (strip k)) describedby_aliases ->
               Dict.mem out "describedby" = true)
  /\ (forall k v, In (k, v) d -> In (lower (strip k)) checked_aliases ->
                  Dict.mem out "checked" = true)
  /\ (forall k, Dict.mem out k = true ->
                In (lower (strip k)) describedby_aliases -> k = "describedby")
  /\ (forall k, Dict.mem out k = true ->
                In (lower (strip k)) checked_aliases -> k = "checked")
  /\ ia2_dict_loop out None Dict.empty = out.
Proof.
  intros Hd out. subst out. rewrite (dict_loop_fold d Hd).
  destruct (dict_loop_entries d Hd Dict.empty) as (Hent & Hwf & Hmem);
    [constructor | constructor |].
  set (out := fold_left _ d Dict.empty) in *.
  assert (Hfix : forall k, Dict.mem out k = true -> alias_key k = k).
  { intros k Hk. apply dict_mem_get in Hk. destruct Hk as (v & Hv).
    apply dict_get_in in Hv. rewrite Forall_forall in Hent.
    exact (proj1 (Hent _ Hv)). }
  split; [|split; [|split; [|split]]].
  - intros k v Hin Ha. apply Hmem. right. exists k, v. split; [assumption|].
    unfold alias_key. cbv zeta. apply str_in_iff in Ha. now rewrite Ha.
  - intros k v Hin Ha. apply Hmem. right. exists k, v. split; [assumption|].
    unfold alias_key. cbv zeta. apply str_in_iff in Ha. rewrite Ha.
    destruct (str_in (lower (strip k)) describedby_aliases) eqn:E; [|reflexivity].
    apply str_in_iff in E. unfold describedby_aliases, checked_aliases in *.
    cbn [In] in *. exfalso.
    destruct E as [E | [E | []]]; rewrite <- E in Ha; vm_compute in Ha; discriminate.
  - intros k Hk Ha. rewrite <- (Hfix k Hk). unfold alias_key. cbv zeta.
    apply str_in_iff in Ha. now rewrite Ha.
  - intros k Hk Ha. rewrite <- (Hfix k Hk). unfold alias_key. cbv zeta.
    destruct (str_in (lower (strip k)) describedby_aliases) eqn:E.
    + apply str_in_iff in E. unfold describedby_aliases, checked_aliases in *.
      cbn [In] in *. exfalso.
      destruct E as [E | [E | []]]; rewrite <- E in Ha;
        destruct Ha as [Ha | [Ha | [Ha | []]]]; discriminate.
    + apply str_in_iff in Ha. now rewrite Ha.
  - assert (Hnb : no_blank_key out).
    { unfold no_blank_key. eapply Forall_impl; [|exact Hent].
      intros kv H. cbv beta in H. destruct H as (_ & H & _). exact H. }
    rewrite (dict_loop_fold out Hnb).
    rewrite (fold_left_ext_in _ (fun acc kv => Dict.set acc (fst kv) (snd kv))).
    + apply (dict_rebuild out []). exact Hwf.
    + intros kv Hkv a. rewrite Forall_forall in Hent.
      destruct (Hent kv Hkv) as (E1 & _ & E2). now rewrite E1, E2.
Qed.

Lemma alias_normalization_structured_witness :
  ia2_dict_loop [("Aria-DescribedBy", " hint "); ("ariaChecked", "true");
                 ("describedby", "other")] None Dict.empty
  = [("describedby", "other"); ("checked", "true")]
  /\ ia2_dict_loop
       (ia2_dict_loop [("Aria-DescribedBy", " hint "); ("ariaChecked", "true");
                       ("describedby", "other")] None Dict.empty)
       None Dict.empty
     = ia2_dict_loop [("Aria-DescribedBy", " hint "); ("ariaChecked", "true");
                      ("describedby", "other")] None Dict.empty.
Proof.
  split; [vm_compute; reflexivity|].
  apply (alias_normalization_structured
           [("Aria-DescribedBy", " hint "); ("ariaChecked", "true");
            ("describedby", "other")]).
  repeat constructor; vm_compute; discriminate.
Defined.

(** ** Form inference on an input *)

Section InputInference.

Variable host : Host.
Variable o : node.
Variable chain : list node.

Lemma form_pass_on_input (d : Dict.t) (t v : string) :
  Dict.get d "tag" = Some t -> lower t = "input" ->
  Dict.get d "text-input-type" = Some v -> v <> EmptyString ->
  Dict.mem d "type" = false ->
  Dict.mem d "fsFormField" = false ->
  Dict.mem d "multiline" = false ->
  Dict.get (_infer_form_attrs host o d) "type" = Some v
  /\ Dict.get (_infer_form_attrs host o d) "fsFormField" = Some "true"
  /\ Dict.get (_infer_form_attrs host o d) "multiline" = Some "false".
Proof.
  intros Ht Hl Hv Hne Hty Hff Hml.
  unfold _infer_form_attrs.
  set (d1 := form_tooltip (form_checked d)).
  assert (H1 : forall k, ~ In k ["title"; "label"; "checked"] ->
                         Dict.get d1 k = Dict.get d k).
  { intros k Hk. cbn [In] in Hk. subst d1.
    erewrite (frame_untouched _ _ _ _ _ form_tooltip_frame)
      by (cbn [In]; tauto).
    erewrite (frame_untouched _ _ _ _ _ form_checked_frame)
      by (cbn [In]; tauto).
    reflexivity. }
  assert (Et : lower (or_else (Dict.get_or d1 "tag" EmptyString) (_tag host o))
               = "input").
  { unfold Dict.get_or. rewrite (H1 "tag") by notin. rewrite Ht.
    unfold or_else. destruct t; [discriminate Hl | exact Hl]. }
  cbv zeta. rewrite Et.
  set (d2 := form_field "input" d1).
  assert (H2ff : Dict.get d2 "fsFormField" = Some "true").
  { subst d2. unfold form_field.
    change (str_in "input" ["#document"; "body"; "html"]) with false. cbv iota.
    unfold Dict.mem. rewrite (H1 "fsFormField") by notin.
    apply dict_mem_false_get in Hff. rewrite Hff.
    change (str_in "input" interactive_tags) with true. cbn [orb].
    apply dict_get_set_same. }
  assert (H2 : forall k, ~ In k ["title"; "label"; "checked"; "fsFormField"] ->
                         Dict.get d2 k = Dict.get d k).
  { intros k Hk. cbn [In] in Hk. subst d2.
    erewrite (frame_untouched _ _ _ _ _ (form_field_frame _))
      by (cbn [In]; tauto).
    apply H1. cbn [In]. tauto. }
  set (d3 := form_type "input" d2).
  assert (H3ty : Dict.get d3 "type" = Some v).
  { subst d3. unfold form_type, Dict.mem, Dict.get_or.
    rewrite (H2 "type"), (H2 "text-input-type") by notin.
    apply dict_mem_false_get in Hty. rewrite Hty, Hv.
    apply nonempty_true_iff in Hne. rewrite Hne.
    change (str_in "input" ["input"; "textarea"]) with true. cbn [negb andb].
    apply dict_get_set_same. }
  set (d4 := form_name "input" d3).
  assert (H4ml : Dict.mem d4 "multiline" = false).
  { subst d4 d3. unfold Dict.mem.
    erewrite (frame_untouched _ _ _ _ _ (form_name_frame _)) by notin.
    erewrite (frame_untouched _ _ _ _ _ (form_type_frame _)) by notin.
    rewrite (H2 "multiline") by notin. exact Hml. }
  split; [|split].
  - keep_step (form_label_frame host o).
    keep_step (form_required_frame host o).
    keep_step (form_multiline_frame _).
    keep_step (form_name_frame _).
    exact H3ty.
  - keep_step (form_label_frame host o).
    keep_step (form_required_frame host o).
    keep_step (form_multiline_frame _).
    keep_step (form_name_frame _).
    keep_step (form_type_frame _).
    exact H2ff.
  - keep_step (form_label_frame host o).
    keep_step (form_required_frame host o).
    fold d4. unfold form_multiline. rewrite H4ml.
    change (String.eqb "input" "textarea") with false.
    change (String.eqb "input" "input") with true. cbv iota.
    apply dict_get_set_same.
Qed.

End InputInference.

(** The form inference on a text input (spec, testable properties).  For
    an element whose raw attribute source is not a non-empty string and
    whose mapping holds tag "input" (in any case) and a non-empty
    text-input-type, but no type, no fsFormField and no multiline, the
    Inference Engine sets type to the text-input-type, fsFormField to
    "true" and multiline to "false". *)
Theorem input_type_inferred (host : Host) (o : node) (chain : list node)
    (attrs : Dict.t) (base_obj : node) (t v : string) :
  no_string_source host o ->
  Dict.get attrs "tag" = Some t -> lower t = "input" ->
  Dict.get attrs "text-input-type" = Some v -> v <> EmptyString ->
  Dict.mem attrs "type" = false ->
  Dict.mem attrs "fsFormField" = false ->
  Dict.mem attrs "multiline" = false ->
  exists out,
    _augment_attrs_for_readability host o chain attrs base_obj = Ok out
    /\ Dict.get out "type" = Some v
    /\ Dict.get out "fsFormField" = Some "true"
    /\ Dict.get out "multiline" = Some "false".
Proof.
  intros Hsrc Ht Hl Hv Hne Hty Hff Hml.
  destruct (raw_ia2n_ok host o Hsrc) as (ia2n & Hraw).
  exists (augment_finish host o chain (augment_states host o ia2n attrs)).
  split; [unfold _augment_attrs_for_readability; now rewrite Hraw|].
  set (S := augment_states host o ia2n attrs).
  assert (HSt : Dict.get S "tag" = Some t).
  { subst S. keep_step (augment_states_frame host o ia2n). exact Ht. }
  assert (HSv : Dict.get S "text-input-type" = Some v).
  { subst S. keep_step (augment_states_frame host o ia2n). exact Hv. }
  assert (HSm : forall k, In k ["type"; "fsFormField"; "multiline"] ->
                          Dict.mem S k = Dict.mem attrs k).
  { intros k Hk. subst S. cbn [In] in Hk.
    apply (frame_untouched_mem _ _ _ _ _ (augment_states_frame host o ia2n));
      cbn [In]; intuition (subst; discriminate). }
  destruct (form_pass_on_input host o S t v HSt Hl HSv Hne) as (H1 & H2 & H3).
  - rewrite HSm by (cbn [In]; tauto). exact Hty.
  - rewrite HSm by (cbn [In]; tauto). exact Hff.
  - rewrite HSm by (cbn [In]; tauto). exact Hml.
  - unfold augment_finish. repeat split.
    + keep_step aug_describedby_text_frame.
      keep_step aug_strip_readonly_frame.
      keep_step aug_strip_msaa_role_frame.
      keep_step (infer_expanded_for_combobox_frame host o chain).
      exact H1.
    + keep_step aug_describedby_text_frame.
      keep_step aug_strip_readonly_frame.
      keep_step aug_strip_msaa_role_frame.
      keep_step (infer_expanded_for_combobox_frame host o chain).
      exact H2.
    + keep_step aug_describedby_text_frame.
      keep_step aug_strip_readonly_frame.
      keep_step aug_strip_msaa_role_frame.
      keep_step (infer_expanded_for_combobox_frame host o chain).
      exact H3.
Qed.

Lemma input_type_inferred_witness :
  exists out,
    _augment_attrs_for_readability text_input_host 0
      (_dom_chain_with_tags text_input_host (Some 0) default_max_depth)
      (_ia2_attrs text_input_host 0) 0 = Ok out
    /\ Dict.get out "type" = Some "text"
    /\ Dict.get out "fsFormField" = Some "true"
    /\ Dict.get out "multiline" = Some "false".
Proof.
  apply (input_type_inferred text_input_host 0 _ _ 0 "input" "text");
    try (vm_compute; reflexivity).
  - intros s E. discriminate E.
  - discriminate.
Defined.

(** ** Mappings without a repeated key *)

Lemma dict_pop_wf (d : Dict.t) (k : string) :
  Dict.wf d -> Dict.wf (Dict.pop d k).
Proof.
  unfold Dict.wf, Dict.pop, Dict.keys.
  induction d as [|[k0 v0] d IH]; simpl; intros H; [constructor|].
  inversion H as [|? ? Hk0 Hd]; subst.
  destruct (negb (String.eqb k k0)); simpl; [|auto].
  constructor; [|auto].
  intros Hin. apply Hk0. apply in_map_iff in Hin as ([k1 v1] & E & Hin).
  apply filter_In in Hin as [Hin _]. apply in_map_iff. now exists (k1, v1).
Qed.

Lemma dict_loop_wf (items : list (string * string)) :
  forall ksl out, Dict.wf out -> Dict.wf (ia2_dict_loop items ksl out).
Proof.
  induction items as [|[k v] items IH]; intros ksl out H; simpl; [assumption|].
  destruct (nonempty (strip k)); [now apply IH, dict_set_wf|].
  destruct ksl; [now apply IH, dict_set_wf | assumption].
Qed.

Lemma str_loop_wf (parts : list string) :
  forall out, Dict.wf out -> Dict.wf (ia2_str_loop parts out).
Proof.
  induction parts as [|p parts IH]; intros out H; simpl; [assumption|].
  destruct (has_char ":" p); [|now apply IH].
  destruct (split_once ":" p) as [k v]. now apply IH, dict_set_wf.
Qed.

Lemma collect_wf (o : NVDAObject) : Dict.wf (ia2_collect o).
Proof.
  unfold ia2_collect.
  destruct (IA2Attributes o) as [[|d|s]|]; try constructor.
  - apply dict_loop_wf. constructor.
  - destruct (nonempty (strip s)); [apply str_loop_wf|]; constructor.
Qed.

Lemma move_formcontrolname_wf (out : Dict.t) (k : string) :
  Dict.wf out -> Dict.wf (move_formcontrolname out k).
Proof.
  intros H. unfold move_formcontrolname.
  destruct (_ && _); [|assumption].
  destruct (Dict.get out k); [|assumption].
  now apply dict_set_wf, dict_pop_wf.
Qed.

Lemma normalize_formcontrolname_wf (out : Dict.t) :
  Dict.wf out -> Dict.wf (normalize_formcontrolname out).
Proof.
  unfold normalize_formcontrolname. generalize (Dict.keys out).
  intros l. revert out. induction l as [|k l IH]; intros out H; simpl; [assumption|].
  now apply IH, move_formcontrolname_wf.
Qed.

Lemma refine_link_href_wf (out : Dict.t) :
  Dict.wf out -> Dict.wf (refine_link_href out).
Proof.
  intros H. unfold refine_link_href.
  destruct (String.eqb _ "a"); [|assumption].
  cbv zeta. destruct (_ && _); [|assumption].
  now apply dict_pop_wf, dict_set_wf.
Qed.

Lemma enrich_alias_wf (out : Dict.t) (t s : string) :
  Dict.wf out -> Dict.wf (enrich_alias out t s).
Proof.
  intros H. unfold enrich_alias. destruct (_ && _); [|assumption].
  now apply dict_set_wf.
Qed.

Lemma enrich_value_wf (o : NVDAObject) (out : Dict.t) :
  Dict.wf out -> Dict.wf (enrich_value o out).
Proof.
  intros H. unfold enrich_value.
  destruct (Dict.mem out "value"); [now apply refine_link_href_wf|].
  destruct (nonempty (strip (Dict.get_or out "aria-valuenow" EmptyString)));
    [now apply refine_link_href_wf, dict_set_wf|].
  destruct (nonempty (strip (Dict.get_or out "aria-valuetext" EmptyString)));
    [now apply refine_link_href_wf, dict_set_wf|].
  destruct (value o); [|assumption].
  cbv zeta. apply refine_link_href_wf.
  destruct (nonempty _); [now apply dict_set_wf | assumption].
Qed.

(** The Attribute Extractor always returns a proper dictionary: no
    key occurs twice in the mapping of [_ia2_attrs], whatever the raw
    source is (a mapping, a string of pairs that repeats a key, nothing,
    or a read that raises), and every value of it is trimmed. *)
Theorem ia2_attrs_wellformed (host : Host) (o : node) :
  Dict.wf (_ia2_attrs host o) /\ stripped_values (_ia2_attrs host o).
Proof.
  split; [|apply ia2_attrs_stripped].
  unfold _ia2_attrs, ia2_enrich. cbv zeta.
  apply enrich_value_wf, normalize_formcontrolname_wf.
  apply enrich_alias_wf, enrich_alias_wf, collect_wf.
Qed.

(** *** The Inference Engine keeps a mapping a dictionary *)

Ltac wf_branches :=
  cbv zeta; branches;
  repeat first [assumption | apply dict_set_wf | apply dict_pop_wf].

Section StepWf.

Variable host : Host.
Variable o : node.

Lemma augment_states_wf (ia2n d : Dict.t) :
  Dict.wf d -> Dict.wf (augment_states host o ia2n d).
Proof.
  intros H. unfold augment_states. cbv zeta.
  set (c := computed_from _ _). clearbody c.
  assert (H1 : Dict.wf (aug_accessible_name host o (aug_tag host o d))).
  { unfold aug_accessible_name, aug_tag. wf_branches. }
  revert H1. generalize (aug_accessible_name host o (aug_tag host o d)).
  clear d H. intros d H.
  assert (H2 : Dict.wf (aug_expanded host o (aug_explicit_name c (aug_name_from c d)))).
  { unfold aug_expanded, aug_explicit_name, aug_name_from. wf_branches. }
  revert H2. generalize (aug_expanded host o (aug_explicit_name c (aug_name_from c d))).
  clear d H. intros d H.
  assert (H3 : Dict.wf (aug_checked host o (aug_selected host o d))).
  { unfold aug_checked, aug_selected. wf_branches. }
  revert H3. generalize (aug_checked host o (aug_selected host o d)).
  clear d H. intros d H.
  assert (H4 : Dict.wf (aug_pressed host o d)).
  { unfold aug_pressed. cbv zeta. generalize (pressed_from_aria d). intros p.
    assert (Ha : Dict.wf (aug_pop_aria_pressed d))
      by (unfold aug_pop_aria_pressed; wf_branches).
    revert Ha. generalize (aug_pop_aria_pressed d). clear d H. intros d H.
    assert (Hb : Dict.wf (aug_pressed_toggle host o p d))
      by (unfold aug_pressed_toggle; wf_branches).
    revert Hb. generalize (aug_pressed_toggle host o p d). clear d H. intros d H.
    assert (Hc : Dict.wf (aug_pressed_tab d))
      by (unfold aug_pressed_tab; wf_branches).
    revert Hc. generalize (aug_pressed_tab d). clear d H. intros d H.
    assert (Hd : Dict.wf (aug_pressed_keep_aria p d))
      by (unfold aug_pressed_keep_aria; wf_branches).
    revert Hd. generalize (aug_pressed_keep_aria p d). clear d H. intros d H.
    unfold aug_pressed_normalize. wf_branches. }
  revert H4. generalize (aug_pressed host o d). clear d H. intros d H.
  assert (H5 : Dict.wf (aug_table_cell host o d)).
  { unfold aug_table_cell. wf_branches. }
  revert H5. generalize (aug_table_cell host o d). clear d H. intros d H.
  unfold aug_tabindex, aug_layout_guess. wf_branches.
Qed.

Lemma infer_form_attrs_wf (d : Dict.t) :
  Dict.wf d -> Dict.wf (_infer_form_attrs host o d).
Proof.
  intros H. unfold _infer_form_attrs. cbv zeta.
  set (t := lower (or_else _ _)). clearbody t.
  assert (H1 : Dict.wf (form_tooltip (form_checked d))).
  { unfold form_tooltip, form_checked. wf_branches. }
  revert H1. generalize (form_tooltip (form_checked d)). clear d H. intros d H.
  assert (H2 : Dict.wf (form_field t d)).
  { unfold form_field. wf_branches. }
  revert H2. generalize (form_field t d). clear d H. intros d H.
  assert (H3 : Dict.wf (form_name t (form_type t d))).
  { unfold form_name, form_type. wf_branches. }
  revert H3. generalize (form_name t (form_type t d)). clear d H. intros d H.
  assert (H4 : Dict.wf (form_required host o (form_multiline t d))).
  { unfold form_required, form_multiline. wf_branches. }
  revert H4. generalize (form_required host o (form_multiline t d)).
  clear d H. intros d H.
  unfold form_label. wf_branches.
Qed.

Lemma augment_finish_wf (chain : list node) (d : Dict.t) :
  Dict.wf d -> Dict.wf (augment_finish host o chain d).
Proof.
  intros H. unfold augment_finish.
  apply infer_form_attrs_wf in H. revert H.
  generalize (_infer_form_attrs host o d). clear d. intros d H.
  assert (H1 : Dict.wf (_infer_expanded_for_combobox host o chain d)).
  { unfold _infer_expanded_for_combobox. wf_branches. }
  revert H1. generalize (_infer_expanded_for_combobox host o chain d).
  clear d H. intros d H.
  assert (H2 : Dict.wf (aug_strip_readonly (aug_strip_msaa_role d))).
  { unfold aug_strip_readonly, aug_strip_msaa_role. wf_branches. }
  revert H2. generalize (aug_strip_readonly (aug_strip_msaa_role d)).
  clear d H. intros d H.
  unfold aug_describedby_text. wf_branches.
Qed.

End StepWf.

(** What [_augment_attrs_for_readability] returns for a dictionary is a
    dictionary again: its additions, rewrites and removals never leave a
    key twice in the mapping, so the mapping of every reported block is a
    proper dictionary. *)
Theorem augment_preserves_wf (host : Host) (o : node) (chain : list node)
    (attrs : Dict.t) (base_obj : node) (out : Dict.t) :
  Dict.wf attrs ->
  _augment_attrs_for_readability host o chain attrs base_obj = Ok out ->
  Dict.wf out.
Proof.
  intros Hwf H. unfold _augment_attrs_for_readability in H.
  destruct (raw_ia2n host o) as [ia2n|]; [|discriminate H].
  cbn [bind] in H. injection H as <-.
  now apply augment_finish_wf, augment_states_wf.
Qed.

Lemma augment_preserves_wf_witness :
  exists out,
    _augment_attrs_for_readability collapsed_button_host 0 [0]
      (_ia2_attrs collapsed_button_host 0) 0 = Ok out
    /\ Dict.wf out.
Proof.
  eexists. split; [vm_compute; reflexivity|].
  apply (augment_preserves_wf collapsed_button_host 0 [0]
           (_ia2_attrs collapsed_button_host 0) 0).
  - vm_compute. repeat constructor; cbn [In]; intuition discriminate.
  - vm_compute. reflexivity.
Defined.

(** ** The link refinement of the Attribute Extractor *)




(** ** The container preference *)

Lemma prefer_loop_ancestor (host : Host) (steps : nat) :
  forall cur c,
    prefer_loop host steps (Some cur) = Some c ->
    exists k, k < steps /\ ancestor_at host k cur = Some c.
Proof.
  induction steps as [|n IH]; intros cur c H; [discriminate H|].
  cbn [prefer_loop] in H. cbv zeta in H.
  assert (Hhere : Some cur = Some c ->
                  exists k, k < S n /\ ancestor_at host k cur = Some c).
  { intros E. injection E as <-. exists 0. split; [lia | reflexivity]. }
  repeat match type of H with
         | (if ?b then _ else _) = _ => destruct b; [now apply Hhere|]
         end.
  destruct (parent (obj host cur)) as [[p|]|] eqn:Ep;
    [ | destruct n; discriminate H | discriminate H].
  destruct (IH p c H) as (k & Hk & Ha).
  exists (S k). split; [lia|]. cbn [ancestor_at]. now rewrite Ep.
Qed.

(** [_prefer_interactive_container] answers with the object it was given
    or with one of its ancestors at most six parent links up, never with
    nothing; an object tagged [button] is its own container. *)
Theorem prefer_interactive_container_ancestor (host : Host) (o : node) :
  (exists c k, _prefer_interactive_container host (Some o) = Some c
               /\ k <= 6 /\ ancestor_at host k o = Some c)
  /\ (_tag host o = "button"
      -> _prefer_interactive_container host (Some o) = Some o).
Proof.
  split.
  - unfold _prefer_interactive_container.
    destruct (prefer_loop host 7 (Some o)) as [c|] eqn:E.
    + destruct (prefer_loop_ancestor host 7 o c E) as (k & Hk & Ha).
      exists c, k. repeat split; [lia | exact Ha].
    + exists o, 0. repeat split. lia.
  - intros Ht. unfold _prefer_interactive_container.
    cbn [prefer_loop]. cbv zeta. unfold _tag in Ht. rewrite Ht. reflexivity.
Qed.

(** ** The traversal of children *)

Lemma later_sibling_trans (host : Host) (c d e : node) :
  later_sibling host c d -> later_sibling host d e -> later_sibling host c e.
Proof.
  intros Hcd Hde. induction Hde as [|x y _ IH Hn]; [assumption|].
  eapply sibling_next; eassumption.
Qed.

Lemma sibling_run_later (host : Host) (steps : nat) :
  forall c, Forall (later_sibling host c) (sibling_run host steps (Some c)).
Proof.
  induction steps as [|n IH]; intros c; cbn [sibling_run]; constructor.
  - constructor.
  - destruct (try_or (next (obj host c)) None) as [e|] eqn:E.
    + eapply Forall_impl; [|apply IH].
      intros x Hx. eapply later_sibling_trans; [|exact Hx].
      eapply sibling_next; [constructor | exact E].
    + destruct n; constructor.
Qed.

Lemma sibling_run_descendant (host : Host) (r cur : node) :
  descendant host r cur ->
  Forall (descendant host r)
         (sibling_run host 50 (try_or (firstChild (obj host cur)) None)).
Proof.
  intros Hcur.
  destruct (try_or (firstChild (obj host cur)) None) as [c|] eqn:E;
    [|constructor].
  eapply Forall_impl; [|apply sibling_run_later].
  intros x Hx. eapply descendant_child; eassumption.
Qed.

Lemma iter_children_loop_spec (host : Host) (max_nodes : nat) (r : node)
    (fuel : nat) :
  forall queue seen yielded,
    Forall (descendant host r) queue ->
    NoDup (iter_children_loop host fuel max_nodes queue seen yielded)
    /\ (forall x, In x (iter_children_loop host fuel max_nodes queue seen yielded)
                  -> ~ In x seen)
    /\ List.length (iter_children_loop host fuel max_nodes queue seen yielded)
       <= max_nodes - yielded
    /\ Forall (descendant host r)
              (iter_children_loop host fuel max_nodes queue seen yielded).
Proof.
  assert (Hnil : forall seen yielded,
             NoDup (@nil node) /\ (forall x, In x (@nil node) -> ~ In x seen)
             /\ List.length (@nil node) <= max_nodes - yielded
             /\ Forall (descendant host r) (@nil node)).
  { intros seen yielded. repeat split; try constructor; [intros x []|simpl; lia]. }
  induction fuel as [|f IH]; intros queue seen yielded Hq; [apply Hnil|].
  destruct queue as [|cur queue]; [apply Hnil|].
  cbn [iter_children_loop].
  destruct (Nat.ltb yielded max_nodes) eqn:El; [|apply Hnil].
  apply Nat.ltb_lt in El.
  inversion Hq as [|? ? Hcur Hrest]; subst.
  destruct (existsb (Nat.eqb cur) seen) eqn:Es; [now apply IH|].
  destruct (IH (queue ++ sibling_run host 50
                              (try_or (firstChild (obj host cur)) None))
               (cur :: seen) (S yielded)) as (Hnd & Hdis & Hlen & Hdesc).
  { apply Forall_app. split; [assumption | now apply sibling_run_descendant]. }
  repeat split.
  - constructor; [|assumption]. intros Hin. apply (Hdis cur Hin). now left.
  - intros x [<- | Hin].
    + intros Hin. assert (existsb (Nat.eqb cur) seen = true); [|congruence].
      apply existsb_exists. exists cur. split; [assumption | apply Nat.eqb_refl].
    + intros Hs. apply (Hdis x Hin). now right.
  - cbn [List.length]. lia.
  - now constructor.
Qed.

(** [_iter_children] yields no object twice, yields at most [max_nodes]
    objects, yields only the root and objects below it (reached through
    first-child and next-sibling links), and, unless [max_nodes] is zero,
    yields the root first. *)
Theorem iter_children_bounded (host : Host) (root : node) (max_nodes : nat) :
  NoDup (_iter_children host (Some root) max_nodes)
  /\ List.length (_iter_children host (Some root) max_nodes) <= max_nodes
  /\ Forall (descendant host root) (_iter_children host (Some root) max_nodes)
  /\ match max_nodes with
     | O => _iter_children host (Some root) max_nodes = []
     | S _ => exists rest,
                _iter_children host (Some root) max_nodes = root :: rest
     end.
Proof.
  unfold _iter_children.
  destruct (iter_children_loop_spec host max_nodes root
              (iter_children_fuel max_nodes) [root] [] 0)
    as (Hnd & _ & Hlen & Hdesc).
  { repeat constructor. }
  repeat split; [assumption | lia | assumption |].
  destruct max_nodes as [|m]; [reflexivity|].
  unfold iter_children_fuel. cbn [Nat.add iter_children_loop Nat.ltb Nat.leb existsb].
  eexists. reflexivity.
Qed.

(** ** The Canonicalizer *)

(** [_promote_canonical] of an object: the report target is always an
    object; the nested original is either missing or the object itself;
    and an object whose tag is none of img, svg, p, span and br is never
    promoted: its target is its preferred interactive container and
    there is no nested original. *)
Theorem promote_canonical_cases (host : Host) (o : node) (chain : list node) :
  (exists c, fst (_promote_canonical host (Some o) chain) = Some c)
  /\ (snd (_promote_canonical host (Some o) chain) = None
      \/ snd (_promote_canonical host (Some o) chain) = Some o)
  /\ (str_in (_tag host o) ["img"; "svg"; "p"; "span"; "br"] = true
      \/ _promote_canonical host (Some o) chain
         = (_prefer_interactive_container host (Some o), None)).
Proof.
  split; [apply promote_canonical_some|].
  unfold _promote_canonical. destruct chain as [|x chain].
  { split; [now left | now right]. }
  destruct (str_in (_tag host o) ["img"; "svg"]) eqn:E1.
  - assert (E : str_in (_tag host o) ["img"; "svg"; "p"; "span"; "br"] = true).
    { unfold str_in in *. cbn [existsb] in *.
      rewrite !orb_assoc. rewrite orb_false_r in E1. rewrite E1. reflexivity. }
    destruct (_find_nearest_tag host (x :: chain) "a");
      [split; [now right | now left]|].
    destruct (if str_in (_tag host o) ["p"; "span"; "br"] then _ else None);
      split; ((now left) || (now right)).
  - destruct (str_in (_tag host o) ["p"; "span"; "br"]) eqn:E2.
    + assert (E : str_in (_tag host o) ["img"; "svg"; "p"; "span"; "br"] = true).
      { unfold str_in in *. cbn [existsb] in *.
        rewrite orb_false_r in E1. apply orb_false_iff in E1 as [-> ->].
        exact E2. }
      destruct (find (_is_contenteditable_host host) (x :: chain));
        split; ((now left) || (now right)).
    + split; [now left | now right].
Qed.

(** ** The document URL and the effective href *)

Lemma acc_value_url_ok (host : Host) (o : node) :
  exists s, _try_acc_value_url host o = Ok s
            /\ (s = EmptyString \/ is_http_url s = true).
Proof.
  unfold _try_acc_value_url. apply try_return_cases; [now left|].
  intros a. destruct (IAccessibleObject (obj host o)) as [[ia|]|]; simpl;
    try discriminate.
  destruct (accValue ia) as [v|]; simpl; [|discriminate].
  destruct (is_http_url (strip (_safe v))) eqn:E; [|discriminate].
  intros [= <-]. now right.
Qed.

Lemma tree_interceptor_url_ok (host : Host) (o : node) :
  exists s, _try_tree_interceptor_url host o = Ok s
            /\ (s = EmptyString \/ is_http_url s = true).
Proof.
  unfold _try_tree_interceptor_url. apply try_return_cases; [now left|].
  intros a. destruct (treeInterceptor (obj host o)) as [[ti|]|];
    cbn [bind]; try discriminate.
  intros H. right. eapply first_http_value_http; eassumption.
Qed.

Lemma appmodule_url_ok (host : Host) (o : node) :
  exists s, _try_appmodule_url host o = Ok s
            /\ (s = EmptyString \/ is_http_url s = true).
Proof.
  unfold _try_appmodule_url. apply try_return_cases; [now left|].
  intros a. destruct (appModule (obj host o)) as [[am|]|];
    cbn [bind]; try discriminate.
  - intros H. right. eapply first_http_call_http; eassumption.
  - intros [= <-]. now left.
Qed.

Lemma first_nonempty_getters_ok (host : Host) (o : node) :
  first_nonempty (url_getters host) o = Ok None
  \/ exists u, first_nonempty (url_getters host) o = Ok (Some u)
               /\ is_http_url u = true.
Proof.
  unfold url_getters. cbn [first_nonempty].
  destruct (tree_interceptor_url_ok host o) as (s1 & -> & H1).
  destruct (appmodule_url_ok host o) as (s2 & -> & H2).
  destruct (acc_value_url_ok host o) as (s3 & -> & H3).
  cbn [bind].
  destruct H1 as [-> | H1]; [cbn [nonempty] | destruct (nonempty s1); [eauto|]];
  (destruct H2 as [-> | H2]; [cbn [nonempty] | destruct (nonempty s2); [eauto|]]);
  (destruct H3 as [-> | H3]; [cbn [nonempty] | destruct (nonempty s3); [eauto|]]);
  now left.
Qed.

Lemma document_url_ok (host : Host) (base_obj : node) (chain : list node) :
  exists u,
    _document_url host base_obj chain = Ok u
    /\ (u = EmptyString
        \/ is_http_url u = true
        \/ exists doc,
             _find_nearest_tag host chain "#document" = Some doc
             /\ u = strip (Dict.get_or (_ia2_attrs host doc) "href" EmptyString)).
Proof.
  assert (Hrest :
    exists u,
      match first_nonempty (url_getters host) base_obj with
      | Ok from_base =>
          match from_base with
          | Some u => Ok u
          | None =>
              match try_or (getFocusObject host) None with
              | Some focus =>
                  from_focus <- first_nonempty (url_getters host) focus ;;
                  match from_focus with
                  | Some u => Ok u
                  | None => Ok EmptyString
                  end
              | None => Ok EmptyString
              end
          end
      | Raise => Raise
      end = Ok u
      /\ (u = EmptyString \/ is_http_url u = true)).
  { destruct (first_nonempty_getters_ok host base_obj) as [-> | (u & -> & Hu)];
      [|eauto].
    destruct (try_or (getFocusObject host) None) as [focus|]; [|eauto].
    destruct (first_nonempty_getters_ok host focus) as [-> | (u & -> & Hu)];
      cbn [bind]; eauto. }
  unfold _document_url.
  destruct (_find_nearest_tag host chain "#document") as [doc|] eqn:Ed.
  - destruct (nonempty (strip (Dict.get_or (_ia2_attrs host doc) "href" EmptyString)))
      eqn:Eh; cbn [bind].
    + eexists. split; [reflexivity|]. right. right. now exists doc.
    + destruct (acc_value_url_ok host doc) as (s & -> & Hs). cbn [bind].
      destruct Hs as [-> | Hs].
      * cbn [nonempty bind]. destruct Hrest as (u & Hu & Hc).
        exists u. split; [exact Hu | tauto].
      * destruct (nonempty s); cbn [bind]; [eauto|].
        destruct Hrest as (u & Hu & Hc). exists u. split; [exact Hu | tauto].
  - cbn [bind]. destruct Hrest as (u & Hu & Hc).
    exists u. split; [exact Hu | tauto].
Qed.

(** [_document_url] never raises, and what it returns is the empty
    string, an absolute HTTP(S) URL, or the trimmed href attribute of the
    nearest [#document] object of the chain (which is returned as it is).
    [_effective_href] never raises either. *)
Theorem document_url_total (host : Host) (o base_obj : node) (chain : list node) :
  (exists u,
     _document_url host base_obj chain = Ok u
     /\ (u = EmptyString
         \/ is_http_url u = true
         \/ exists doc,
              _find_nearest_tag host chain "#document" = Some doc
              /\ u = strip (Dict.get_or (_ia2_attrs host doc) "href" EmptyString)))
  /\ exists h, _effective_href host o chain base_obj = Ok h.
Proof.
  split; [apply document_url_ok|].
  unfold _effective_href. cbv zeta.
  destruct (document_url_ok host base_obj chain) as (u & Hu & _).
  destruct (acc_value_url_ok host o) as (s & Hs & _).
  destruct (String.eqb (_tag host o) "#document").
  { destruct (nonempty _); eauto. }
  destruct (nonempty _); [eauto|].
  destruct (String.eqb (_tag host o) "a"); [eauto|].
  destruct (str_in (_tag host o) ["img"; "svg"]); [|eauto].
  destruct (_find_nearest_tag host chain "a") as [link|]; [|eauto].
  destruct (nonempty _); [eauto|].
  destruct (acc_value_url_ok host link) as (s' & Hs' & _). eauto.
Qed.

(** Only links, images and the document get an href that is not their
    own: for an object with any other tag and no href of its own,
    [_effective_href] is empty, whatever its ancestors are. *)
Theorem effective_href_not_inherited (host : Host) (o base_obj : node)
    (chain : list node) :
  str_in (_tag host o) ["#document"; "a"; "img"; "svg"] = false ->
  nonempty (strip (Dict.get_or (_ia2_attrs host o) "href" EmptyString)) = false ->
  _effective_href host o chain base_obj = Ok EmptyString.
Proof.
  intros Ht Hh. unfold _effective_href. cbv zeta. rewrite Hh.
  unfold str_in in *. cbn [existsb] in *.
  rewrite orb_false_r in Ht.
  apply orb_false_iff in Ht as [Hd Ht]. apply orb_false_iff in Ht as [Ha Ht].
  apply orb_false_iff in Ht as [Hi Hs].
  rewrite Hd, Ha, Hi, Hs. reflexivity.
Qed.

Lemma effective_href_not_inherited_witness :
  _find_nearest_tag span_in_link_host
    (_dom_chain_with_tags span_in_link_host (Some 0) default_max_depth) "a"
  = Some 1
  /\ _effective_href span_in_link_host 0
       (_dom_chain_with_tags span_in_link_host (Some 0) default_max_depth) 0
     = Ok EmptyString.
Proof.
  split; [vm_compute; reflexivity|].
  apply (effective_href_not_inherited span_in_link_host 0 0); vm_compute; reflexivity.
Defined.

(** ** When the report raises, and when there is nothing to report *)

Lemma node_block_string_source (host : Host) (m base : node) (s : string) :
  IA2Attributes (obj host m) = Ok (IA2Str s) -> s <> EmptyString ->
  node_block host m base = Raise.
Proof.
  intros Hs Hne.
  unfold node_block, node_attrs, _augment_attrs_for_readability, raw_ia2n.
  rewrite Hs. apply nonempty_true_iff in Hne. rewrite Hne. reflexivity.
Qed.

Lemma map_exc_raise_in {A B : Type} (f : A -> exc B) (l : list A) (x : A) :
  In x l -> f x = Raise -> map_exc f l = Raise.
Proof.
  intros Hin Hx. induction l as [|y l IH]; [destruct Hin|].
  cbn [map_exc]. destruct Hin as [-> | Hin].
  - rewrite Hx. reflexivity.
  - destruct (f y); cbn [bind]; [|reflexivity].
    rewrite (IH Hin). reflexivity.
Qed.

(** The blocks of a report, over any canonical object, nested original
    and list of ancestors: one block that raises makes them raise. *)
Lemma report_blocks_raise_in (host : Host) (title : string) (c b : node)
    (promoted : option node) (anc : list node) (n : node) :
  In n (c :: match promoted with
             | Some p => if Nat.eqb p c then [] else [p]
             | None => []
             end ++ anc) ->
  node_block host n b = Raise ->
  (c_block <- node_block host c b ;;
   nested <-
     match promoted with
     | Some p =>
         if Nat.eqb p c then Ok []
         else p_block <- node_block host p b ;; Ok ["Nested element:"; p_block]
     | None => Ok []
     end ;;
   ancestors <- map_exc (fun a => node_block host a b) anc ;;
   Ok (title :: c_block :: nested ++ ancestors)) = Raise.
Proof.
  intros Hin Hn. destruct Hin as [<- | Hin]; [rewrite Hn; reflexivity|].
  destruct (node_block host c b) as [c_block|]; cbn [bind]; [|reflexivity].
  apply in_app_or in Hin.
  assert (Hanc : In n anc ->
                 map_exc (fun a => node_block host a b) anc = Raise).
  { intros H. exact (map_exc_raise_in _ anc n H Hn). }
  destruct promoted as [p|].
  - destruct (Nat.eqb p c).
    + destruct Hin as [[] | Hin]. cbn [bind]. rewrite (Hanc Hin). reflexivity.
    + destruct Hin as [[<- | []] | Hin].
      * rewrite Hn. reflexivity.
      * destruct (node_block host p b); cbn [bind]; [|reflexivity].
        rewrite (Hanc Hin). reflexivity.
  - destruct Hin as [[] | Hin]. cbn [bind]. rewrite (Hanc Hin). reflexivity.
Qed.

Lemma report_lines_raise_in (host : Host) (advanced : bool) (base n : node) :
  In n (report_objects host base) ->
  (forall b, node_block host n b = Raise) ->
  report_lines host advanced base = Raise.
Proof.
  unfold report_lines, report_objects.
  destruct (report_start host base) as [b chain].
  destruct (_promote_canonical host (Some b) chain) as [canonical promoted].
  intros Hin Hn.
  exact (report_blocks_raise_in host _ _ b promoted _ n Hin (Hn b)).
Qed.

(** A string as raw attribute source makes the report fail: when one of
    the reported objects (the canonical object, the nested original, an
    ancestor of the canonical object) has a non-empty string as its
    [IA2Attributes], [_build_report] raises, in either mode
    ([_augment_attrs_for_readability] calls [get] on that value outside
    its [try] blocks, before the two modes part). *)
Theorem build_report_raises_on_string_source (host : Host)
    (render_advanced : node -> string -> string) (advanced : bool)
    (base n : node) (s : string) :
  _get_candidate_object host = Some base ->
  _is_web_context host (Some base) = true ->
  In n (report_objects host base) ->
  IA2Attributes (obj host n) = Ok (IA2Str s) ->
  s <> EmptyString ->
  _build_report host render_advanced advanced = Raise.
Proof.
  intros Hc Hw Hin Hs Hne. unfold _build_report. rewrite Hc, Hw. cbn [negb].
  rewrite (report_lines_raise_in host advanced base n Hin).
  - reflexivity.
  - intros b. exact (node_block_string_source host n b s Hs Hne).
Qed.

Lemma build_report_raises_on_string_source_witness :
  _build_report string_source_in_document_host (fun _ s => s) false = Raise
  /\ _build_report string_source_in_document_host (fun _ s => s) true = Raise.
Proof.
  split;
    apply (build_report_raises_on_string_source string_source_in_document_host
             (fun _ s => s) _ 0 0 "tag:div;xml-roles:switch;checkable:true");
    try (vm_compute; reflexivity);
    try (vm_compute; left; reflexivity);
    discriminate.
Defined.

(** With neither a focus object nor a navigator object (the call raises
    or gives nothing) there is no candidate, and [_build_report], in
    either mode, returns the translated message "No element found." with
    the flag [False]. *)
Theorem report_without_candidate (host : Host)
    (render_advanced : node -> string -> string) (advanced : bool) :
  try_or (getFocusObject host) None = None ->
  try_or (getNavigatorObject host) None = None ->
  _get_candidate_object host = None
  /\ _build_report host render_advanced advanced
     = Ok (translate host msg_no_element, false).
Proof.
  intros Hf Hn.
  assert (Hc : _get_candidate_object host = None).
  { unfold _get_candidate_object, caret_object. rewrite Hn, Hf.
    destruct (getFocusObject host) as [[f|]|]; try discriminate Hf; reflexivity. }
  split; [exact Hc|]. unfold _build_report. now rewrite Hc.
Qed.

Lemma report_without_candidate_witness :
  _build_report (sample_host [] None) (fun _ s => s) false
  = Ok ("No element found.", false).
Proof.
  apply (report_without_candidate (sample_host [] None) (fun _ s => s) false);
    reflexivity.
Defined.

(** ** Rules of the Inference Engine, over the whole pipeline *)

Tactic Notation "pass_get" uconstr(L) :=
  (erewrite (frame_untouched _ _ _ _ _ L) by notin).
Tactic Notation "pass_get_or" uconstr(L) :=
  (erewrite (frame_untouched_get_or _ _ _ _ _ _ L) by notin).
Tactic Notation "pass_mem" uconstr(L) :=
  (erewrite (frame_untouched_mem _ _ _ _ _ L) by notin).

Lemma augment_ok_inv (host : Host) (o : node) (chain : list node)
    (attrs : Dict.t) (base_obj : node) (out : Dict.t) :
  _augment_attrs_for_readability host o chain attrs base_obj = Ok out ->
  exists ia2n,
    out = augment_finish host o chain (augment_states host o ia2n attrs).
Proof.
  unfold _augment_attrs_for_readability.
  destruct (raw_ia2n host o) as [ia2n|]; cbn [bind]; [|discriminate].
  intros [= <-]. now exists ia2n.
Qed.

Section InferenceRules.

Variable host : Host.
Variable o : node.
Variable chain : list node.
Variable ia2n : Dict.t.

Lemma augment_states_layout (attrs : Dict.t) :
  augment_states host o ia2n attrs
  = aug_tabindex host o (upto_layout host o ia2n attrs).
Proof. reflexivity. Qed.

(** Keys the statements between the tag and the tab index leave alone. *)
Lemma upto_layout_get (attrs : Dict.t) (k : string) :
  ~ In k ["accessible-name"; "accessible-name-from"; "explicit-name-from";
          "expanded"; "selected"; "checked"; "aria-pressed"; "pressed";
          "colspan"; "rowspan"; "layout-guess"] ->
  Dict.get (upto_layout host o ia2n attrs) k
  = Dict.get (aug_tag host o attrs) k.
Proof.
  intros Hk. cbn [In] in Hk. unfold upto_layout, upto_selected. cbv zeta.
  erewrite (frame_untouched _ _ _ _ _ (aug_layout_guess_frame host o))
    by (cbn [In]; tauto).
  erewrite (frame_untouched _ _ _ _ _ (aug_table_cell_frame host o))
    by (cbn [In]; tauto).
  erewrite (frame_untouched _ _ _ _ _ (aug_pressed_frame host o))
    by (cbn [In]; tauto).
  erewrite (frame_untouched _ _ _ _ _ (aug_checked_frame host o))
    by (cbn [In]; tauto).
  erewrite (frame_untouched _ _ _ _ _ (aug_selected_frame host o))
    by (cbn [In]; tauto).
  erewrite (frame_untouched _ _ _ _ _ (aug_expanded_frame host o))
    by (cbn [In]; tauto).
  erewrite (frame_untouched _ _ _ _ _ (aug_explicit_name_frame _))
    by (cbn [In]; tauto).
  erewrite (frame_untouched _ _ _ _ _ (aug_name_from_frame _))
    by (cbn [In]; tauto).
  erewrite (frame_untouched _ _ _ _ _ (aug_accessible_name_frame host o))
    by (cbn [In]; tauto).
  reflexivity.
Qed.

Lemma aug_tag_get_other (attrs : Dict.t) (k : string) :
  k <> "tag" -> Dict.get (aug_tag host o attrs) k = Dict.get attrs k.
Proof.
  intros Hk. apply (frame_untouched _ _ _ _ _ (aug_tag_frame host o));
    cbn [In]; intuition congruence.
Qed.

Lemma upto_layout_get_attrs (attrs : Dict.t) (k : string) :
  ~ In k ["tag"; "accessible-name"; "accessible-name-from"; "explicit-name-from";
          "expanded"; "selected"; "checked"; "aria-pressed"; "pressed";
          "colspan"; "rowspan"; "layout-guess"] ->
  Dict.get (upto_layout host o ia2n attrs) k = Dict.get attrs k.
Proof.
  intros Hk. cbn [In] in Hk.
  rewrite upto_layout_get by (cbn [In]; tauto).
  apply aug_tag_get_other. intuition congruence.
Qed.

(** The tag the later statements read is the effective tag of the
    input. *)
Lemma aug_tag_effective (attrs : Dict.t) :
  or_else (Dict.get_or (aug_tag host o attrs) "tag" EmptyString) (_tag host o)
  = or_else (Dict.get_or attrs "tag" EmptyString) (_tag host o).
Proof.
  unfold aug_tag.
  destruct (nonempty (_tag host o)) eqn:Et; cbn [andb]; [|reflexivity].
  destruct (Dict.mem attrs "tag") eqn:Em; cbn [negb]; [reflexivity|].
  unfold Dict.get_or. rewrite dict_get_set_same.
  apply dict_mem_false_get in Em. rewrite Em.
  unfold or_else. now rewrite Et.
Qed.

Lemma upto_layout_effective_tag (attrs : Dict.t) :
  lower (or_else (Dict.get_or (upto_layout host o ia2n attrs) "tag" EmptyString)
                 (_tag host o))
  = effective_tag host o attrs.
Proof.
  unfold effective_tag, Dict.get_or at 1.
  rewrite upto_layout_get by notin.
  fold (Dict.get_or (aug_tag host o attrs) "tag" EmptyString).
  now rewrite aug_tag_effective.
Qed.

Lemma tabindex_after_states (attrs : Dict.t) :
  Dict.mem attrs "tabindex" = false ->
  Dict.get (augment_states host o ia2n attrs) "tabindex"
  = if negb (str_in (effective_tag host o attrs) ["#document"; "body"; "html"])
       && role_is attrs "tab" && focus_signal host o
    then Some "0" else None.
Proof.
  intros Hm. rewrite augment_states_layout. unfold aug_tabindex.
  assert (Hn : Dict.get (upto_layout host o ia2n attrs) "tabindex" = None).
  { rewrite upto_layout_get_attrs by notin. now apply dict_mem_false_get. }
  unfold Dict.mem at 1. rewrite Hn. cbv zeta.
  rewrite upto_layout_effective_tag.
  destruct (str_in (effective_tag host o attrs) ["#document"; "body"; "html"]);
    cbn [negb andb]; [exact Hn|].
  unfold Dict.get_or. rewrite !upto_layout_get_attrs by notin.
  fold (Dict.get_or attrs "role" EmptyString).
  fold (Dict.get_or attrs "xml-roles" EmptyString).
  fold (role_is attrs "tab"). fold (focus_signal host o).
  destruct (role_is attrs "tab"); cbn [andb]; [|exact Hn].
  destruct (focus_signal host o); [apply dict_get_set_same | exact Hn].
Qed.

Lemma selected_after_states (attrs : Dict.t) :
  Dict.mem attrs "selected" = false ->
  Dict.get (augment_states host o ia2n attrs) "selected"
  = if selected_signal host o then Some "true"
    else if selectable_role attrs then Some "false" else None.
Proof.
  intros Hm. rewrite augment_states_split.
  pass_get (aug_tabindex_frame host o).
  pass_get (aug_layout_guess_frame host o).
  pass_get (aug_table_cell_frame host o).
  pass_get (aug_pressed_frame host o).
  pass_get (aug_checked_frame host o).
  unfold upto_selected. cbv zeta. unfold aug_selected.
  unfold Dict.mem, Dict.get_or.
  rewrite !before_selected_frame by notin.
  apply dict_mem_false_get in Hm. rewrite Hm.
  fold (Dict.get_or attrs "role" EmptyString).
  fold (Dict.get_or attrs "xml-roles" EmptyString).
  fold (selected_signal host o). fold (selectable_role attrs).
  destruct (selected_signal host o); [apply dict_get_set_same|].
  destruct (selectable_role attrs); [apply dict_get_set_same|].
  now rewrite before_selected_frame by notin.
Qed.

End InferenceRules.

(** The tab index is inferred for focusable tabs only: for a mapping
    without "tabindex", the output of [_augment_attrs_for_readability]
    holds tabindex "0" exactly when the role (or structured role) is
    tab, the element carries a focusable or focused state, and the tag
    is none of [#document], body and html; otherwise the output has no
    tab index at all. *)
Theorem tabindex_only_for_focusable_tabs (host : Host) (o : node)
    (chain : list node) (attrs : Dict.t) (base_obj : node) (out : Dict.t) :
  _augment_attrs_for_readability host o chain attrs base_obj = Ok out ->
  Dict.mem attrs "tabindex" = false ->
  Dict.get out "tabindex"
  = if negb (str_in (effective_tag host o attrs) ["#document"; "body"; "html"])
       && role_is attrs "tab" && focus_signal host o
    then Some "0" else None.
Proof.
  intros H Hm. destruct (augment_ok_inv _ _ _ _ _ _ H) as (ia2n & ->).
  pass_get (augment_finish_frame host o chain).
  now apply tabindex_after_states.
Qed.

Lemma tabindex_only_for_focusable_tabs_witness :
  exists out,
    _augment_attrs_for_readability focusable_tab_host 0 [0]
      (_ia2_attrs focusable_tab_host 0) 0 = Ok out
    /\ Dict.get out "tabindex" = Some "0".
Proof.
  destruct (_augment_attrs_for_readability focusable_tab_host 0 [0]
              (_ia2_attrs focusable_tab_host 0) 0) as [out|] eqn:E;
    [|vm_compute in E; discriminate E].
  exists out. split; [reflexivity|].
  rewrite (tabindex_only_for_focusable_tabs focusable_tab_host 0 [0]
             (_ia2_attrs focusable_tab_host 0) 0 out E);
    vm_compute; reflexivity.
Defined.

(** The selected value is inferred only where selection makes sense: for
    a mapping without "selected", the output holds selected "true" when
    the element carries a selected state, selected "false" when it does
    not but its role is tab, option or treeitem, and no selected value
    otherwise. *)
Theorem selected_inferred (host : Host) (o : node)
    (chain : list node) (attrs : Dict.t) (base_obj : node) (out : Dict.t) :
  _augment_attrs_for_readability host o chain attrs base_obj = Ok out ->
  Dict.mem attrs "selected" = false ->
  Dict.get out "selected"
  = if selected_signal host o then Some "true"
    else if selectable_role attrs then Some "false" else None.
Proof.
  intros H Hm. destruct (augment_ok_inv _ _ _ _ _ _ H) as (ia2n & ->).
  pass_get (augment_finish_frame host o chain).
  now apply selected_after_states.
Qed.

Lemma selected_inferred_witness :
  exists out,
    _augment_attrs_for_readability focusable_tab_host 0 [0]
      (_ia2_attrs focusable_tab_host 0) 0 = Ok out
    /\ Dict.get out "selected" = Some "false".
Proof.
  destruct (_augment_attrs_for_readability focusable_tab_host 0 [0]
              (_ia2_attrs focusable_tab_host 0) 0) as [out|] eqn:E;
    [|vm_compute in E; discriminate E].
  exists out. split; [reflexivity|].
  rewrite (selected_inferred focusable_tab_host 0 [0]
             (_ia2_attrs focusable_tab_host 0) 0 out E);
    vm_compute; reflexivity.
Defined.

Section InferenceRulesLate.

Variable host : Host.
Variable o : node.
Variable chain : list node.
Variable ia2n : Dict.t.

(** What the last three statements do to the host role and to readonly. *)
Lemma strip_steps_tag (d : Dict.t) :
  Dict.get (aug_describedby_text (aug_strip_readonly (aug_strip_msaa_role d))) "tag"
  = Dict.get d "tag".
Proof.
  pass_get aug_describedby_text_frame.
  pass_get aug_strip_readonly_frame.
  pass_get aug_strip_msaa_role_frame.
  reflexivity.
Qed.

Lemma strip_steps_msaa (d : Dict.t) :
  _is_control_tag (lower (strip (Dict.get_or d "tag" EmptyString))) = false ->
  Dict.mem (aug_describedby_text (aug_strip_readonly (aug_strip_msaa_role d)))
           "MSAA Role" = false.
Proof.
  intros Hc.
  pass_mem aug_describedby_text_frame.
  pass_mem aug_strip_readonly_frame.
  unfold aug_strip_msaa_role. cbv zeta. rewrite Hc. cbn [negb].
  rewrite andb_true_r.
  destruct (Dict.mem d "MSAA Role") eqn:E; [|exact E].
  unfold Dict.mem. now rewrite dict_get_pop_same.
Qed.

Lemma strip_steps_readonly (d : Dict.t) :
  lower (strip (Dict.get_or d "tag" EmptyString)) = "#document" ->
  Dict.mem (aug_describedby_text (aug_strip_readonly (aug_strip_msaa_role d)))
           "readonly" = false.
Proof.
  intros Ht.
  pass_mem aug_describedby_text_frame.
  unfold aug_strip_readonly.
  unfold Dict.get_or at 1.
  pass_get aug_strip_msaa_role_frame.
  fold (Dict.get_or d "tag" EmptyString). rewrite Ht. cbn [String.eqb Ascii.eqb Bool.eqb].
  unfold Dict.mem. now rewrite dict_get_pop_same.
Qed.

Lemma strip_steps_wrappers (d : Dict.t) :
  (_is_control_tag
     (lower (strip (Dict.get_or
                      (aug_describedby_text (aug_strip_readonly (aug_strip_msaa_role d)))
                      "tag" EmptyString))) = false ->
   Dict.mem (aug_describedby_text (aug_strip_readonly (aug_strip_msaa_role d)))
            "MSAA Role" = false)
  /\ (lower (strip (Dict.get_or
                      (aug_describedby_text (aug_strip_readonly (aug_strip_msaa_role d)))
                      "tag" EmptyString)) = "#document" ->
      Dict.mem (aug_describedby_text (aug_strip_readonly (aug_strip_msaa_role d)))
               "readonly" = false).
Proof.
  unfold Dict.get_or. rewrite strip_steps_tag.
  fold (Dict.get_or d "tag" EmptyString).
  split; [apply strip_steps_msaa | apply strip_steps_readonly].
Qed.

End InferenceRulesLate.

(** The host role and the read-only flag of wrappers are not reported:
    in the output of [_augment_attrs_for_readability] a "MSAA Role" key
    only stays with a form control tag (input, textarea, select, button,
    option, meter, progress), and a [#document] has no "readonly" key. *)
Theorem wrappers_lose_host_role (host : Host) (o : node)
    (chain : list node) (attrs : Dict.t) (base_obj : node) (out : Dict.t) :
  _augment_attrs_for_readability host o chain attrs base_obj = Ok out ->
  (_is_control_tag (lower (strip (Dict.get_or out "tag" EmptyString))) = false ->
   Dict.mem out "MSAA Role" = false)
  /\ (lower (strip (Dict.get_or out "tag" EmptyString)) = "#document" ->
      Dict.mem out "readonly" = false).
Proof.
  intros H. destruct (augment_ok_inv _ _ _ _ _ _ H) as (ia2n & ->).
  unfold augment_finish. apply strip_steps_wrappers.
Qed.

Lemma wrappers_lose_host_role_witness :
  exists out,
    _augment_attrs_for_readability wrapper_with_msaa_role_host 0 [0]
      (_ia2_attrs wrapper_with_msaa_role_host 0) 0 = Ok out
    /\ Dict.get (_ia2_attrs wrapper_with_msaa_role_host 0) "MSAA Role"
       = Some "grouping"
    /\ Dict.mem out "MSAA Role" = false.
Proof.
  destruct (_augment_attrs_for_readability wrapper_with_msaa_role_host 0 [0]
              (_ia2_attrs wrapper_with_msaa_role_host 0) 0) as [out|] eqn:E;
    [|vm_compute in E; discriminate E].
  exists out. split; [reflexivity|]. split; [vm_compute; reflexivity|].
  apply (proj1 (wrappers_lose_host_role wrapper_with_msaa_role_host 0 [0]
                  (_ia2_attrs wrapper_with_msaa_role_host 0) 0 out E)).
  vm_compute in E. injection E as <-. vm_compute. reflexivity.
Defined.

Section InferenceRulesValues.

Variable host : Host.
Variable o : node.
Variable chain : list node.
Variable ia2n : Dict.t.

(** Table cells. *)
Lemma table_cell_after (attrs : Dict.t) :
  str_in (_tag host o) ["td"; "th"] = true ->
  Dict.mem attrs "colspan" = false ->
  Dict.mem attrs "rowspan" = false ->
  Dict.get (augment_finish host o chain (augment_states host o ia2n attrs)) "colspan"
  = Some (span_text (colSpan (obj host o)) (colspan (obj host o)))
  /\ Dict.get (augment_finish host o chain (augment_states host o ia2n attrs)) "rowspan"
     = Some (span_text (rowSpan (obj host o)) (rowspan (obj host o))).
Proof.
  intros Ht Hc Hr.
  set (Z := aug_pressed host o (aug_checked host o (upto_selected host o ia2n attrs))).
  assert (HZ : forall k, In k ["colspan"; "rowspan"] ->
                         Dict.mem Z k = Dict.mem attrs k).
  { intros k Hk. subst Z. cbn [In] in Hk.
    erewrite (frame_untouched_mem _ _ _ _ _ (aug_pressed_frame host o))
      by (cbn [In]; intuition (subst; discriminate)).
    erewrite (frame_untouched_mem _ _ _ _ _ (aug_checked_frame host o))
      by (cbn [In]; intuition (subst; discriminate)).
    apply upto_selected_mem. cbn [In]. intuition (subst; discriminate). }
  assert (Hcell : aug_table_cell host o Z
                  = Dict.set
                      (Dict.set Z "colspan"
                         (span_text (colSpan (obj host o)) (colspan (obj host o))))
                      "rowspan"
                      (span_text (rowSpan (obj host o)) (rowspan (obj host o)))).
  { unfold aug_table_cell. rewrite Ht. cbv zeta.
    rewrite (HZ "colspan") by (cbn [In]; tauto). rewrite Hc.
    rewrite dict_mem_set. rewrite (HZ "rowspan") by (cbn [In]; tauto).
    rewrite Hr. reflexivity. }
  split.
  - pass_get (augment_finish_frame host o chain).
    rewrite augment_states_split.
    pass_get (aug_tabindex_frame host o).
    pass_get (aug_layout_guess_frame host o).
    fold Z. rewrite Hcell.
    rewrite dict_get_set_other by discriminate. apply dict_get_set_same.
  - pass_get (augment_finish_frame host o chain).
    rewrite augment_states_split.
    pass_get (aug_tabindex_frame host o).
    pass_get (aug_layout_guess_frame host o).
    fold Z. rewrite Hcell. apply dict_get_set_same.
Qed.

(** Toggle buttons. *)
Lemma aug_pressed_toggle_value (d : Dict.t) (t : string) :
  Dict.mem d "pressed" = false ->
  is_toggle host o d = true ->
  Dict.get d "tag" = Some t ->
  str_in (lower t) ["button"; "a"; "div"; "span"] = true ->
  Dict.get (aug_pressed host o d) "pressed"
  = Some (if pressed_signal host o then "true"
          else match pressed_from_aria d with
               | Some b => bool_str b
               | None => "false"
               end).
Proof.
  intros Hm Htg Ht Hin. unfold aug_pressed. cbv zeta.
  set (p := pressed_from_aria d).
  set (P := aug_pop_aria_pressed d).
  assert (HP : forall k, k <> "aria-pressed" -> Dict.get P k = Dict.get d k).
  { intros k Hk. subst P.
    apply (frame_untouched _ _ _ _ _ aug_pop_aria_pressed_frame);
      cbn [In]; intuition congruence. }
  set (b := if pressed_signal host o then true
            else match p with Some b => b | None => false end).
  assert (Htoggle : aug_pressed_toggle host o p P = Dict.set P "pressed" (bool_str b)).
  { unfold aug_pressed_toggle, Dict.mem, Dict.get_or.
    rewrite (HP "pressed"), (HP "tag") by discriminate.
    apply dict_mem_false_get in Hm. rewrite Hm, Ht. cbv zeta.
    rewrite (is_toggle_ext host o P d) by (apply HP; discriminate).
    rewrite Htg, Hin. cbn [andb orb].
    fold (pressed_signal host o). subst b.
    destruct (pressed_signal host o); [reflexivity|].
    destruct p as [[|]|]; reflexivity. }
  rewrite Htoggle.
  unfold aug_pressed_tab. rewrite dict_mem_set, String.eqb_refl. cbn [orb].
  unfold aug_pressed_keep_aria. rewrite dict_mem_set, String.eqb_refl. cbn [orb].
  rewrite normalize_set_bool. subst b.
  destruct (pressed_signal host o); [reflexivity|].
  destruct p as [[|]|]; reflexivity.
Qed.

Lemma toggle_pressed_after (attrs : Dict.t) (t : string) :
  Dict.get attrs "tag" = Some t ->
  str_in (lower t) ["button"; "a"; "div"; "span"] = true ->
  Dict.mem attrs "pressed" = false ->
  is_toggle host o attrs = true ->
  Dict.get (augment_finish host o chain (augment_states host o ia2n attrs)) "pressed"
  = Some (if pressed_signal host o then "true"
          else match pressed_from_aria attrs with
               | Some b => bool_str b
               | None => "false"
               end).
Proof.
  intros Ht Hin Hm Htg.
  pass_get (augment_finish_frame host o chain).
  rewrite augment_states_split.
  pass_get (aug_tabindex_frame host o).
  pass_get (aug_layout_guess_frame host o).
  pass_get (aug_table_cell_frame host o).
  set (X := aug_checked host o (upto_selected host o ia2n attrs)).
  assert (HX : forall k, ~ In k ["tag"; "accessible-name"; "accessible-name-from";
                                 "explicit-name-from"; "expanded"; "selected";
                                 "checked"] ->
                         Dict.get X k = Dict.get attrs k).
  { intros k Hk. cbn [In] in Hk. subst X.
    erewrite (frame_untouched _ _ _ _ _ (aug_checked_frame host o))
      by (cbn [In]; tauto).
    apply upto_selected_untouched. cbn [In]. tauto. }
  assert (HXt : Dict.get X "tag" = Some t).
  { subst X. keep_step (aug_checked_frame host o).
    unfold upto_selected. cbv zeta.
    keep_step (aug_selected_frame host o).
    keep_step (aug_expanded_frame host o).
    keep_step (aug_explicit_name_frame _).
    keep_step (aug_name_from_frame _).
    keep_step (aug_accessible_name_frame host o).
    keep_step (aug_tag_frame host o).
    exact Ht. }
  rewrite (aug_pressed_toggle_value X t).
  - unfold pressed_from_aria, Dict.get_or. now rewrite (HX "aria-pressed") by notin.
  - unfold Dict.mem. rewrite HX by notin. exact Hm.
  - rewrite (is_toggle_ext host o X attrs); [exact Htg | |]; apply HX; notin.
  - exact HXt.
  - exact Hin.
Qed.

(** The form-field mark of document-level tags. *)
Lemma doc_tag_not_interactive (t : string) :
  str_in t ["#document"; "body"; "html"] = true ->
  str_in t interactive_tags = false.
Proof.
  intros H. apply str_in_iff in H. cbn [In] in H.
  destruct H as [<- | [<- | [<- | []]]]; reflexivity.
Qed.

Lemma form_field_doc_tag (d : Dict.t) :
  str_in (lower (or_else (Dict.get_or d "tag" EmptyString) (_tag host o)))
         ["#document"; "body"; "html"] = true ->
  Dict.get (_infer_form_attrs host o d) "fsFormField"
  = if interactive_role d then Some "true" else None.
Proof.
  intros Ht. unfold _infer_form_attrs. cbv zeta.
  pass_get (form_label_frame host o).
  pass_get (form_required_frame host o).
  pass_get (form_multiline_frame _).
  pass_get (form_name_frame _).
  pass_get (form_type_frame _).
  set (X := form_tooltip (form_checked d)).
  assert (HX : forall k, ~ In k ["checked"; "title"; "label"] ->
                         Dict.get_or X k EmptyString = Dict.get_or d k EmptyString).
  { intros k Hk. cbn [In] in Hk. subst X.
    erewrite (frame_untouched_get_or _ _ _ _ _ _ form_tooltip_frame)
      by (cbn [In]; tauto).
    erewrite (frame_untouched_get_or _ _ _ _ _ _ form_checked_frame)
      by (cbn [In]; tauto).
    reflexivity. }
  rewrite (HX "tag") by notin.
  unfold form_field. rewrite Ht. cbv zeta.
  unfold Dict.mem at 1. rewrite dict_get_pop_same.
  rewrite (doc_tag_not_interactive _ Ht). cbn [orb].
  rewrite !dict_get_or_pop_other by discriminate.
  rewrite (HX "role"), (HX "xml-roles") by notin.
  fold (interactive_role d).
  destruct (interactive_role d);
    [apply dict_get_set_same | apply dict_get_pop_same].
Qed.

Lemma form_field_after (attrs : Dict.t) :
  str_in (effective_tag host o attrs) ["#document"; "body"; "html"] = true ->
  Dict.get (augment_finish host o chain (augment_states host o ia2n attrs))
           "fsFormField"
  = if interactive_role attrs then Some "true" else None.
Proof.
  intros Ht. unfold augment_finish.
  pass_get aug_describedby_text_frame.
  pass_get aug_strip_readonly_frame.
  pass_get aug_strip_msaa_role_frame.
  pass_get (infer_expanded_for_combobox_frame host o chain).
  rewrite form_field_doc_tag.
  - unfold interactive_role.
    now rewrite !(frame_untouched_get_or _ _ _ _ _ _ (augment_states_frame host o ia2n))
      by notin.
  - rewrite augment_states_layout.
    pass_get_or (aug_tabindex_frame host o).
    now rewrite upto_layout_effective_tag.
Qed.

(** The expanded value. *)
Lemma expanded_after (attrs : Dict.t) :
  expanded_signal host o = true ->
  Dict.get (augment_finish host o chain (augment_states host o ia2n attrs))
           "expanded"
  = Some (if collapsed_signal host o then "false" else "true").
Proof.
  intros Hs.
  keep_step (augment_finish_frame host o chain).
  rewrite augment_states_split.
  keep_step (aug_tabindex_frame host o).
  keep_step (aug_layout_guess_frame host o).
  keep_step (aug_table_cell_frame host o).
  keep_step (aug_pressed_frame host o).
  keep_step (aug_checked_frame host o).
  unfold upto_selected. cbv zeta.
  keep_step (aug_selected_frame host o).
  unfold aug_expanded. unfold expanded_signal in Hs.
  fold (collapsed_signal host o) in *.
  destruct (collapsed_signal host o); [apply dict_get_set_same|].
  cbn [orb] in Hs. rewrite Hs. apply dict_get_set_same.
Qed.

Lemma combobox_sets_expanded (d : Dict.t) :
  is_combobox d = true ->
  Dict.mem d "expanded" = false ->
  Dict.get (_infer_expanded_for_combobox host o chain d) "expanded" = Some "true"
  \/ Dict.get (_infer_expanded_for_combobox host o chain d) "expanded" = Some "false".
Proof.
  intros Hc Hm. unfold _infer_expanded_for_combobox. cbv zeta.
  unfold is_combobox in Hc. rewrite Hc, Hm. cbn [negb].
  destruct (existsb _ chain); [left; apply dict_get_set_same|].
  rewrite dict_get_set_same.
  destruct (existsb (exposes_listbox host) _); [now left | now right].
Qed.

Lemma combobox_after (attrs : Dict.t) :
  is_combobox attrs = true ->
  exists v,
    Dict.get (augment_finish host o chain (augment_states host o ia2n attrs))
             "expanded" = Some v
    /\ (Dict.mem attrs "expanded" = false -> v = "true" \/ v = "false").
Proof.
  intros Hc.
  assert (Hexp : forall v,
             Dict.get (augment_states host o ia2n attrs) "expanded" = Some v ->
             Dict.mem attrs "expanded" = false -> v = "true" \/ v = "false").
  { intros v Hv Hm. rewrite augment_states_split in Hv. revert Hv.
    pass_get (aug_tabindex_frame host o).
    pass_get (aug_layout_guess_frame host o).
    pass_get (aug_table_cell_frame host o).
    pass_get (aug_pressed_frame host o).
    pass_get (aug_checked_frame host o).
    unfold upto_selected. cbv zeta.
    pass_get (aug_selected_frame host o).
    unfold aug_expanded.
    destruct (_state_in host o COLLAPSED || _has_state_name host o "collapsed").
    { rewrite dict_get_set_same. intros [= <-]. now right. }
    destruct (_state_in host o EXPANDED || _has_state_name host o "expanded").
    { rewrite dict_get_set_same. intros [= <-]. now left. }
    pass_get (aug_explicit_name_frame _).
    pass_get (aug_name_from_frame _).
    pass_get (aug_accessible_name_frame host o).
    pass_get (aug_tag_frame host o).
    apply dict_mem_false_get in Hm. rewrite Hm. discriminate. }
  destruct (Dict.get (augment_states host o ia2n attrs) "expanded") as [v|] eqn:E.
  - exists v. split; [|now apply Hexp].
    keep_step (augment_finish_frame host o chain). exact E.
  - set (F := _infer_form_attrs host o (augment_states host o ia2n attrs)).
    assert (HF : forall k, In k ["xml-roles"; "role"; "haspopup"; "expanded"] ->
                           Dict.get F k = Dict.get attrs k
                           \/ (k = "expanded" /\ Dict.get F k = None)).
    { intros k Hk. cbn [In] in Hk. subst F.
      erewrite (frame_untouched _ _ _ _ _ (infer_form_attrs_frame host o))
        by (cbn [In]; intuition (subst; discriminate)).
      destruct (string_dec k "expanded") as [-> | Hne]; [right; now split|].
      left. apply (frame_untouched _ _ _ _ _ (augment_states_frame host o ia2n));
        cbn [In]; intuition (subst; congruence). }
    assert (HFc : is_combobox F = true).
    { unfold is_combobox, Dict.get_or in *.
      destruct (HF "xml-roles") as [-> | [? _]]; [cbn [In]; tauto | | discriminate].
      destruct (HF "role") as [-> | [? _]]; [cbn [In]; tauto | | discriminate].
      destruct (HF "haspopup") as [-> | [? _]]; [cbn [In]; tauto | | discriminate].
      exact Hc. }
    assert (HFm : Dict.mem F "expanded" = false).
    { apply dict_mem_false_get. subst F.
      erewrite (frame_untouched _ _ _ _ _ (infer_form_attrs_frame host o)) by notin.
      exact E. }
    assert (Hfin : forall v,
               Dict.get (_infer_expanded_for_combobox host o chain F) "expanded"
               = Some v ->
               Dict.get (augment_finish host o chain
                           (augment_states host o ia2n attrs)) "expanded"
               = Some v).
    { intros v Hv. unfold augment_finish.
      keep_step aug_describedby_text_frame.
      keep_step aug_strip_readonly_frame.
      keep_step aug_strip_msaa_role_frame.
      exact Hv. }
    destruct (combobox_sets_expanded F HFc HFm) as [H | H].
    + exists "true". split; [now apply Hfin | now left].
    + exists "false". split; [now apply Hfin | now right].
Qed.

End InferenceRulesValues.

(** Every table cell reports its spans: for an element tagged td or th
    whose mapping has neither "colspan" nor "rowspan", the output holds
    both, read from the host object ([colSpan] or [colspan], [rowSpan]
    or [rowspan]) and "1" where the host gives nothing. *)
Theorem table_cell_spans (host : Host) (o : node)
    (chain : list node) (attrs : Dict.t) (base_obj : node) (out : Dict.t) :
  _augment_attrs_for_readability host o chain attrs base_obj = Ok out ->
  str_in (_tag host o) ["td"; "th"] = true ->
  Dict.mem attrs "colspan" = false ->
  Dict.mem attrs "rowspan" = false ->
  Dict.get out "colspan"
  = Some (span_text (colSpan (obj host o)) (colspan (obj host o)))
  /\ Dict.get out "rowspan"
     = Some (span_text (rowSpan (obj host o)) (rowspan (obj host o))).
Proof.
  intros H Ht Hc Hr. destruct (augment_ok_inv _ _ _ _ _ _ H) as (ia2n & ->).
  apply table_cell_after; assumption.
Qed.

Lemma table_cell_spans_witness :
  exists out,
    _augment_attrs_for_readability table_cell_host 0 [0]
      (_ia2_attrs table_cell_host 0) 0 = Ok out
    /\ Dict.get out "colspan" = Some "1"
    /\ Dict.get out "rowspan" = Some "1".
Proof.
  destruct (_augment_attrs_for_readability table_cell_host 0 [0]
              (_ia2_attrs table_cell_host 0) 0) as [out|] eqn:E;
    [|vm_compute in E; discriminate E].
  exists out. split; [reflexivity|].
  apply (table_cell_spans table_cell_host 0 [0] (_ia2_attrs table_cell_host 0)
           0 out E); vm_compute; reflexivity.
Defined.

(** A toggle button always reports whether it is pressed: when the
    element is judged a toggle (role togglebutton, or the host role
    constant), its tag is button, a, div or span and the mapping has no
    "pressed", the output holds pressed "true" if the element carries a
    pressed or checked state, else the value of the aria-pressed hint,
    else "false". *)
Theorem toggle_pressed_inferred (host : Host) (o : node)
    (chain : list node) (attrs : Dict.t) (base_obj : node) (out : Dict.t)
    (t : string) :
  _augment_attrs_for_readability host o chain attrs base_obj = Ok out ->
  Dict.get attrs "tag" = Some t ->
  str_in (lower t) ["button"; "a"; "div"; "span"] = true ->
  Dict.mem attrs "pressed" = false ->
  is_toggle host o attrs = true ->
  Dict.get out "pressed"
  = Some (if pressed_signal host o then "true"
          else match pressed_from_aria attrs with
               | Some b => bool_str b
               | None => "false"
               end).
Proof.
  intros H Ht Hin Hm Htg. destruct (augment_ok_inv _ _ _ _ _ _ H) as (ia2n & ->).
  apply (toggle_pressed_after host o chain ia2n attrs t); assumption.
Qed.

Lemma toggle_pressed_inferred_witness :
  exists out,
    _augment_attrs_for_readability toggle_button_host 0 [0]
      (_ia2_attrs toggle_button_host 0) 0 = Ok out
    /\ Dict.get out "pressed" = Some "true".
Proof.
  destruct (_augment_attrs_for_readability toggle_button_host 0 [0]
              (_ia2_attrs toggle_button_host 0) 0) as [out|] eqn:E;
    [|vm_compute in E; discriminate E].
  exists out. split; [reflexivity|].
  rewrite (toggle_pressed_inferred toggle_button_host 0 [0]
             (_ia2_attrs toggle_button_host 0) 0 out "button" E);
    vm_compute; reflexivity.
Defined.

(** Document-level tags are not marked as form fields unless their role
    says so: when the tag is [#document], body or html, the output holds
    fsFormField "true" if the role (or structured role) is one of the
    interactive roles, and no fsFormField at all otherwise, whatever the
    input mapping held under that key. *)
Theorem form_field_on_document_tags (host : Host) (o : node)
    (chain : list node) (attrs : Dict.t) (base_obj : node) (out : Dict.t) :
  _augment_attrs_for_readability host o chain attrs base_obj = Ok out ->
  str_in (effective_tag host o attrs) ["#document"; "body"; "html"] = true ->
  Dict.get out "fsFormField"
  = if interactive_role attrs then Some "true" else None.
Proof.
  intros H Ht. destruct (augment_ok_inv _ _ _ _ _ _ H) as (ia2n & ->).
  apply form_field_after; assumption.
Qed.

Lemma form_field_on_document_tags_witness :
  exists out,
    _augment_attrs_for_readability document_with_field_host 0 [0]
      (_ia2_attrs document_with_field_host 0) 0 = Ok out
    /\ Dict.get (_ia2_attrs document_with_field_host 0) "fsFormField" = Some "yes"
    /\ Dict.get out "fsFormField" = None.
Proof.
  destruct (_augment_attrs_for_readability document_with_field_host 0 [0]
              (_ia2_attrs document_with_field_host 0) 0) as [out|] eqn:E;
    [|vm_compute in E; discriminate E].
  exists out. split; [reflexivity|]. split; [vm_compute; reflexivity|].
  rewrite (form_field_on_document_tags document_with_field_host 0 [0]
             (_ia2_attrs document_with_field_host 0) 0 out E);
    vm_compute; reflexivity.
Defined.

(** The expanded value follows the states of the element: when the
    element carries a collapsed or an expanded state (by constant or by
    display name), the output holds expanded "false" if it is collapsed
    and expanded "true" otherwise, whatever the input mapping held under
    that key. *)
Theorem expanded_follows_states (host : Host) (o : node)
    (chain : list node) (attrs : Dict.t) (base_obj : node) (out : Dict.t) :
  _augment_attrs_for_readability host o chain attrs base_obj = Ok out ->
  expanded_signal host o = true ->
  Dict.get out "expanded"
  = Some (if collapsed_signal host o then "false" else "true").
Proof.
  intros H Hs. destruct (augment_ok_inv _ _ _ _ _ _ H) as (ia2n & ->).
  apply expanded_after; assumption.
Qed.

Lemma expanded_follows_states_witness :
  exists out,
    _augment_attrs_for_readability collapsed_button_host 0 [0]
      (_ia2_attrs collapsed_button_host 0) 0 = Ok out
    /\ Dict.get (_ia2_attrs collapsed_button_host 0) "expanded" = Some "true"
    /\ Dict.get out "expanded" = Some "false".
Proof.
  destruct (_augment_attrs_for_readability collapsed_button_host 0 [0]
              (_ia2_attrs collapsed_button_host 0) 0) as [out|] eqn:E;
    [|vm_compute in E; discriminate E].
  exists out. split; [reflexivity|]. split; [vm_compute; reflexivity|].
  rewrite (expanded_follows_states collapsed_button_host 0 [0]
             (_ia2_attrs collapsed_button_host 0) 0 out E);
    vm_compute; reflexivity.
Defined.

(** A combobox always reports an expanded value: when the structured
    role contains combobox, the role is combobox or haspopup is listbox,
    the output holds "expanded"; and when the input mapping had none,
    its value is the literal "true" or "false". *)
Theorem combobox_reports_expanded (host : Host) (o : node)
    (chain : list node) (attrs : Dict.t) (base_obj : node) (out : Dict.t) :
  _augment_attrs_for_readability host o chain attrs base_obj = Ok out ->
  is_combobox attrs = true ->
  exists v,
    Dict.get out "expanded" = Some v
    /\ (Dict.mem attrs "expanded" = false -> v = "true" \/ v = "false").
Proof.
  intros H Hc. destruct (augment_ok_inv _ _ _ _ _ _ H) as (ia2n & ->).
  apply combobox_after; assumption.
Qed.

Lemma combobox_reports_expanded_witness :
  exists out v,
    _augment_attrs_for_readability combobox_host 0 [0]
      (_ia2_attrs combobox_host 0) 0 = Ok out
    /\ Dict.get out "expanded" = Some v
    /\ (v = "true" \/ v = "false").
Proof.
  destruct (_augment_attrs_for_readability combobox_host 0 [0]
              (_ia2_attrs combobox_host 0) 0) as [out|] eqn:E;
    [|vm_compute in E; discriminate E].
  destruct (combobox_reports_expanded combobox_host 0 [0]
              (_ia2_attrs combobox_host 0) 0 out E) as (v & Hv & Hc);
    [vm_compute; reflexivity|].
  exists out, v. split; [reflexivity|]. split; [exact Hv|].
  apply Hc. vm_compute. reflexivity.
Defined.

(** ** The parameter order of [sort_params] *)

Lemma JAWS_ORDER_nodup : NoDup JAWS_ORDER.
Proof.
  assert (H : nodup string_dec JAWS_ORDER = JAWS_ORDER) by (vm_compute; reflexivity).
  rewrite <- H. apply NoDup_nodup.
Qed.

Lemma sort_params_listed_fold (params : Dict.t) (l : list string) :
  forall acc,
    fold_left (sort_params_listed params) l acc = acc ++ entries_in_order params l.
Proof.
  unfold entries_in_order.
  induction l as [|k l IH]; intros acc; cbn [fold_left flat_map].
  - now rewrite app_nil_r.
  - rewrite IH. unfold sort_params_listed.
    destruct (Dict.get params k); [now rewrite <- app_assoc | reflexivity].
Qed.

Lemma entries_in_order_in (params : Dict.t) (l : list string) (k v : string) :
  In (k, v) (entries_in_order params l) <-> In k l /\ Dict.get params k = Some v.
Proof.
  unfold entries_in_order. rewrite in_flat_map. split.
  - intros (x & Hx & Hin). destruct (Dict.get params x) as [w|] eqn:E; [|destruct Hin].
    destruct Hin as [[= <- <-] | []]. now split.
  - intros [Hk Hv]. exists k. split; [assumption|]. rewrite Hv. now left.
Qed.

Lemma entries_in_order_nodup (params : Dict.t) (l : list string) :
  NoDup l -> NoDup (entries_in_order params l).
Proof.
  induction 1 as [|k l Hk _ IH]; [constructor|].
  change (entries_in_order params (k :: l))
    with (match Dict.get params k with Some v => [(k, v)] | None => [] end
            ++ entries_in_order params l).
  destruct (Dict.get params k) as [v|]; [|exact IH].
  cbn [app]. constructor; [|exact IH].
  intros Hin. apply entries_in_order_in in Hin. tauto.
Qed.

Lemma dict_wf_nodup (d : Dict.t) : Dict.wf d -> NoDup d.
Proof. unfold Dict.wf, Dict.keys. apply NoDup_map_inv. Qed.

Lemma filter_split_perm {A : Type} (p : A -> bool) (l : list A) :
  Permutation (filter p l ++ filter (fun x => negb (p x)) l) l.
Proof.
  induction l as [|x l IH]; cbn [filter]; [constructor|].
  destruct (p x); cbn [negb app].
  - now constructor.
  - symmetry. apply Permutation_cons_app. now symmetry.
Qed.

(** The second loop of [sort_params] over the keys still to come. *)
Lemma sort_params_other_fold (params : Dict.t) (suf : Dict.t) :
  forall pre,
    params = pre ++ suf -> Dict.wf params ->
    fold_left (sort_params_other params) (Dict.keys suf)
              (entries_in_order params JAWS_ORDER
                 ++ filter (fun kv => negb (str_in (fst kv) JAWS_ORDER)) pre)
    = entries_in_order params JAWS_ORDER
        ++ filter (fun kv => negb (str_in (fst kv) JAWS_ORDER)) (pre ++ suf).
Proof.
  induction suf as [|[k v] suf IH]; intros pre Hp Hwf.
  - now rewrite app_nil_r.
  - cbn [Dict.keys map fst fold_left].
    assert (Hin : In (k, v) params).
    { rewrite Hp. apply in_or_app. right. now left. }
    assert (Hget : Dict.get params k = Some v) by now apply dict_in_get_wf.
    assert (Hpre : ~ In k (map fst pre)).
    { unfold Dict.wf, Dict.keys in Hwf. rewrite Hp, map_app in Hwf.
      cbn [map fst] in Hwf. apply NoDup_remove_2 in Hwf.
      intros Hc. apply Hwf. apply in_or_app. now left. }
    assert (Hstep :
      sort_params_other params
        (entries_in_order params JAWS_ORDER
           ++ filter (fun kv => negb (str_in (fst kv) JAWS_ORDER)) pre) k
      = entries_in_order params JAWS_ORDER
          ++ filter (fun kv => negb (str_in (fst kv) JAWS_ORDER)) (pre ++ [(k, v)])).
    { unfold sort_params_other. rewrite filter_app. cbn [filter fst].
      destruct (str_in k JAWS_ORDER) eqn:Ej; cbn [negb].
      - rewrite app_nil_r.
        assert (E : str_in k (map fst (entries_in_order params JAWS_ORDER
                     ++ filter (fun kv => negb (str_in (fst kv) JAWS_ORDER)) pre))
                    = true).
        { apply str_in_iff. rewrite map_app. apply in_or_app. left.
          apply in_map_iff. exists (k, v). split; [reflexivity|].
          apply entries_in_order_in. split; [now apply str_in_iff | assumption]. }
        now rewrite E.
      - assert (E : str_in k (map fst (entries_in_order params JAWS_ORDER
                     ++ filter (fun kv => negb (str_in (fst kv) JAWS_ORDER)) pre))
                    = false).
        { apply str_in_false_iff. rewrite map_app. intros Hc.
          apply in_app_or in Hc. destruct Hc as [Hc | Hc].
          - apply in_map_iff in Hc as ([k' v'] & Hk' & Hc). cbn [fst] in Hk'. subst k'.
            apply entries_in_order_in in Hc. destruct Hc as [Hc _].
            apply str_in_iff in Hc. congruence.
          - apply Hpre. apply in_map_iff in Hc as (kv & Hk' & Hc).
            apply filter_In in Hc. apply in_map_iff. exists kv. tauto. }
        rewrite E, Hget. now rewrite app_assoc. }
    rewrite Hstep.
    replace (pre ++ (k, v) :: suf) with ((pre ++ [(k, v)]) ++ suf)
      by now rewrite <- app_assoc.
    apply IH; [now rewrite <- app_assoc | assumption].
Qed.

(** [sort_params] of a dictionary lists the entries under the keys of
    [JAWS_ORDER] first, in the order of that list, then the other
    entries in the order of the dictionary; nothing is lost and nothing
    is repeated: the result is a rearrangement of the entries. *)
Theorem sort_params_order (params : Dict.t) :
  Dict.wf params ->
  sort_params params
  = entries_in_order params JAWS_ORDER
      ++ filter (fun kv => negb (str_in (fst kv) JAWS_ORDER)) params
  /\ Permutation (sort_params params) params.
Proof.
  intros Hwf.
  assert (E : sort_params params
              = entries_in_order params JAWS_ORDER
                  ++ filter (fun kv => negb (str_in (fst kv) JAWS_ORDER)) params).
  { unfold sort_params. rewrite sort_params_listed_fold. cbn [app].
    pose proof (sort_params_other_fold params params [] eq_refl Hwf) as H.
    cbn [filter app] in H. rewrite app_nil_r in H. exact H. }
  split; [exact E|]. rewrite E.
  transitivity (filter (fun kv => str_in (fst kv) JAWS_ORDER) params
                  ++ filter (fun kv => negb (str_in (fst kv) JAWS_ORDER)) params);
    [|apply filter_split_perm].
  apply Permutation_app_tail.
  apply NoDup_Permutation.
  - apply entries_in_order_nodup, JAWS_ORDER_nodup.
  - apply NoDup_filter. now apply dict_wf_nodup.
  - intros [k v]. rewrite entries_in_order_in, filter_In. cbn [fst].
    rewrite str_in_iff. split.
    + intros [Hk Hv]. split; [now apply dict_get_in | assumption].
    + intros [Hin Hk]. split; [assumption | now apply dict_in_get_wf].
Qed.

Lemma sort_params_order_witness :
  sort_params [("id", "main"); ("data-x", "1"); ("class", "c"); ("aria-y", "2")]
  = [("class", "c"); ("id", "main"); ("data-x", "1"); ("aria-y", "2")]
  /\ Permutation
       (sort_params [("id", "main"); ("data-x", "1"); ("class", "c"); ("aria-y", "2")])
       [("id", "main"); ("data-x", "1"); ("class", "c"); ("aria-y", "2")].
Proof.
  destruct (sort_params_order
              [("id", "main"); ("data-x", "1"); ("class", "c"); ("aria-y", "2")])
    as [E P].
  - repeat constructor; cbn [In]; intuition discriminate.
  - split; [|exact P]. rewrite E. vm_compute. reflexivity.
Defined.

(** ** The report page *)

Lemma has_char_replace_self (c : ascii) (r s : string) :
  has_char c r = false -> has_char c (replace_char c r s) = false.
Proof.
  intros Hr. induction s as [|d t IH]; cbn [replace_char]; [reflexivity|].
  destruct (Ascii.eqb d c) eqn:E.
  - now rewrite has_char_app, Hr, IH.
  - cbn [has_char]. rewrite Ascii.eqb_sym, E, IH. reflexivity.
Qed.

Lemma has_char_replace_other (c d : ascii) (r s : string) :
  has_char c r = false -> has_char c s = false ->
  has_char c (replace_char d r s) = false.
Proof.
  intros Hr. induction s as [|x t IH]; cbn [replace_char has_char]; [reflexivity|].
  intros H. apply orb_false_iff in H as [Hx Ht].
  destruct (Ascii.eqb x d).
  - now rewrite has_char_app, Hr, IH.
  - cbn [has_char]. now rewrite Hx, IH.
Qed.

Lemma html_escape_no_markup (s : string) : no_markup (html_escape s) = true.
Proof.
  unfold no_markup, markup_chars, html_escape. cbn [forallb].
  rewrite !andb_true_iff, !negb_true_iff.
  repeat split.
  - do 3 (apply has_char_replace_other; [reflexivity|]).
    now apply has_char_replace_self.
  - do 2 (apply has_char_replace_other; [reflexivity|]).
    now apply has_char_replace_self.
  - apply has_char_replace_other; [reflexivity|].
    now apply has_char_replace_self.
  - now apply has_char_replace_self.
Qed.

Lemma block_parts_elements (b : string) : Forall element_part (block_parts b).
Proof.
  unfold block_parts. cbv zeta.
  destruct (negb (nonempty (strip b))); [constructor|].
  destruct (String.eqb (strip b) "Element Information:"
            || String.eqb (strip b) "Advanced Element Information:");
    [constructor|].
  apply Forall_app. split.
  - destruct (block_tag_name (strip b)) as [t|]; [|constructor].
    destruct (nonempty t); constructor; [|constructor].
    exists "<h2>Tag ", (_esc t), "</h2>".
    split; [reflexivity|]. split; [cbn [In]; tauto|].
    apply html_escape_no_markup.
  - constructor; [|constructor].
    exists "<pre>", (_esc (strip b)), "</pre>".
    split; [reflexivity|]. split; [cbn [In]; tauto|].
    apply html_escape_no_markup.
Qed.

(** The page built by [_report_text_to_html] is the join, by line feeds,
    of its parts; the first part is the heading of the escaped title; and
    every part is one [h1], [h2] or [pre] element around escaped text, in
    which none of the characters [<], [>], the double and the single
    quote occurs.  So whatever an attribute value holds, it cannot open a
    tag in the page. *)
Theorem report_page_is_escaped (report_text title_h1 : string) :
  _report_text_to_html report_text title_h1
  = join newline (page_parts report_text title_h1)
  /\ hd_error (page_parts report_text title_h1)
     = Some ("<h1>" ++ html_escape title_h1 ++ "</h1>")%string
  /\ Forall element_part (page_parts report_text title_h1)
  /\ forall s c, In c markup_chars -> has_char c (html_escape s) = false.
Proof.
  split; [reflexivity|]. split; [reflexivity|]. split.
  - unfold page_parts. cbv zeta. constructor.
    + exists "<h1>", (_esc title_h1), "</h1>".
      split; [reflexivity|]. split; [cbn [In]; tauto|].
      apply html_escape_no_markup.
    + apply Forall_flat_map. apply Forall_forall. intros b _.
      apply block_parts_elements.
  - intros s c Hc. pose proof (html_escape_no_markup s) as H.
    unfold no_markup in H. rewrite forallb_forall in H.
    apply negb_true_iff. now apply H.
Qed.

(** ** The two commands *)

Lemma build_report_cases (host : Host)
    (render_advanced : node -> string -> string) (advanced : bool)
    (report : string) (ok : bool) :
  _build_report host render_advanced advanced = Ok (report, ok) ->
  match _get_candidate_object host with
  | None => report = translate host msg_no_element /\ ok = false
  | Some b =>
      if _is_web_context host (Some b) then ok = true
      else report = translate host msg_not_applicable /\ ok = false
  end.
Proof.
  unfold _build_report.
  destruct (_get_candidate_object host) as [b|]; [|intros [= <- <-]; now split].
  destruct (_is_web_context host (Some b)); cbn [negb];
    [|intros [= <- <-]; now split].
  destruct (report_lines host advanced b) as [lines|]; cbn [bind]; [|discriminate].
  destruct (negb advanced); now intros [= _ <-].
Qed.

Lemma show_page_one (accepts_isHtml : bool) (text title : string) :
  exists flag, show_page accepts_isHtml text title
               = [BrowseableMessage text title flag].
Proof. unfold show_page. destruct accepts_isHtml; eauto. Qed.

Lemma page_parts_elements (report_text title_h1 : string) :
  Forall element_part (page_parts report_text title_h1).
Proof.
  unfold page_parts. cbv zeta. constructor.
  - exists "<h1>", (_esc title_h1), "</h1>".
    split; [reflexivity|]. split; [cbn [In]; tauto|].
    apply html_escape_no_markup.
  - apply Forall_flat_map. apply Forall_forall. intros b _.
    apply block_parts_elements.
Qed.

(** The basic command, when it does not raise, speaks the fixed message
    and shows nothing if there is no candidate object or the web gate is
    closed, and otherwise shows exactly one page and then speaks exactly
    one message; the page is built of [h1], [h2] and [pre] elements
    around escaped text. *)
Theorem basic_command_outcome (host : Host)
    (render_advanced : node -> string -> string) (accepts_isHtml : bool)
    (evs : list ui_event) :
  script_inspectWebElement host render_advanced accepts_isHtml = Ok evs ->
  command_outcome host evs
  /\ forall page title flag,
       In (BrowseableMessage page title flag) evs ->
       exists parts, page = join newline parts /\ Forall element_part parts.
Proof.
  unfold script_inspectWebElement.
  destruct (_build_report host render_advanced false) as [[report ok]|] eqn:E;
    cbn [bind]; [|discriminate].
  apply build_report_cases in E. unfold command_outcome.
  destruct (show_page_one accepts_isHtml
              (_report_text_to_html report "Element Information")
              (translate host "HTML Element Inspector")) as (flag & Hs).
  rewrite Hs. clear Hs.
  destruct ok; cbn [negb app]; intros [= <-].
  - split.
    + destruct (_get_candidate_object host) as [b|]; [|now destruct E].
      destruct (_is_web_context host (Some b)); [eauto | now destruct E].
    + intros page title fl [H | [H | []]]; [|discriminate H].
      injection H as <- _ _. exists (page_parts report "Element Information").
      split; [reflexivity|].
      apply (page_parts_elements report "Element Information").
  - split.
    + destruct (_get_candidate_object host) as [b|].
      * destruct (_is_web_context host (Some b)); [discriminate E|].
        now destruct E as [-> _].
      * now destruct E as [-> _].
    + intros page title fl [H | []]. discriminate H.
Qed.

Lemma basic_command_outcome_witness :
  exists evs,
    script_inspectWebElement image_link_host (fun _ s => s) true = Ok evs
    /\ command_outcome image_link_host evs.
Proof.
  destruct (script_inspectWebElement image_link_host (fun _ s => s) true)
    as [evs|] eqn:E; [|vm_compute in E; discriminate E].
  exists evs. split; [reflexivity|].
  exact (proj1 (basic_command_outcome image_link_host (fun _ s => s) true evs E)).
Defined.

(** The advanced command, when it does not raise, speaks the fixed
    message and shows nothing if there is no candidate object or the web
    gate is closed, and otherwise shows exactly one page and then speaks
    exactly one message. *)
Theorem advanced_command_outcome (host : Host)
    (render_advanced : node -> string -> string) (accepts_isHtml : bool)
    (evs : list ui_event) :
  script_inspectWebElementAdvanced host render_advanced accepts_isHtml = Ok evs ->
  command_outcome host evs.
Proof.
  unfold script_inspectWebElementAdvanced.
  destruct (_build_report host render_advanced true) as [[report ok]|] eqn:E;
    cbn [bind]; [|discriminate].
  apply build_report_cases in E. unfold command_outcome.
  destruct (show_page_one accepts_isHtml report
              (translate host "HTML Element Inspector (Advanced)")) as (flag & Hs).
  rewrite Hs. clear Hs.
  destruct ok; cbn [negb app]; intros [= <-].
  - destruct (_get_candidate_object host) as [b|]; [|now destruct E].
    destruct (_is_web_context host (Some b)); [eauto | now destruct E].
  - destruct (_get_candidate_object host) as [b|].
    + destruct (_is_web_context host (Some b)); [discriminate E|].
      now destruct E as [-> _].
    + now destruct E as [-> _].
Qed.

Lemma advanced_command_outcome_witness :
  exists evs,
    script_inspectWebElementAdvanced (sample_host [blank_object] (Some 0))
      (fun _ s => s) false = Ok evs
    /\ evs = [Message msg_not_applicable].
Proof.
  destruct (script_inspectWebElementAdvanced (sample_host [blank_object] (Some 0))
              (fun _ s => s) false) as [evs|] eqn:E;
    [|vm_compute in E; discriminate E].
  exists evs. split; [reflexivity|].
  exact (advanced_command_outcome (sample_host [blank_object] (Some 0))
           (fun _ s => s) false evs E).
Defined.

(** ** The tag chain holds ancestors, nearest first *)

(** The chain of [_dom_chain_with_tags] lists the starting object and
    its ancestors, nearest first, and leaves none out: its entries are
    the objects found at strictly increasing numbers of parent links
    above the start, and a number of links gives an entry exactly when
    it is below the depth budget, the object found there exposes a tag,
    and no object nearer to the start is tagged [#document]. *)
Theorem dom_chain_is_ancestry (host : Host) (o : node) (max_depth : nat) :
  exists ks,
    StronglySorted lt ks
    /\ map (fun k => ancestor_at host k o) ks
       = map Some (_dom_chain_with_tags host (Some o) max_depth)
    /\ forall k,
         In k ks <->
         k < max_depth
         /\ exists n, ancestor_at host k o = Some n
                      /\ has_tag host n = true
                      /\ forall j m, j < k -> ancestor_at host j o = Some m ->
                                     is_document host m = false.
Proof.
  unfold _dom_chain_with_tags. revert o.
  induction max_depth as [|d IH]; intros c.
  { exists []. split; [constructor|]. split; [reflexivity|].
    intros k. split; [intros [] | intros [H _]; lia]. }
  (* the heights of the entries above [c], one more than above its parent *)
  assert (Hup : exists ks,
             StronglySorted lt ks
             /\ map (fun k => ancestor_at host (S k) c) ks
                = map Some (dom_chain_from host d
                              (try_or (parent (obj host c)) None))
             /\ forall k,
                  In k ks <->
                  k < d
                  /\ exists n, ancestor_at host (S k) c = Some n
                               /\ has_tag host n = true
                               /\ forall j m, j < k ->
                                              ancestor_at host (S j) c = Some m ->
                                              is_document host m = false).
  { destruct (parent (obj host c)) as [[p|]|] eqn:Ep; cbn [try_or].
    - destruct (IH p) as (ks & Hs & Hm & Hin). exists ks.
      split; [exact Hs|]. split.
      + rewrite <- Hm. apply map_ext. intros k. cbn [ancestor_at]. now rewrite Ep.
      + intros k. rewrite Hin. cbn [ancestor_at]. rewrite Ep. reflexivity.
    - exists []. rewrite dom_chain_from_empty.
      split; [constructor|]. split; [reflexivity|].
      intros k. split; [intros []|]. intros (_ & n & Hn & _).
      cbn [ancestor_at] in Hn. rewrite Ep in Hn. discriminate Hn.
    - exists []. rewrite dom_chain_from_empty.
      split; [constructor|]. split; [reflexivity|].
      intros k. split; [intros []|]. intros (_ & n & Hn & _).
      cbn [ancestor_at] in Hn. rewrite Ep in Hn. discriminate Hn. }
  destruct Hup as (ks & Hs & Hm & Hin).
  assert (Hshift : StronglySorted lt (map S ks)).
  { clear Hm Hin. induction Hs as [|k ks _ IHs Hk]; cbn [map]; constructor;
      [assumption|].
    rewrite Forall_map. eapply Forall_impl; [|exact Hk].
    intros a Ha. cbv beta. lia. }
  assert (Hpos : Forall (fun k => 0 < k) (map S ks)).
  { rewrite Forall_map. apply Forall_forall. intros a _. lia. }
  rewrite dom_chain_from_cases.
  destruct (has_tag host c) eqn:Et.
  - destruct (is_document host c) eqn:Ed.
    + exists [0]. split; [repeat constructor|]. split; [reflexivity|].
      intros k. split.
      * intros [<- | []]. split; [lia|]. exists c.
        split; [reflexivity|]. split; [exact Et|]. intros j m Hj. lia.
      * intros (_ & n & _ & _ & Hbelow). destruct k as [|k]; [now left|].
        specialize (Hbelow 0 c (Nat.lt_0_succ k) eq_refl). congruence.
    + exists (0 :: map S ks). split; [now constructor|]. split.
      * cbn [map ancestor_at]. rewrite map_map. now rewrite Hm.
      * intros k. split.
        -- intros [<- | Hk].
           ++ split; [lia|]. exists c.
              split; [reflexivity|]. split; [exact Et|]. intros j m Hj. lia.
           ++ apply in_map_iff in Hk as (k' & <- & Hk').
              apply Hin in Hk' as (Hlt & n & Hn & Hnt & Hbelow).
              split; [lia|]. exists n. split; [exact Hn|]. split; [exact Hnt|].
              intros j m Hj Hjm. destruct j as [|j].
              ** cbn [ancestor_at] in Hjm. injection Hjm as <-. exact Ed.
              ** apply (Hbelow j m); [lia | exact Hjm].
        -- intros (Hlt & n & Hn & Hnt & Hbelow).
           destruct k as [|k]; [now left|]. right.
           apply in_map. apply Hin. split; [lia|].
           exists n. split; [exact Hn|]. split; [exact Hnt|].
           intros j m Hj Hjm. apply (Hbelow (S j) m); [lia | exact Hjm].
  - assert (Ed : is_document host c = false).
    { destruct (is_document host c) eqn:Ed; [|reflexivity].
      apply is_document_has_tag in Ed. congruence. }
    exists (map S ks). split; [exact Hshift|]. split.
    + rewrite map_map. exact Hm.
    + intros k. split.
      * intros Hk. apply in_map_iff in Hk as (k' & <- & Hk').
        apply Hin in Hk' as (Hlt & n & Hn & Hnt & Hbelow).
        split; [lia|]. exists n. split; [exact Hn|]. split; [exact Hnt|].
        intros j m Hj Hjm. destruct j as [|j].
        -- cbn [ancestor_at] in Hjm. injection Hjm as <-. exact Ed.
        -- apply (Hbelow j m); [lia | exact Hjm].
      * intros (Hlt & n & Hn & Hnt & Hbelow).
        destruct k as [|k].
        -- cbn [ancestor_at] in Hn. injection Hn as <-. congruence.
        -- apply in_map. apply Hin. split; [lia|].
           exists n. split; [exact Hn|]. split; [exact Hnt|].
           intros j m Hj Hjm. apply (Hbelow (S j) m); [lia | exact Hjm].
Qed.

(** ** The nearest object with a tag *)

Lemma find_first {A : Type} (p : A -> bool) (l : list A) (x : A) :
  find p l = Some x ->
  exists pre post,
    l = pre ++ x :: post /\ p x = true /\ Forall (fun y => p y = false) pre.
Proof.
  induction l as [|y l IH]; cbn [find]; [discriminate|].
  destruct (p y) eqn:E.
  - intros [= <-]. exists [], l. repeat split; [assumption | constructor].
  - intros H. destruct (IH H) as (pre & post & -> & Hx & Hpre).
    exists (y :: pre), post. repeat split; [assumption | now constructor].
Qed.

(** [_find_nearest_tag] answers with the first object of the chain whose
    tag is the wanted one (the wanted name in any case): every object
    before it in the chain has another tag; and it answers with nothing
    exactly when no object of the chain has that tag. *)
Theorem find_nearest_tag_is_first (host : Host) (chain : list node)
    (tag_name : string) :
  match _find_nearest_tag host chain tag_name with
  | Some n =>
      exists pre post,
        chain = pre ++ n :: post
        /\ _tag host n = lower tag_name
        /\ Forall (fun m => _tag host m <> lower tag_name) pre
  | None => Forall (fun m => _tag host m <> lower tag_name) chain
  end.
Proof.
  unfold _find_nearest_tag.
  destruct (find _ chain) as [n|] eqn:E.
  - destruct (find_first _ _ _ E) as (pre & post & Hc & Hn & Hpre).
    exists pre, post. split; [assumption|]. split; [now apply String.eqb_eq|].
    eapply Forall_impl; [|exact Hpre]. intros m Hm. now apply String.eqb_neq.
  - apply Forall_forall. intros m Hm.
    apply String.eqb_neq. exact (find_none _ _ E m Hm).
Qed.

(** ** The shape of the plain report *)

Lemma string_app_assoc (a b c : string) :
  ((a ++ b) ++ c = a ++ (b ++ c))%string.
Proof. induction a as [|x a IH]; cbn [String.append]; [reflexivity | now rewrite IH]. Qed.

Lemma rstrip_app_nonspace (a : string) (c : ascii) (x : string) :
  is_space c = false ->
  rstrip (a ++ String c x) = (a ++ String c (rstrip x))%string.
Proof.
  intros Hc. induction a as [|d a IH].
  - cbn [String.append rstrip]. now rewrite Hc.
  - cbn [String.append]. cbn [rstrip]. rewrite IH.
    assert (E : nonempty (a ++ String c (rstrip x)) = true) by now destruct a.
    rewrite E. cbn [negb]. now rewrite andb_false_r.
Qed.

Lemma bind_ok {A B : Type} (m : exc A) (k : A -> exc B) (b : B) :
  bind m k = Ok b -> exists a, m = Ok a /\ k a = Ok b.
Proof. destruct m as [a|]; cbn [bind]; [eauto | discriminate]. Qed.

Lemma report_blocks_ok (host : Host) (title : string) (c b : node)
    (promoted : option node) (anc : list node) (lines : list string) :
  (c_block <- node_block host c b ;;
   nested <-
     match promoted with
     | Some p =>
         if Nat.eqb p c then Ok []
         else p_block <- node_block host p b ;; Ok ["Nested element:"; p_block]
     | None => Ok []
     end ;;
   ancestors <- map_exc (fun a => node_block host a b) anc ;;
   Ok (title :: c_block :: nested ++ ancestors)) = Ok lines ->
  exists rest, lines = title :: rest /\ rest <> [].
Proof.
  intros E. apply bind_ok in E as (c_block & _ & E).
  apply bind_ok in E as (nested & _ & E).
  apply bind_ok in E as (ancestors & _ & E).
  injection E as <-. eexists. split; [reflexivity | discriminate].
Qed.

Lemma report_lines_title (host : Host) (advanced : bool) (base : node)
    (lines : list string) :
  report_lines host advanced base = Ok lines ->
  exists rest,
    lines = (if advanced then "Advanced Element Information:"
             else "Element Information:") :: rest
    /\ rest <> [].
Proof.
  unfold report_lines.
  destruct (report_start host base) as [b chain].
  destruct (_promote_canonical host (Some b) chain) as [canonical promoted].
  intros H.
  exact (report_blocks_ok host _ _ b promoted _ lines H).
Qed.

Lemma strip_title_line (rest : list string) :
  rest <> [] ->
  exists body,
    strip (join newline ("Element Information:" :: rest))
    = ("Element Information:" ++ body)%string
    /\ rstrip body = body.
Proof.
  intros Hr. destruct rest as [|x rest]; [contradiction|].
  change (join newline ("Element Information:" :: x :: rest))
    with ("Element Information" ++ String ":" (newline ++ join newline (x :: rest)))%string.
  unfold strip.
  change (lstrip ("Element Information"
                    ++ String ":" (newline ++ join newline (x :: rest))))
    with ("Element Information"
            ++ String ":" (newline ++ join newline (x :: rest)))%string.
  rewrite rstrip_app_nonspace by reflexivity.
  exists (rstrip (newline ++ join newline (x :: rest))).
  split; [|apply rstrip_idem].
  now rewrite (string_app_assoc "Element Information" ":").
Qed.

(** A plain report that is returned begins with the line "Element
    Information:", ends with one line feed, and has no white space
    before that line feed. *)
Theorem plain_report_shape (host : Host)
    (render_advanced : node -> string -> string) (report : string) :
  _build_report host render_advanced false = Ok (report, true) ->
  exists body,
    report = ("Element Information:" ++ body ++ newline)%string
    /\ rstrip body = body.
Proof.
  unfold _build_report.
  destruct (_get_candidate_object host) as [base|]; [|discriminate].
  destruct (negb (_is_web_context host (Some base))); [discriminate|].
  intros H. apply bind_ok in H as (lines & Hl & H).
  apply report_lines_title in Hl as (rest & -> & Hr).
  assert (Hrep : report
                 = (strip (join newline ("Element Information:" :: rest))
                      ++ newline)%string)
    by (injection H as <-; reflexivity).
  destruct (strip_title_line rest Hr) as (body & E & Hb).
  exists body. split; [|exact Hb].
  rewrite Hrep, E. now rewrite string_app_assoc.
Qed.

Lemma plain_report_shape_witness :
  exists report body,
    _build_report image_link_host (fun _ s => s) false = Ok (report, true)
    /\ report = ("Element Information:" ++ body ++ newline)%string.
Proof.
  destruct (_build_report image_link_host (fun _ s => s) false)
    as [[report ok]|] eqn:E; [|vm_compute in E; discriminate E].
  destruct ok; [|vm_compute in E; discriminate E].
  destruct (plain_report_shape image_link_host (fun _ s => s) report E)
    as (body & Hb & _).
  exists report, body. split; [reflexivity | exact Hb].
Defined.

(** ** The control name of the Attribute Extractor *)

Lemma dict_keys_set_in (d : Dict.t) (k k' v : string) :
  In k (Dict.keys (Dict.set d k' v)) -> k = k' \/ In k (Dict.keys d).
Proof.
  rewrite dict_keys_set. destruct (Dict.mem d k'); [now right|].
  intros H. apply in_app_or in H. destruct H as [H | [<- | []]]; auto.
Qed.

Lemma dict_keys_pop_in (d : Dict.t) (k x : string) :
  In k (Dict.keys (Dict.pop d x)) -> In k (Dict.keys d) /\ k <> x.
Proof.
  intros H. apply dict_mem_keys in H. rewrite dict_mem_pop in H.
  apply andb_true_iff in H as [Hne Hm]. split; [now apply dict_mem_keys|].
  apply negb_true_iff in Hne. now apply String.eqb_neq.
Qed.

Lemma normalize_formcontrolname_fold (l : list string) :
  forall out,
    (forall k, In k (Dict.keys out) -> lower k = "formcontrolname" ->
               k = "formcontrolname" \/ In k l) ->
    forall k, In k (Dict.keys (fold_left move_formcontrolname l out)) ->
              lower k = "formcontrolname" -> k = "formcontrolname".
Proof.
  induction l as [|x l IH]; intros out Hout k; cbn [fold_left].
  - intros Hk Hl. destruct (Hout k Hk Hl) as [H | []]. exact H.
  - apply IH. clear k. intros k Hk Hl.
    destruct (string_dec k "formcontrolname") as [-> | Hne]; [now left|]. right.
    unfold move_formcontrolname in Hk.
    destruct (String.eqb (lower x) "formcontrolname"
              && negb (String.eqb x "formcontrolname")) eqn:Ex.
    + destruct (Dict.get out x) as [v|] eqn:Eg.
      * apply dict_keys_set_in in Hk. destruct Hk as [-> | Hk]; [contradiction|].
        apply dict_keys_pop_in in Hk. destruct Hk as [Hk Hx].
        destruct (Hout k Hk Hl) as [-> | [<- | Hin]];
          [contradiction | contradiction | exact Hin].
      * destruct (Hout k Hk Hl) as [-> | [<- | Hin]];
          [contradiction | | exact Hin].
        apply dict_mem_keys in Hk. unfold Dict.mem in Hk. now rewrite Eg in Hk.
    + destruct (Hout k Hk Hl) as [-> | [<- | Hin]];
        [contradiction | | exact Hin].
      rewrite Hl in Ex. apply String.eqb_neq in Hne. rewrite Hne in Ex.
      discriminate Ex.
Qed.

Lemma refine_link_href_keys (d : Dict.t) (k : string) :
  In k (Dict.keys (refine_link_href d)) -> k = "href" \/ In k (Dict.keys d).
Proof.
  unfold refine_link_href.
  destruct (String.eqb _ "a"); [|now right]. cbv zeta.
  destruct (_ && _); [|now right].
  intros H. apply dict_keys_pop_in in H as [H _].
  now apply dict_keys_set_in in H.
Qed.

Lemma enrich_value_keys (o : NVDAObject) (d : Dict.t) (k : string) :
  In k (Dict.keys (enrich_value o d)) ->
  k = "href" \/ k = "value" \/ In k (Dict.keys d).
Proof.
  assert (Hset : forall v, In k (Dict.keys (refine_link_href (Dict.set d "value" v))) ->
                           k = "href" \/ k = "value" \/ In k (Dict.keys d)).
  { intros v H. apply refine_link_href_keys in H. destruct H as [H | H]; [now left|].
    apply dict_keys_set_in in H. tauto. }
  assert (Hsame : In k (Dict.keys (refine_link_href d)) ->
                  k = "href" \/ k = "value" \/ In k (Dict.keys d)).
  { intros H. apply refine_link_href_keys in H. tauto. }
  unfold enrich_value.
  destruct (Dict.mem d "value"); [exact Hsame|].
  destruct (nonempty (strip (Dict.get_or d "aria-valuenow" EmptyString)));
    [apply Hset|].
  destruct (nonempty (strip (Dict.get_or d "aria-valuetext" EmptyString)));
    [apply Hset|].
  destruct (value o); [|tauto]. cbv zeta.
  destruct (nonempty _); [apply Hset | exact Hsame].
Qed.

(** The control name is reported under one spelling: in the mapping of
    [_ia2_attrs], the only key that reads "formcontrolname" when put in
    lower case is "formcontrolname" itself; a raw key such as
    formControlName is moved there. *)
Theorem formcontrolname_normalized (host : Host) (o : node) :
  Forall (fun k => lower k = "formcontrolname" -> k = "formcontrolname")
         (Dict.keys (_ia2_attrs host o)).
Proof.
  apply Forall_forall. intros k Hk Hl.
  unfold _ia2_attrs, ia2_enrich in Hk. cbv zeta in Hk.
  apply enrich_value_keys in Hk.
  destruct Hk as [-> | [-> | Hk]]; [discriminate Hl | discriminate Hl |].
  unfold normalize_formcontrolname in Hk.
  revert Hk Hl. apply normalize_formcontrolname_fold.
  intros k' Hk' _. now right.
Qed.

Lemma formcontrolname_normalized_witness :
  Dict.get (_ia2_attrs angular_field_host 0) "formcontrolname" = Some "email"
  /\ Dict.mem (_ia2_attrs angular_field_host 0) "formControlName" = false.
Proof.
  split; [vm_compute; reflexivity|].
  destruct (Dict.mem (_ia2_attrs angular_field_host 0) "formControlName") eqn:E;
    [|reflexivity].
  apply dict_mem_keys in E.
  pose proof (formcontrolname_normalized angular_field_host 0) as H.
  rewrite Forall_forall in H.
  discriminate (H "formControlName" E eq_refl).
Defined.

(** ** The label of an element without one *)

Section LabelRoute.

Variable host : Host.
Variable o : node.
Variable chain : list node.
Variable ia2n : Dict.t.

Lemma form_tooltip_without_label (d : Dict.t) :
  Dict.mem d "label" = false -> form_tooltip d = d.
Proof.
  intros H. unfold form_tooltip. rewrite H.
  now rewrite andb_false_r.
Qed.

Lemma form_label_route (d : Dict.t) :
  Dict.mem d "label" = false ->
  match label_route host o d with
  | Some (k, v) => Dict.get (form_label host o d) k = Some v
  | None => Dict.mem (form_label host o d) "label" = false
  end.
Proof.
  intros Hm. unfold form_label, label_route. rewrite Hm. cbv zeta.
  destruct (nonempty (name_of host o)
            && String.eqb (lower (Dict.get_or d "name-from" EmptyString)) "attribute").
  { apply dict_get_set_same. }
  destruct (nonempty (description_of host o)); [|exact Hm].
  destruct (String.eqb (lower (Dict.get_or d "description-from" EmptyString))
                       "aria-describedby"); [apply dict_get_set_same|].
  destruct (String.eqb (lower (Dict.get_or d "description-from" EmptyString))
                       "tooltip"); apply dict_get_set_same.
Qed.

Lemma label_route_ext (d d' : Dict.t) :
  Dict.get d "name-from" = Dict.get d' "name-from" ->
  Dict.get d "description-from" = Dict.get d' "description-from" ->
  label_route host o d = label_route host o d'.
Proof.
  intros H1 H2. unfold label_route, Dict.get_or. now rewrite H1, H2.
Qed.

Lemma label_route_key (d : Dict.t) (k v : string) :
  label_route host o d = Some (k, v) ->
  k = "label" \/ k = "description" \/ k = "title".
Proof.
  unfold label_route.
  destruct (_ && _); [intros [= <- _]; tauto|].
  destruct (nonempty (description_of host o)); [|discriminate]. cbv zeta.
  destruct (String.eqb _ "aria-describedby"); [intros [= <- _]; tauto|].
  destruct (String.eqb _ "tooltip"); intros [= <- _]; tauto.
Qed.

Lemma label_route_after (attrs : Dict.t) :
  Dict.mem attrs "label" = false ->
  match label_route host o attrs with
  | Some (k, v) =>
      Dict.get (augment_finish host o chain (augment_states host o ia2n attrs)) k
      = Some v
  | None =>
      Dict.mem (augment_finish host o chain (augment_states host o ia2n attrs))
               "label" = false
  end.
Proof.
  intros Hm.
  set (S := augment_states host o ia2n attrs).
  assert (HS : forall k, In k ["label"; "name-from"; "description-from"] ->
                         Dict.get S k = Dict.get attrs k).
  { intros k Hk. cbn [In] in Hk. subst S.
    apply (frame_untouched _ _ _ _ _ (augment_states_frame host o ia2n));
      cbn [In]; intuition (subst; discriminate). }
  set (t := lower (or_else (Dict.get_or (form_tooltip (form_checked S)) "tag"
                              EmptyString) (_tag host o))).
  set (D := form_required host o
              (form_multiline t (form_name t (form_type t
                 (form_field t (form_tooltip (form_checked S))))))).
  assert (HC : forall k, In k ["label"; "name-from"; "description-from"] ->
                         Dict.get (form_checked S) k = Dict.get attrs k).
  { intros k Hk. rewrite <- (HS k Hk). cbn [In] in Hk.
    apply (frame_untouched _ _ _ _ _ form_checked_frame);
      cbn [In]; intuition (subst; discriminate). }
  assert (HT : form_tooltip (form_checked S) = form_checked S).
  { apply form_tooltip_without_label. unfold Dict.mem.
    rewrite HC by (cbn [In]; tauto). exact Hm. }
  assert (HD : forall k, In k ["label"; "name-from"; "description-from"] ->
                         Dict.get D k = Dict.get attrs k).
  { intros k Hk. rewrite <- (HC k Hk). subst D. rewrite HT. cbn [In] in Hk.
    erewrite (frame_untouched _ _ _ _ _ (form_required_frame host o))
      by (cbn [In]; intuition (subst; discriminate)).
    erewrite (frame_untouched _ _ _ _ _ (form_multiline_frame _))
      by (cbn [In]; intuition (subst; discriminate)).
    erewrite (frame_untouched _ _ _ _ _ (form_name_frame _))
      by (cbn [In]; intuition (subst; discriminate)).
    erewrite (frame_untouched _ _ _ _ _ (form_type_frame _))
      by (cbn [In]; intuition (subst; discriminate)).
    erewrite (frame_untouched _ _ _ _ _ (form_field_frame _))
      by (cbn [In]; intuition (subst; discriminate)).
    reflexivity. }
  assert (HDm : Dict.mem D "label" = false).
  { unfold Dict.mem. rewrite HD by (cbn [In]; tauto). exact Hm. }
  pose proof (form_label_route D HDm) as HR.
  rewrite (label_route_ext D attrs) in HR by (apply HD; cbn [In]; tauto).
  assert (HF : augment_finish host o chain S
               = aug_describedby_text
                   (aug_strip_readonly
                      (aug_strip_msaa_role
                         (_infer_expanded_for_combobox host o chain
                            (form_label host o D))))) by reflexivity.
  rewrite HF. clear HF.
  destruct (label_route host o attrs) as [[k v]|] eqn:E.
  - destruct (label_route_key attrs k v E) as [-> | [-> | ->]].
    + keep_step aug_describedby_text_frame.
      keep_step aug_strip_readonly_frame.
      keep_step aug_strip_msaa_role_frame.
      keep_step (infer_expanded_for_combobox_frame host o chain).
      exact HR.
    + keep_step aug_describedby_text_frame.
      keep_step aug_strip_readonly_frame.
      keep_step aug_strip_msaa_role_frame.
      keep_step (infer_expanded_for_combobox_frame host o chain).
      exact HR.
    + keep_step aug_describedby_text_frame.
      keep_step aug_strip_readonly_frame.
      keep_step aug_strip_msaa_role_frame.
      keep_step (infer_expanded_for_combobox_frame host o chain).
      exact HR.
  - pass_mem aug_describedby_text_frame.
    pass_mem aug_strip_readonly_frame.
    pass_mem aug_strip_msaa_role_frame.
    pass_mem (infer_expanded_for_combobox_frame host o chain).
    exact HR.
Qed.

End LabelRoute.

(** The label of an element that has none: when the input mapping has
    no "label", the output holds the name of the object as label if the
    name is not blank and name-from is "attribute"; otherwise, if the
    description of the object is not blank, it holds that description
    under "description" when description-from is "aria-describedby",
    under "title" when it is "tooltip", and under "label" in any other
    case; and with neither, the output has no label. *)
Theorem label_routed (host : Host) (o : node)
    (chain : list node) (attrs : Dict.t) (base_obj : node) (out : Dict.t) :
  _augment_attrs_for_readability host o chain attrs base_obj = Ok out ->
  Dict.mem attrs "label" = false ->
  match label_route host o attrs with
  | Some (k, v) => Dict.get out k = Some v
  | None => Dict.mem out "label" = false
  end.
Proof.
  intros H Hm. destruct (augment_ok_inv _ _ _ _ _ _ H) as (ia2n & ->).
  apply label_route_after; assumption.
Qed.

Lemma label_routed_witness :
  exists out,
    _augment_attrs_for_readability described_input_host 0 [0]
      (_ia2_attrs described_input_host 0) 0 = Ok out
    /\ Dict.get out "description" = Some "Use your work address"
    /\ Dict.mem out "label" = false.
Proof.
  destruct (_augment_attrs_for_readability described_input_host 0 [0]
              (_ia2_attrs described_input_host 0) 0) as [out|] eqn:E;
    [|vm_compute in E; discriminate E].
  exists out. split; [reflexivity|]. split.
  - exact (label_routed described_input_host 0 [0]
             (_ia2_attrs described_input_host 0) 0 out E eq_refl).
  - vm_compute in E. injection E as <-. reflexivity.
Defined.

(** ** The Inference Engine: the three stripping rules *)

Section StrippingRules.

Variable host : Host.
Variable o : node.
Variable chain : list node.
Variable ia2n : Dict.t.










End StrippingRules.

(** ** The Inference Engine: what it leaves alone *)



